(** * GS_tools: grain-size records and their statistics (gsfile.py)

    A shallow embedding of [BaseGSFile] / [GSFile]: the unit converter,
    the tail of record construction, the per-sample moment statistics,
    the bulk distribution and the depth-edge reconciler.

    Numbers are IEEE 754 double precision, as numpy's [float64].  The
    arithmetic is the executable specification of the Standard Library
    ([SpecFloat], precision 53, maximal exponent 1024).  The code is
    written once over a small interface [Arith], so that the same text
    can also be run in exact rational arithmetic.

    numpy arrays that are attributes of the object live in a heap and are
    reached through references: indexing with a boolean mask allocates a
    fresh buffer, an indexed assignment writes into the buffer it is
    given.  Arrays made by [np.zeros] or [np.zeros_like] and filled by a
    loop are local to one call and are kept as values.  Exceptions are
    results: a method returns [Ok] or raises.

    Also embedded, away from the numerics: the loop of [__init__] over the
    header rows of the csv file, and the plain Python of the spreadsheet
    reader [SedlabGSFile.read_GSData] (the scan for the last sample row, the
    parsing of the sample identifiers, the numbering of the layers).

    Not modelled: opening and reading the csv file, what pandas does in the
    spreadsheet reader, and the figures, which are calls of matplotlib.
    Between the header rows and the end of [__init__], [Header] holds what
    the object must have; the dynamic typing of attributes that a file may
    give another type is not followed.  [np.log2], [np.sqrt], [**] and the
    conversion of a string to a float are parameters;
    [scipy.stats.nanmean] follows its documentation. *)

From Stdlib Require Import ZArith QArith Lqa Floats.SpecFloat Ascii.
From stdpp Require Import base option list strings gmap.

Open Scope Z_scope.

(** ** Exceptions and the two monads *)

Inductive exn := IndexError | KeyError | TypeError | ValueError.

Inductive res (A : Type) : Type :=
  | Ok (a : A)
  | Raise (e : exn).
Arguments Ok {A} a.
Arguments Raise {A} e.

Global Instance res_ret : MRet res := λ A a, Ok a.
Global Instance res_bind : MBind res := λ A B f m,
  match m with Ok a => f a | Raise e => Raise e end.

(** ** The arithmetic interface *)

Class Arith (F : Type) := {
  fadd : F → F → F;
  fsub : F → F → F;
  fmul : F → F → F;
  fdiv : F → F → F;
  fneg : F → F;
  of_Z : Z → F;            (* a Python int promoted to a float *)
  fhalf : F;               (* the literal 0.5 *)
  fnan : F;
  isnan : F → bool;        (* np.isnan *)
  feqb : F → F → bool;     (* == *)
  fltb : F → F → bool;     (* <  *)
  fleb : F → F → bool;     (* <= *)
  as_int : F → option Z    (* the int a float key hashes and compares equal to *)
}.

(** *** binary64 *)

Module B64.
Definition prec : Z := 53.
Definition emax : Z := 1024.
Definition float := spec_float.

Definition add : float → float → float := SFadd prec emax.
Definition sub : float → float → float := SFsub prec emax.
Definition mul : float → float → float := SFmul prec emax.
Definition div : float → float → float := SFdiv prec emax.
Definition sqrt : float → float := SFsqrt prec emax.
Definition of_int (z : Z) : float := binary_normalize prec emax z 0 false.
(* m * 2^e, rounded *)
Definition mk (m e : Z) : float := binary_normalize prec emax m e false.
(* x ** n for n >= 1, by repeated multiplication *)
Definition powi (x : float) (n : Z) : float := Z.iter (n - 1) (mul x) x.
Definition nan : float := S754_nan.
Definition is_nan (x : float) : bool :=
  match x with S754_nan => true | _ => false end.
Definition is_zero (x : float) : bool :=
  match x with S754_zero _ => true | _ => false end.
Definition zero_or_nan (x : float) : bool :=
  match x with S754_zero _ | S754_nan => true | _ => false end.

(* the integer value of a float, when it is one: Python finds an int
   key k from a float key x exactly when x == k *)
Definition to_int (x : float) : option Z :=
  match x with
  | S754_zero _ => Some 0
  | S754_finite s m e =>
      let v := if s then Z.neg m else Z.pos m in
      if 0 <=? e then Some (v * 2 ^ e)
      else if (Z.pos m) mod 2 ^ (- e) =? 0 then Some (v / 2 ^ (- e))
      else None
  | _ => None
  end.
End B64.

Global Instance b64_arith : Arith B64.float := {|
  fadd := B64.add; fsub := B64.sub; fmul := B64.mul; fdiv := B64.div;
  fneg := SFopp; of_Z := B64.of_int; fhalf := B64.mk 1 (-1);
  fnan := B64.nan; isnan := B64.is_nan;
  feqb := SFeqb; fltb := SFltb; fleb := SFleb;
  as_int := B64.to_int |}.

(** *** Exact arithmetic

    The same operations on rationals without rounding, extended with the
    two infinities and NaN.  There is a single zero; a nonzero number over
    zero is an infinity of its sign, zero over zero is NaN. *)

Module Exact.
Inductive xreal := Fin (q : Q) | Inf (neg : bool) | NaN.

Definition sgn (q : Q) : comparison := (q ?= 0)%Q.

Definition add (x y : xreal) : xreal :=
  match x, y with
  | NaN, _ | _, NaN => NaN
  | Inf a, Inf b => if Bool.eqb a b then Inf a else NaN
  | Inf a, Fin _ | Fin _, Inf a => Inf a
  | Fin p, Fin q => Fin (p + q)
  end.

Definition neg (x : xreal) : xreal :=
  match x with
  | NaN => NaN
  | Inf a => Inf (negb a)
  | Fin p => Fin (- p)
  end.

Definition sub (x y : xreal) : xreal := add x (neg y).

Definition mul (x y : xreal) : xreal :=
  match x, y with
  | NaN, _ | _, NaN => NaN
  | Inf a, Inf b => Inf (xorb a b)
  | Inf a, Fin q | Fin q, Inf a =>
      match sgn q with Eq => NaN | Gt => Inf a | Lt => Inf (negb a) end
  | Fin p, Fin q => Fin (p * q)
  end.

Definition div (x y : xreal) : xreal :=
  match x, y with
  | NaN, _ | _, NaN => NaN
  | Inf _, Inf _ => NaN
  | Inf a, Fin q => match sgn q with Lt => Inf (negb a) | _ => Inf a end
  | Fin _, Inf _ => Fin 0
  | Fin p, Fin q =>
      match sgn q with
      | Eq => match sgn p with Eq => NaN | Gt => Inf false | Lt => Inf true end
      | _ => Fin (p / q)
      end
  end.

Definition is_nan (x : xreal) : bool :=
  match x with NaN => true | _ => false end.

Definition compare (x y : xreal) : option comparison :=
  match x, y with
  | NaN, _ | _, NaN => None
  | Inf a, Inf b =>
      Some (if Bool.eqb a b then Eq else if a then Lt else Gt)
  | Inf a, Fin _ => Some (if a then Lt else Gt)
  | Fin _, Inf b => Some (if b then Gt else Lt)
  | Fin p, Fin q => Some (p ?= q)%Q
  end.

Definition eqb (x y : xreal) : bool :=
  match compare x y with Some Eq => true | _ => false end.
Definition ltb (x y : xreal) : bool :=
  match compare x y with Some Lt => true | _ => false end.
Definition leb (x y : xreal) : bool :=
  match compare x y with Some (Lt | Eq) => true | _ => false end.

Definition to_int (x : xreal) : option Z :=
  match x with
  | Fin q => if (Qnum q mod Z.pos (Qden q) =? 0)%Z
             then Some (Qnum q / Z.pos (Qden q))%Z else None
  | _ => None
  end.

Definition positive (x : xreal) : Prop := ∃ q, x = Fin q ∧ (0 < q)%Q.

(** equality of values, up to the representation of a fraction *)
Definition equiv (x y : xreal) : Prop :=
  match x, y with
  | Fin p, Fin q => p == q
  | Inf a, Inf b => a = b
  | NaN, NaN => True
  | _, _ => False
  end.
End Exact.

Global Instance exact_arith : Arith Exact.xreal := {|
  fadd := Exact.add; fsub := Exact.sub; fmul := Exact.mul; fdiv := Exact.div;
  fneg := Exact.neg; of_Z := λ z, Exact.Fin (inject_Z z);
  fhalf := Exact.Fin (1 # 2);
  fnan := Exact.NaN; isnan := Exact.is_nan;
  feqb := Exact.eqb; fltb := Exact.ltb; fleb := Exact.leb;
  as_int := Exact.to_int |}.

(** ** numpy arrays *)

Section Arrays.
Context {F : Type} `{Arith F}.

(** [a[i]] for a non-negative index *)
Definition getitem {A} (a : list A) (i : nat) : res A :=
  match a !! i with Some x => Ok x | None => Raise IndexError end.

(** [a[-1]] *)
Definition getlast {A} (a : list A) : res A :=
  match last a with Some x => Ok x | None => Raise IndexError end.

(** [a[i] = x] *)
Definition setitem {A} (a : list A) (i : nat) (x : A) : res (list A) :=
  if decide (i < length a)%nat then Ok (<[i:=x]> a) else Raise IndexError.

(** [a[1:]] and [a[:-1]] *)
Definition from1 {A} (a : list A) : list A := drop 1 a.
Definition but_last {A} (a : list A) : list A := take (length a - 1) a.

(** an elementwise binary operation on two one-dimensional arrays, with
    numpy's broadcasting of a length-one operand *)
Definition bcast2 (f : F → F → F) (xs ys : list F) : res (list F) :=
  if decide (length xs = length ys) then Ok (zip_with f xs ys)
  else match xs, ys with
       | [x], _ => Ok (map (f x) ys)
       | _, [y] => Ok (map (λ x, f x y) xs)
       | _, _ => Raise ValueError
       end.

(** [np.sum] of a one-dimensional array: accumulation from 0.0, in
    index order.  numpy adds in this order below 8 elements and by blocks
    beyond, which can change the last bit of a rounded sum; nothing below
    depends on the order except the evaluations on the sample records,
    which have fewer elements. *)
Definition np_sum (a : list F) : F := fold_left fadd a (of_Z 0).

(** [a[mask]] for a boolean mask of the same length *)
Fixpoint select {A} (a : list A) (mask : list bool) : list A :=
  match a, mask with
  | x :: a', b :: mask' => if b then x :: select a' mask' else select a' mask'
  | _, _ => []
  end.

Definition mask_index {A} (a : list A) (mask : list bool) : res (list A) :=
  if decide (length a = length mask) then Ok (select a mask)
  else Raise IndexError.
End Arrays.

(** ** The heap of numpy buffers *)

Abbreviation loc := nat.

(** A one-dimensional array, or a two-dimensional one kept by columns
    together with its number of rows. *)
Inductive ndarray (F : Type) :=
  | Vec (v : list F)
  | Mat (nrows : nat) (columns : list (list F)).
Arguments Vec {F} v.
Arguments Mat {F} nrows columns.

Abbreviation heap F := (list (ndarray F)).

Definition M (F A : Type) : Type := heap F → res (A * heap F).

Section Heap.
Context {F : Type}.
Local Abbreviation M := (M F).

Global Instance M_ret : MRet M := λ A a h, Ok (a, h).
Global Instance M_bind : MBind M := λ A B f m h,
  match m h with Ok (a, h') => f a h' | Raise e => Raise e end.

Definition lift {A} (r : res A) : M A := λ h,
  match r with Ok a => Ok (a, h) | Raise e => Raise e end.

(** a new buffer *)
Definition alloc (a : ndarray F) : M loc := λ h, Ok (length h, h ++ [a]).

Definition load (l : loc) : M (ndarray F) := λ h,
  match h !! l with Some a => Ok (a, h) | None => Raise TypeError end.

(** overwrite the buffer behind a reference *)
Definition store (l : loc) (a : ndarray F) : M () := λ h,
  if decide (l < length h)%nat then Ok ((), <[l:=a]> h) else Raise TypeError.

Definition load_vec (l : loc) : M (list F) :=
  a ← load l;
  match a with Vec v => mret v | Mat _ _ => lift (Raise TypeError) end.

Definition load_mat (l : loc) : M (nat * list (list F)) :=
  a ← load l;
  match a with Mat m cs => mret (m, cs) | Vec _ => lift (Raise TypeError) end.

(** the value a computation returns from a given heap *)
Definition eval {A} (m : M A) (h : heap F) : res A :=
  match m h with Ok (a, _) => Ok a | Raise e => Raise e end.

(** an attribute that may be [None] *)
Definition load_opt_vec (l : option loc) : M (option (list F)) :=
  match l with
  | Some l => v ← load_vec l; mret (Some v)
  | None => mret None
  end.
(** computations that never raise [KeyError] *)
Definition no_key_error {A} (m : M A) : Prop :=
  ∀ h e, m h = Raise e → e ≠ KeyError.
End Heap.

(** [for ii, x in enumerate(xs)], threading the local state [s] *)
Fixpoint for_enum {A St} (body : St → nat → A → res St) (ii : nat)
    (xs : list A) (s : St) : res St :=
  match xs with
  | [] => Ok s
  | x :: xs' => s' ← body s ii x; for_enum body (S ii) xs' s'
  end.

(** the same in the heap monad, for [for ii in range(n)] *)
Fixpoint for_range {F} (body : nat → M F ()) (ii n : nat) : M F () :=
  match n with
  | O => mret ()
  | S n' => _ ← body ii; for_range body (S ii) n'
  end.

(** ** The record: [BaseGSFile] and [GSFile] *)

Section GSFile.
Context {F : Type} `{Arith F}.
(** [np.log2], [np.sqrt] and [**] ([np.power] with an integer exponent),
    elementwise: library code, taken as given *)
Variable np_log2 np_sqrt : F → F.
Variable np_power : F → Z → F.

Local Abbreviation M := (M F).

(** The attributes of a constructed object.  Arrays are references into
    the heap; [bins_phi] and [bins_phi_mid] may be [None]. *)
Record GSFile := {
  bin_units : string;
  mm_pix : option F;
  layer_type_lookup : gmap Z string;
  sample_id : list string;
  layer_type : loc;
  layer : loc;
  min_depth : loc;
  max_depth : loc;
  layer_type_strings : list string;
  bins : loc;
  bins_phi : option loc;
  bins_phi_mid : option loc;
  dists : loc;
  mid_depth : loc }.

(** *** 4.1 Unit converter *)

(** [_convert_bins_to_phi]: for phi units the very array [self.bins] is
    returned, for mm and pixels a new one *)
Definition _convert_bins_to_phi (bin_units : string) (mm_pix : option F)
    (bins : loc) : M (option loc) :=
  if decide (bin_units = "phi") then mret (Some bins)
  else if decide (bin_units = "phi mid") then mret None
  else if decide (bin_units = "psi") then mret None
  else if decide (bin_units = "mm") then
    b ← load_vec bins;
    l ← alloc (Vec (map (λ x, fneg (np_log2 x)) b));
    mret (Some l)
  else match decide (bin_units = "pixels"), mm_pix with
       | left _, Some k =>
           b ← load_vec bins;
           l ← alloc (Vec (map (λ x, fneg (np_log2 (fmul x k))) b));
           mret (Some l)
       | _, _ => mret None
       end.

(** the arithmetic of [_convert_bins_to_phi_mid] on the phi edges *)
Definition phi_mid_of (phi : list F) : res (list F) :=
  p0 ← getitem phi 0;
  p1 ← getitem phi 1;
  let mpt1 := fadd p0 (fmul fhalf (fsub p0 p1)) in
  d ← bcast2 fsub (but_last phi) (from1 phi);
  bins_phi_mid ← bcast2 fadd (from1 phi) (map (fmul fhalf) d);
  mret (mpt1 :: bins_phi_mid).

(** [_convert_bins_to_phi_mid] *)
Definition _convert_bins_to_phi_mid (bin_units : string) (bins : loc)
    (bins_phi : option loc) : M (option loc) :=
  if decide (bin_units = "phi mid") then mret (Some bins)
  else match bins_phi with
       | Some p =>
           phi ← load_vec p;
           v ← lift (phi_mid_of phi);
           l ← alloc (Vec v);
           mret (Some l)
       | None => mret None
       end.

(** *** 4.2 The end of [__init__] *)

(** [self.layer_type_lookup[x]] for an element [x] of a float array *)
Definition lookup_label (tbl : gmap Z string) (x : F) : res string :=
  match as_int x with
  | Some k => match tbl !! k with Some s => Ok s | None => Raise KeyError end
  | None => Raise KeyError
  end.

(** a list comprehension whose body may raise *)
Fixpoint comprehension {A B} (f : A → res B) (xs : list A) : res (list B) :=
  match xs with
  | [] => Ok []
  | x :: xs' => y ← f x; ys ← comprehension f xs'; mret (y :: ys)
  end.

(** What the loop over the header rows has set on the object, and the
    class attributes in force.  The numeric fields are float arrays,
    [sample_id] a list of strings. *)
Record Header := {
  h_bin_units : string;
  h_mm_pix : option F;
  h_layer_type_lookup : gmap Z string;
  h_sample_id : list string;
  h_layer_type : loc;
  h_layer : loc;
  h_min_depth : loc;
  h_max_depth : loc }.

(** Lines 110 to 118 of [__init__]; [temp] is the numeric block of the
    file, by columns. *)
Definition init_tail (a : Header) (nrows : nat) (temp : list (list F))
    : M GSFile :=
  codes ← load_vec (h_layer_type a);
  strings ← lift (comprehension (lookup_label (h_layer_type_lookup a)) codes);
  col0 ← lift (getitem temp 0);
  bins ← alloc (Vec col0);
  bins_phi ← _convert_bins_to_phi (h_bin_units a) (h_mm_pix a) bins;
  bins_phi_mid ← _convert_bins_to_phi_mid (h_bin_units a) bins bins_phi;
  dists ← alloc (Mat nrows (from1 temp));
  mind ← load_vec (h_min_depth a);
  maxd ← load_vec (h_max_depth a);
  s ← lift (bcast2 fadd mind maxd);
  mid_depth ← alloc (Vec (map (λ x, fdiv x (of_Z 2)) s));
  mret {| bin_units := h_bin_units a; mm_pix := h_mm_pix a;
          layer_type_lookup := h_layer_type_lookup a;
          sample_id := h_sample_id a;
          layer_type := h_layer_type a; layer := h_layer a;
          min_depth := h_min_depth a; max_depth := h_max_depth a;
          layer_type_strings := strings;
          bins := bins; bins_phi := bins_phi; bins_phi_mid := bins_phi_mid;
          dists := dists; mid_depth := mid_depth |}.

(** *** 4.3 Statistics *)

Definition zeros (n : nat) : list F := replicate n (of_Z 0).

(** [dist * self.bins_phi_mid], which is a [TypeError] on [None] *)
Definition times_bins (dist : list F) (bpm : option (list F)) : res (list F) :=
  match bpm with
  | Some b => bcast2 fmul dist b
  | None => Raise TypeError
  end.

(** the body of the loop of [dist_means] *)
Definition means_body (bpm : option (list F)) (means : list F) (ii : nat)
    (dist : list F) : res (list F) :=
  p ← times_bins dist bpm;
  setitem means ii (fdiv (np_sum p) (np_sum dist)).

Definition dist_means (self : GSFile) : M (list F) :=
  mid ← load_vec (mid_depth self);
  '(_, columns) ← load_mat (dists self);
  bpm ← load_opt_vec (bins_phi_mid self);
  lift (for_enum (means_body bpm) 0%nat columns (zeros (length mid))).

(** [devs[:,ii] = v]: the column must exist and [v] must broadcast to it *)
Definition set_column (nrows : nat) (devs : list (list F)) (ii : nat)
    (v : list F) : res (list (list F)) :=
  if decide (ii < length devs)%nat then
    if decide (length v = nrows) then Ok (<[ii:=v]> devs)
    else match v with
         | [x] => Ok (<[ii:=replicate nrows x]> devs)
         | _ => Raise ValueError
         end
  else Raise IndexError.

(** the body of the loop of [dist_devs] *)
Definition devs_body (nrows : nat) (bpm : option (list F))
    (devs : list (list F)) (ii : nat) (m : F) : res (list (list F)) :=
  match bpm with
  | Some b => set_column nrows devs ii (map (λ x, fsub x m) b)
  | None => Raise TypeError
  end.

Definition dist_devs (self : GSFile) : M (list (list F) * list F) :=
  means ← dist_means self;
  '(nrows, columns) ← load_mat (dists self);
  bpm ← load_opt_vec (bins_phi_mid self);
  devs ← lift (for_enum (devs_body nrows bpm) 0%nat means
                 (replicate (length columns) (zeros nrows)));
  mret (devs, means).

(** the body of the loop of [dist_stds] *)
Definition stds_body (devs : list (list F)) (variances : list F) (ii : nat)
    (dist : list F) : res (list F) :=
  d ← getitem devs ii;
  p ← bcast2 fmul dist (map (λ x, np_power x 2) d);
  setitem variances ii (fdiv (np_sum p) (np_sum dist)).

Definition dist_stds (self : GSFile) : M (list F) :=
  '(devs, _) ← dist_devs self;
  mid ← load_vec (mid_depth self);
  '(_, columns) ← load_mat (dists self);
  variances ← lift (for_enum (stds_body devs) 0%nat columns
                      (zeros (length mid)));
  mret (map np_sqrt variances).

(** the body of the loop of [dist_moments] *)
Definition moments_body (devs : list (list F))
    (m : list F * list F * list F) (ii : nat) (dist : list F)
    : res (list F * list F * list F) :=
  let '(m2, m3, m4) := m in
  let dist_sum := np_sum dist in
  d ← getitem devs ii;
  p2 ← bcast2 fmul dist (map (λ x, np_power x 2) d);
  m2 ← setitem m2 ii (fdiv (np_sum p2) dist_sum);
  v ← getitem m2 ii;
  let std := np_sqrt v in
  p3 ← bcast2 fmul dist (map (λ x, np_power (fdiv x std) 3) d);
  m3 ← setitem m3 ii (fdiv (np_sum p3) dist_sum);
  p4 ← bcast2 fmul dist (map (λ x, np_power (fdiv x std) 4) d);
  m4 ← setitem m4 ii (fdiv (np_sum p4) dist_sum);
  mret (m2, m3, m4).

Definition dist_moments (self : GSFile)
    : M (list F * list F * list F * list F) :=
  '(devs, m1) ← dist_devs self;
  mid ← load_vec (mid_depth self);
  '(_, columns) ← load_mat (dists self);
  '(m2, m3, m4) ← lift (for_enum (moments_body devs) 0%nat columns
                   (zeros (length mid), zeros (length mid),
                    zeros (length mid)));
  mret (m1, m2, m3, m4).

(** [scipy.stats.nanmean] of one row: the mean of the entries that are
    not NaN (library code, from its documentation); no such entry gives
    0/0 *)
Definition nanmean1 (xs : list F) : F :=
  let ys := List.filter (λ x, negb (isnan x)) xs in
  fdiv (np_sum ys) (of_Z (Z.of_nat (length ys))).

Definition row (b : nat) (columns : list (list F)) : list F :=
  omap (λ c : list F, c !! b) columns.

(** [nanmean(dists, axis=1)] *)
Definition nanmean (nrows : nat) (columns : list (list F)) : list F :=
  map (λ b, nanmean1 (row b columns)) (seq 0 nrows).

(** [self.layer > k] *)
Definition layer_gt (k : Z) (lay : list F) : list bool :=
  map (λ l, fltb (of_Z k) l) lay.

(** [dists[:,ii] = dists[:,ii]*diffs[ii]/length], on the buffer [d] *)
Definition scale_column (d : loc) (diffs : list F) (length : F) (ii : nat)
    : M () :=
  '(n, cs) ← load_mat d;
  c ← lift (getitem cs ii);
  w ← lift (getitem diffs ii);
  store d (Mat n (<[ii:=map (λ x, fdiv (fmul x w) length) c]> cs)).

(** [bulk_dist].  Indexing the columns with the boolean mask
    [self.layer > 0] copies them into a new array, the local [dists]; the
    loop then writes into that array. *)
Definition bulk_dist (self : GSFile) : M (list F) :=
  mind ← load_vec (min_depth self);
  lay ← load_vec (layer self);
  '(nrows, columns) ← load_mat (dists self);
  d ← (if negb (existsb isnan mind)
          && bool_decide (1 < length (sample_id self))%nat
       then
         sel ← lift (mask_index columns (layer_gt 0 lay));
         dists ← alloc (Mat nrows sel);
         maxd ← load_vec (max_depth self);
         diffs ← lift (comprehension
                         (λ '(ii, x), m ← getitem mind ii; mret (fsub x m))
                         (imap pair maxd));
         let length_ := fold_left fadd diffs (of_Z 0) in
         _ ← for_range (scale_column dists diffs length_) 0 (length sel);
         mret dists
       else
         sel ← lift (mask_index columns (layer_gt 0 lay));
         alloc (Mat nrows sel));
  '(n, cs) ← load_mat d;
  let bulk := nanmean n cs in
  let total := np_sum bulk in
  mret (map (λ x, fdiv (fmul (of_Z 100) x) total) bulk).

Definition bulk_mean (self : GSFile) (gs_min_max : option (F * F)) : M F :=
  match bins_phi_mid self with
  | None => mret fnan
  | Some l =>
      dist ← bulk_dist self;
      bpm ← load_vec l;
      '(dist, bins) ← lift
        match gs_min_max with
        | Some (g0, g1) =>
            let f1 := map (λ m, fleb m g0) bpm in
            let f2 := map (λ m, fleb g1 m) bpm in
            let filtr := zip_with andb f1 f2 in
            dist' ← mask_index dist filtr;
            bins ← mask_index bpm filtr;
            mret (dist', bins)
        | None => mret (dist, bpm)
        end;
      p ← lift (bcast2 fmul dist bins);
      mret (fdiv (np_sum p) (np_sum dist))
  end.

(** *** 4.4 Depth edges *)

(** [np.array_equal] on one-dimensional arrays *)
Definition array_equal (xs ys : list F) : bool :=
  bool_decide (length xs = length ys)
  && forallb (λ '(x, y), feqb x y) (zip xs ys).

(** [a[-1] = x] *)
Definition set_last {A} (a : list A) (x : A) : res (list A) :=
  match length a with
  | O => Raise IndexError
  | S n => Ok (<[n:=x]> a)
  end.

(** the body of the loop over the inner boundaries *)
Definition edges_body (depths : list F) (ii : nat) (nx : F * F)
    : res (list F) :=
  let '(n, x) := nx in
  let ii := S ii in
  if feqb n x then setitem depths ii n
  else setitem depths ii (fadd n (fdiv (fsub x n) (of_Z 2))).

Definition _get_depth_bin_edges (self : GSFile) (min_layer : Z) : M (list F) :=
  mind ← load_vec (min_depth self);
  maxd ← load_vec (max_depth self);
  lay ← load_vec (layer self);
  min_d ← lift (mask_index mind (layer_gt min_layer lay));
  max_d ← lift (mask_index maxd (layer_gt min_layer lay));
  lift
    (if array_equal (from1 min_d) (but_last max_d) then
       e ← getlast max_d; mret (min_d ++ [e])
     else
       let depths := zeros (length mind + 1) in
       d0 ← getitem min_d 0;
       depths ← setitem depths 0 d0;
       e ← getlast max_d;
       depths ← set_last depths e;
       for_enum edges_body 0%nat (zip (from1 min_d) (but_last max_d)) depths).
End GSFile.
Arguments GSFile F : clear implicits.
Arguments Header F : clear implicits.

(** The class attribute [layer_type_lookup] of [BaseGSFile]. *)
Definition default_layer_type_lookup : gmap Z string :=
  list_to_map
    [(-1, "Post-tsunami"); (0, "Pre-tsunami"); (1, "Suspension graded");
     (2, "Inverse graded"); (3, "Normal graded"); (4, "Massive");
     (5, "Not classified"); (6, "Not suspension graded"); (7, "Mud");
     (8, "Mud cap"); (9, "Unknown")].

(** ** The statements of the specification, in its own words *)

Section Specification.
Context {F : Type} `{Arith F}.

(** 4.3, [bulkDistribution]: with complete [min_depth] and more than one
    qualifying sample, each qualifying column is weighted by its own
    thickness over the total thickness of the qualifying samples. *)
Definition bulk_dist_spec (mind maxd lay : list F) (nrows : nat)
    (columns : list (list F)) : list F :=
  let mask := layer_gt 0 lay in
  let qualifying := select columns mask in
  let avg :=
    if negb (existsb isnan mind) && bool_decide (1 < length qualifying)%nat
    then
      let thickness := select (zip_with fsub maxd mind) mask in
      let total := np_sum thickness in
      nanmean nrows
        (zip_with (λ c t, map (λ x, fmul x (fdiv t total)) c)
                  qualifying thickness)
    else nanmean nrows qualifying in
  map (λ x, fdiv (fmul (of_Z 100) x) (np_sum avg)) avg.

(** 4.2, [layerLookup[code]], when the code has an entry *)
Definition label_of (tbl : gmap Z string) (x : F) : option string :=
  k ← as_int x; tbl !! k.

(** 4.3, [distMeans]: the weighted mean of one column,
    Σ(distribution[b] × binsPhiMid[b]) / Σ(distribution[b]). *)
Definition wmean (bpm dist : list F) : F :=
  fdiv (np_sum (zip_with fmul dist bpm)) (np_sum dist).

(** 4.3, [bulkMean]: the weighted mean over the bins whose midpoint [m]
    satisfies low <= m <= high. *)
Definition bulk_mean_spec (dist bpm : list F) (low high : F) : F :=
  let mask := map (λ m, fleb low m && fleb m high) bpm in
  let d := select dist mask in
  let b := select bpm mask in
  fdiv (np_sum (zip_with fmul d b)) (np_sum d).

(** a column scaled by a thickness [w] over the total thickness, in the
    order of operations of [bulk_dist] *)
Definition scale (total : F) (c : list F) (w : F) : list F :=
  map (λ x, fdiv (fmul x w) total) c.

(** 4.3, the final rescaling to percent *)
Definition rescale (avg : list F) : list F :=
  map (λ x, fdiv (fmul (of_Z 100) x) (np_sum avg)) avg.

(** the number K of samples that pass [layer > threshold] *)
Definition qualifying_count (threshold : Z) (lay : list F) : nat :=
  length (List.filter (λ b : bool, b) (layer_gt threshold lay)).
End Specification.

(** ** A sample record in any arithmetic *)

Section TwoSamples.
Context {F : Type} `{Arith F}.

(** Two tsunami samples, from depth 0 to [top] and from 1 to [bottom]; bins
    with midpoints 1 and 2 phi; the first sample lies in the first bin, the
    second in the second. *)
Definition two_header : Header F :=
  {| h_bin_units := "phi mid"; h_mm_pix := None;
     h_layer_type_lookup := default_layer_type_lookup;
     h_sample_id := ["a"; "b"];
     h_layer_type := 0%nat; h_layer := 1%nat;
     h_min_depth := 2%nat; h_max_depth := 3%nat |}.

Definition two_heap (top bottom : F) : heap F :=
  [Vec [of_Z 1; of_Z 1]; Vec [of_Z 1; of_Z 1];
   Vec [of_Z 0; of_Z 1]; Vec [top; bottom]].

Definition two_temp : list (list F) :=
  [[of_Z 1; of_Z 2]; [of_Z 1; of_Z 0]; [of_Z 0; of_Z 1]].

(** the object and the heap that [__init__] leaves *)
Definition two_record : GSFile F :=
  {| bin_units := "phi mid"; mm_pix := None;
     layer_type_lookup := default_layer_type_lookup;
     sample_id := ["a"; "b"];
     layer_type := 0%nat; layer := 1%nat;
     min_depth := 2%nat; max_depth := 3%nat;
     layer_type_strings := ["Suspension graded"; "Suspension graded"];
     bins := 4%nat; bins_phi := None; bins_phi_mid := Some 4%nat;
     dists := 5%nat; mid_depth := 6%nat |}.

Definition two_store (top bottom : F) : heap F :=
  two_heap top bottom
  ++ [Vec [of_Z 1; of_Z 2]; Mat 2 [[of_Z 1; of_Z 0]; [of_Z 0; of_Z 1]];
      Vec [fdiv (fadd (of_Z 0) top) (of_Z 2);
           fdiv (fadd (of_Z 1) bottom) (of_Z 2)]].
End TwoSamples.

(** ** Sample records, in binary64 *)

Module Sample.
Definition f (z : Z) : B64.float := B64.of_int z.

(** what the header rows of a file leave on the object: the arrays sit at
    references 0 to 3 *)
Definition header (units : string) (ids : list string) : Header B64.float :=
  {| h_bin_units := units; h_mm_pix := None;
     h_layer_type_lookup := default_layer_type_lookup;
     h_sample_id := ids;
     h_layer_type := 0%nat; h_layer := 1%nat;
     h_min_depth := 2%nat; h_max_depth := 3%nat |}.

Definition header_heap (layer_type layer mind maxd : list B64.float)
    : heap B64.float :=
  [Vec layer_type; Vec layer; Vec mind; Vec maxd].

(** the object that [__init__] leaves for a file in phi-midpoint units:
    [bins] at reference 4, which is also [bins_phi_mid], then [dists] and
    [mid_depth] *)
Definition phi_mid_record (ids labels : list string) : GSFile B64.float :=
  {| bin_units := "phi mid"; mm_pix := None;
     layer_type_lookup := default_layer_type_lookup;
     sample_id := ids;
     layer_type := 0%nat; layer := 1%nat;
     min_depth := 2%nat; max_depth := 3%nat;
     layer_type_strings := labels;
     bins := 4%nat; bins_phi := None; bins_phi_mid := Some 4%nat;
     dists := 5%nat; mid_depth := 6%nat |}.

(** construct a record from a file, then call a method on it *)
Definition construct_then {A} (hd : Header B64.float) (h : heap B64.float)
    (nrows : nat) (temp : list (list B64.float))
    (method : GSFile B64.float → M B64.float A) : res A :=
  eval (self ← init_tail (λ x, x) hd nrows temp; method self) h.

(** Three samples, the first one below the deposit (layer 0); two bins with
    midpoints 1 and 2 phi.  Thicknesses are 1, 3 and 12. *)
Definition trench_header := header "phi mid" ["t1"; "t2"; "t3"].
Definition trench_heap :=
  header_heap [f 0; f 3; f 3] [f 0; f 1; f 1]
              [f 0; f 1; f 4] [f 1; f 4; f 16].
Definition trench_temp := [[f 1; f 2]; [f 5; f 5]; [f 1; f 0]; [f 0; f 1]].
Definition trench {A} : (GSFile B64.float → M B64.float A) → res A :=
  construct_then trench_header trench_heap 2 trench_temp.

(** The depths of the docstring of [_get_depth_bin_edges], with the first
    sample below the deposit. *)
Definition gapped_header := header "phi mid" ["g1"; "g2"; "g3"].
Definition gapped_heap :=
  header_heap [f 0; f 3; f 3] [f 0; f 1; f 1]
              [f 0; f 1; B64.mk 5 (-1)] [f 1; f 2; B64.mk 7 (-1)].
Definition gapped_temp := [[f 1]; [f 1]; [f 1]; [f 1]].
Definition gapped {A} : (GSFile B64.float → M B64.float A) → res A :=
  construct_then gapped_header gapped_heap 1 gapped_temp.

(** Three tsunami samples of thickness 1; three bins with midpoints 1, 2
    and 3 phi. *)
Definition even_header := header "phi mid" ["e1"; "e2"; "e3"].
Definition even_heap :=
  header_heap [f 1; f 1; f 1] [f 1; f 1; f 1]
              [f 0; f 1; f 2] [f 1; f 2; f 3].
Definition even_temp :=
  [[f 1; f 2; f 3]; [f 1; f 2; f 1]; [f 1; f 2; f 1]; [f 1; f 2; f 1]].
Definition even {A} : (GSFile B64.float → M B64.float A) → res A :=
  construct_then even_header even_heap 3 even_temp.
Definition even_record : GSFile B64.float :=
  phi_mid_record ["e1"; "e2"; "e3"]
    ["Suspension graded"; "Suspension graded"; "Suspension graded"].
Definition even_store : heap B64.float :=
  even_heap ++ [Vec [f 1; f 2; f 3];
                Mat 3 [[f 1; f 2; f 1]; [f 1; f 2; f 1]; [f 1; f 2; f 1]];
                Vec [B64.mk 1 (-1); B64.mk 3 (-1); B64.mk 5 (-1)]].

(** Two samples, two bins with midpoints 1 and 2 phi; the values of the
    first sample are 1 and -1. *)
Definition signed_header := header "phi mid" ["n1"; "n2"].
Definition signed_heap :=
  header_heap [f 1; f 1] [f 1; f 1] [f 0; f 1] [f 1; f 2].
Definition signed_temp := [[f 1; f 2]; [f 1; f (-1)]; [f 1; f 3]].
Definition signed {A} : (GSFile B64.float → M B64.float A) → res A :=
  construct_then signed_header signed_heap 2 signed_temp.

(** The same with an empty first sample, and the object and the heap that
    [__init__] leaves. *)
Definition empty_temp := [[f 1; f 2]; [f 0; f 0]; [f 1; f 3]].
Definition empty_record : GSFile B64.float :=
  phi_mid_record ["n1"; "n2"] ["Suspension graded"; "Suspension graded"].
Definition empty_store : heap B64.float :=
  signed_heap ++ [Vec [f 1; f 2]; Mat 2 [[f 0; f 0]; [f 1; f 3]];
                  Vec [B64.mk 1 (-1); B64.mk 3 (-1)]].

(** Two samples measured in settling-velocity units. *)
Definition psi_header := header "psi" ["s1"; "s2"].
Definition psi_heap :=
  header_heap [f 3; f 4] [f 1; f 2] [f 0; f 1] [f 1; f 2].
Definition psi_temp := [[f 7]; [f 60]; [f 40]].
End Sample.

(** ** What the loops compute, in closed form *)

Section ClosedForms.
Context {F : Type} `{Arith F}.
Variable np_sqrt : F → F.
Variable np_power : F → Z → F.

(** the edge between two consecutive samples, lines 270 to 273 of
    [_get_depth_bin_edges]: the minimum depth [n] of the lower one when it
    is equal to the maximum depth [x] of the upper one, the middle of the
    gap otherwise *)
Definition inner_edge (n x : F) : F :=
  if feqb n x then n else fadd n (fdiv (fsub x n) (of_Z 2)).

(** the deviations of the bins from a mean, [self.bins_phi_mid - m] in
    [dist_devs] *)
Definition deviations (bpm : list F) (m : F) : list F :=
  map (λ x, fsub x m) bpm.

(** the second moment of one sample about its mean, line 203 of
    [dist_moments] *)
Definition moment2 (bpm dist : list F) : F :=
  fdiv (np_sum (zip_with fmul dist
                  (map (λ x, np_power x 2) (deviations bpm (wmean bpm dist)))))
       (np_sum dist).

(** the third and the fourth moment, lines 204 to 206: the deviations are
    divided by the square root of the second moment *)
Definition moment_std (k : Z) (bpm dist : list F) : F :=
  let std := np_sqrt (moment2 bpm dist) in
  fdiv (np_sum (zip_with fmul dist
                  (map (λ x, np_power (fdiv x std) k)
                       (deviations bpm (wmean bpm dist)))))
       (np_sum dist).
End ClosedForms.

(** The order of two finite binary64 numbers of the same sign, as
    [SFcompare] decides it: by exponent, then by mantissa. *)
Definition finite_compare (e1 : Z) (m1 : positive) (e2 : Z) (m2 : positive)
    : comparison :=
  match e1 ?= e2 with
  | Eq => Pos.compare_cont Eq m1 m2
  | Lt => Lt
  | Gt => Gt
  end.

(** ** More sample records, with the heap that [__init__] leaves *)

Module Fixture.
Import Sample.

(** Two samples that lie outside the deposit (layers 0 and -1). *)
Definition buried_header := header "phi mid" ["b1"; "b2"].
Definition buried_heap :=
  header_heap [f 0; f (-1)] [f 0; f (-1)] [f 0; f 1] [f 1; f 2].
Definition buried_temp := [[f 1; f 2]; [f 1; f 0]; [f 0; f 1]].
Definition buried_record : GSFile B64.float :=
  phi_mid_record ["b1"; "b2"] ["Pre-tsunami"; "Post-tsunami"].
Definition buried_store : heap B64.float :=
  buried_heap ++ [Vec [f 1; f 2]; Mat 2 [[f 1; f 0]; [f 0; f 1]];
                  Vec [B64.mk 1 (-1); B64.mk 3 (-1)]].

(** The record of [Sample.gapped]. *)
Definition gapped_record : GSFile B64.float :=
  phi_mid_record ["g1"; "g2"; "g3"]
    ["Pre-tsunami"; "Normal graded"; "Normal graded"].
Definition gapped_store : heap B64.float :=
  gapped_heap ++ [Vec [f 1]; Mat 1 [[f 1]; [f 1]; [f 1]];
                  Vec [B64.mk 1 (-1); B64.mk 3 (-1); f 3]].

(** The record in settling-velocity units. *)
Definition psi_record : GSFile B64.float :=
  {| bin_units := "psi"; mm_pix := None;
     layer_type_lookup := default_layer_type_lookup;
     sample_id := ["s1"; "s2"];
     layer_type := 0%nat; layer := 1%nat;
     min_depth := 2%nat; max_depth := 3%nat;
     layer_type_strings := ["Normal graded"; "Massive"];
     bins := 4%nat; bins_phi := None; bins_phi_mid := None;
     dists := 5%nat; mid_depth := 6%nat |}.
Definition psi_store : heap B64.float :=
  psi_heap ++ [Vec [f 7]; Mat 1 [[f 60]; [f 40]];
               Vec [B64.mk 1 (-1); B64.mk 3 (-1)]].

(** A file in phi units with a single bin. *)
Definition single_bin_header := header "phi" ["o1"].
Definition single_bin_heap := header_heap [f 1] [f 1] [f 0] [f 1].
Definition single_bin_temp := [[f 1]; [f 100]].
End Fixture.

(** ** Python strings and lists *)

(** [s.split(sep)] for a separator of one character: the pieces between
    the separators, empty pieces included; the empty string gives one empty
    piece *)
Fixpoint str_split (sep : ascii) (s : string) : list string :=
  match s with
  | EmptyString => [EmptyString]
  | String c s' =>
      if Ascii.eqb c sep then EmptyString :: str_split sep s'
      else match str_split sep s' with
           | w :: ws => String c w :: ws
           | [] => [String c EmptyString]
           end
  end.

(** [sep.join(l)] *)
Fixpoint str_join (sep : string) (l : list string) : string :=
  match l with
  | [] => EmptyString
  | [w] => w
  | w :: ws => w +:+ sep +:+ str_join sep ws
  end.

(** [c in s] for a character [c] *)
Fixpoint has_char (c : ascii) (s : string) : bool :=
  match s with
  | EmptyString => false
  | String d s' => Ascii.eqb d c || has_char c s'
  end.

(** [s.replace(' ', '_')] and [s.lower()], on ASCII text *)
Fixpoint map_string (f : ascii → ascii) (s : string) : string :=
  match s with
  | EmptyString => EmptyString
  | String c s' => String (f c) (map_string f s')
  end.

Definition underscore (c : ascii) : ascii :=
  if Ascii.eqb c " "%char then "_"%char else c.

Definition is_upper (c : ascii) : bool :=
  (65 <=? nat_of_ascii c)%nat && (nat_of_ascii c <=? 90)%nat.

Definition lower_char (c : ascii) : ascii :=
  if is_upper c then ascii_of_nat (nat_of_ascii c + 32) else c.

(** [l.index(x)]: the first position of [x] *)
Fixpoint list_index {A} `{EqDecision A} (l : list A) (x : A) : res nat :=
  match l with
  | [] => Raise ValueError
  | y :: l' => if decide (y = x) then Ok 0%nat
               else k ← list_index l' x; mret (S k)
  end.

(** [a[k]] for an index of either sign *)
Definition py_getitem {A} (a : list A) (k : Z) : res A :=
  if 0 <=? k then getitem a (Z.to_nat k)
  else if - k <=? Z.of_nat (length a)
       then getitem a (Z.to_nat (Z.of_nat (length a) + k))
       else Raise IndexError.

(** [a[:k]] (and [a[0:k]]) for a bound of either sign *)
Definition py_slice_to {A} (a : list A) (k : Z) : list A :=
  if 0 <=? k then take (Z.to_nat k) a
  else take (Z.to_nat (Z.of_nat (length a) + k)) a.

(** ** Names that are not bound

    Reading a local name that no statement has assigned raises
    [UnboundLocalError], a [NameError]; the outcome of a function that can
    do so is a value, one of the exceptions above, or the name. *)

Inductive outcome (A : Type) : Type :=
  | Return (a : A)
  | Throw (e : exn)
  | Unbound (name : string).
Arguments Return {A} a.
Arguments Throw {A} e.
Arguments Unbound {A} name.

Global Instance outcome_ret : MRet outcome := λ A a, Return a.
Global Instance outcome_bind : MBind outcome := λ A B f m,
  match m with
  | Return a => f a
  | Throw e => Throw e
  | Unbound name => Unbound name
  end.

Definition from_res {A} (r : res A) : outcome A :=
  match r with Ok a => Return a | Raise e => Throw e end.

(** [for x in xs], threading the local state [s] *)
Fixpoint for_each {A St} (body : St → A → outcome St) (xs : list A) (s : St)
    : outcome St :=
  match xs with
  | [] => Return s
  | x :: xs' => s' ← body s x; for_each body xs' s'
  end.

(** ** The spreadsheet reader: [SedlabGSFile.read_GSData]

    The plain Python of the method: the scan for the end of the sample
    rows, the parsing of the sample identifiers into a trench name and two
    depths, and the numbering of the layers.  What pandas hands over is a
    parameter: the cells of the first column. *)

(** A cell of the first column: text, or a float (an empty cell is the
    float NaN), with the text [str] gives for it. *)
Inductive cell := Text (s : string) | Number (s : string).

Definition cell_str (c : cell) : string :=
  match c with Text s | Number s => s end.

(** lines 393 to 396: [end] is the position of the first cell of type
    float; without one it is never assigned *)
Fixpoint find_end (idx : nat) (cells : list cell) : option nat :=
  match cells with
  | [] => None
  | Number _ :: _ => Some idx
  | Text _ :: cells' => find_end (S idx) cells'
  end.

(** lines 404 to 406: each token that holds a dash sets [split] to the
    first position of a token equal to it; [split] keeps the value it had
    when no token holds one *)
Definition find_split (i : list string) (split : option nat)
    : res (option nat) :=
  for_enum (λ split _ s,
              if has_char "-"%char s then k ← list_index i s; mret (Some k)
              else mret split)
           0%nat i split.

(** lines 416 to 424: the number of a sample within its trench *)
Definition layernum_body (TrenchName : list string) (layernum : list Z)
    (idx : nat) (n : string) : res (list Z) :=
  if decide (idx = 0%nat) then Ok (layernum ++ [1])
  else
    prev ← getitem TrenchName (idx - 1);
    if decide (n = prev) then
      k ← getitem layernum (idx - 1); mret (layernum ++ [k + 1])
    else mret (layernum ++ [1]).

Definition layer_numbers (TrenchName : list string) : res (list Z) :=
  for_enum (layernum_body TrenchName) 0%nat TrenchName [].

(** what holds of the numbers that the loop has given so far: the first is
    1, each next one counts on within a trench and starts again at 1 with a
    new name *)
Definition numbered (names : list string) (nums : list Z) : Prop :=
  (length nums ≤ length names)%nat
  ∧ (∀ k, nums !! 0%nat = Some k → k = 1)
  ∧ (∀ i a b k k', names !! i = Some a → names !! S i = Some b →
       nums !! i = Some k → nums !! S i = Some k' →
       k' = if decide (b = a) then k + 1 else 1)
  ∧ (∀ i k, nums !! i = Some k → 1 ≤ k ≤ Z.of_nat i + 1).

Section Sedlab.
Context {F : Type} `{Arith F}.
(** [float(s)] and the conversion of a string by [np.asarray] with
    [dtype=np.float64]: library code, taken as given *)
Variable float : string → res F.
Variable np_float64 : string → res F.

(** An element of the lists [MinDepth] and [MaxDepth]: a float, or the
    string 'nan'. *)
Inductive depth := Depth (x : F) | DepthText (s : string).

(** the local state of the loop over the identifiers: [split], [MinDepth],
    [MaxDepth] and [TrenchName] *)
Definition ids_state : Type :=
  option nat * list depth * list depth * list string.

(** lines 403 to 413, for one identifier [i], a list of tokens *)
Definition ids_body (st : ids_state) (i : list string) : outcome ids_state :=
  let '(split, MinDepth, MaxDepth, TrenchName) := st in
  if bool_decide ("-" ∈ i) then
    split ← from_res (find_split i split);
    k ← match split with
        | Some k => Return (Z.of_nat k)
        | None => Unbound "split"
        end;
    lo ← from_res (a ← py_getitem i (k - 1); float a);
    hi ← from_res (b ← py_getitem i (k + 1); float b);
    Return (split, MinDepth ++ [Depth lo], MaxDepth ++ [Depth hi],
            TrenchName ++ [str_join " " (py_slice_to i (k - 1))])
  else
    Return (split, MinDepth ++ [DepthText "nan"],
            MaxDepth ++ [DepthText "nan"], TrenchName ++ [str_join " " i]).

(** lines 393 to 413: the trench names and the depths of the samples *)
Definition sample_ids (cells : list cell)
    : outcome (list string * list depth * list depth) :=
  match find_end 0 cells with
  | None => Unbound "end"
  | Some e =>
      let ids := map (λ c, str_split " "%char (cell_str c)) (take e cells) in
      '(_, MinDepth, MaxDepth, TrenchName) ←
        for_each ids_body ids (None, [], [], []);
      Return (TrenchName, MinDepth, MaxDepth)
  end.

(** What the reader makes of one identifier.  Without a token that is a
    dash the whole text is the trench name and both depths are the string
    'nan'; from the text "NAME a - b" it takes the name and the two
    numbers. *)
Inductive parsed : string → string * depth * depth → Prop :=
  | parsed_plain s :
      "-" ∉ str_split " " s →
      parsed s (s, DepthText "nan", DepthText "nan")
  | parsed_regular name a b x y :
      Forall (λ w, has_char "-" w = false ∧ has_char " " w = false) name →
      a ≠ "-" → has_char " " a = false →
      has_char "-" b = false → has_char " " b = false →
      float a = Ok x → float b = Ok y →
      parsed (str_join " " (name ++ [a; "-"; b]))
             (str_join " " name, Depth x, Depth y).

(** lines 441 and 442: [np.asarray(MinDepth, dtype=np.float64)] *)
Definition asarray (l : list depth) : res (list F) :=
  comprehension (λ d, match d with
                      | Depth x => Ok x
                      | DepthText s => np_float64 s
                      end) l.
End Sedlab.
Arguments depth F : clear implicits.
Arguments ids_state F : clear implicits.

(** ** The header rows of the csv file: lines 90 to 109 of [__init__] *)

(** [m[0].replace(' ','_').lower()] *)
Definition attribute_name (s : string) : string :=
  map_string lower_char (map_string underscore s).

(** The value of an attribute set from a header row. *)
Inductive attr (F : Type) :=
  | Str (s : string)
  | Num (x : F)
  | Strs (l : list string)
  | Arr (l : loc)
  | PyNone.
Arguments Str {F} s.
Arguments Num {F} x.
Arguments Strs {F} l.
Arguments Arr {F} l.
Arguments PyNone {F}.

(** [for ii, x in enumerate(xs)] in the heap monad *)
Fixpoint for_enum_heap {F A St} (body : St → nat → A → M F St) (ii : nat)
    (xs : list A) (s : St) : M F St :=
  match xs with
  | [] => mret s
  | x :: xs' => s' ← body s ii x; for_enum_heap body (S ii) xs' s'
  end.

Section HeaderRows.
Context {F : Type} `{Arith F}.
Variable np_float64 : string → res F.
Variable numeric_fields : list string.
Variable metadata_rows col_header_rows : Z.

(** line 94: the float that a cell of a numeric row stands for; an empty
    cell is read as 'nan' *)
Definition cell_float (x : string) : res F :=
  np_float64 (if bool_decide (x = "") then "nan" else x).

(** the test of line 101: row [ii] holds one value for the whole file *)
Definition file_scalar (ii : nat) : bool :=
  Z.of_nat ii <? metadata_rows - col_header_rows - 1.

(** the body of the loop, for row [m] of the file at position [ii];
    [attrs] are the attributes of the object *)
Definition header_row (attrs : gmap string (attr F)) (ii : nat)
    (m : list string) : M F (gmap string (attr F)) :=
  m0 ← lift (getitem m 0);
  if bool_decide (m0 = "") then mret attrs
  else
    let name := attribute_name m0 in
    if bool_decide (m0 ∈ numeric_fields) then
      att ← lift (comprehension cell_float (from1 m));
      if file_scalar ii then
        x ← lift (getitem att 0); mret (<[name:=Num x]> attrs)
      else if bool_decide (0 < length att)%nat then
        l ← alloc (Vec att); mret (<[name:=Arr l]> attrs)
      else mret (<[name:=PyNone]> attrs)
    else
      let att := from1 m in
      if file_scalar ii then
        x ← lift (getitem att 0); mret (<[name:=Str x]> attrs)
      else if bool_decide (0 < length att)%nat then
        mret (<[name:=Strs att]> attrs)
      else mret (<[name:=PyNone]> attrs).

(** a row that does not set the attribute [key]: its first cell is empty
    or names another attribute *)
Definition silent (key : string) (m : list string) : Prop :=
  match m !! 0%nat with
  | Some m0 => m0 = "" ∨ attribute_name m0 ≠ key
  | None => True
  end.

(** the loop over [lines[:metadata_rows]] *)
Definition header_rows (lines : list (list string))
    (attrs : gmap string (attr F)) : M F (gmap string (attr F)) :=
  for_enum_heap header_row 0%nat (py_slice_to lines metadata_rows) attrs.
End HeaderRows.

(** ** Sample texts *)

Module Text.
(** a reader of the numerals that the sample texts use *)
Definition float (s : string) : res B64.float :=
  if decide (s = "0") then Ok (Sample.f 0)
  else if decide (s = "10") then Ok (Sample.f 10)
  else if decide (s = "12") then Ok (Sample.f 12)
  else if decide (s = "nan") then Ok S754_nan
  else Raise ValueError.

(** the header of a csv file with one row for the whole file and two rows
    with a value for each sample *)
Definition lines : list (list string) :=
  [["Bin Units"; "phi"]; ["Sample ID"; "a"; "b"]; ["Min Depth"; "0"; ""];
   ["1"; "50"; "50"]].
Definition numeric_fields : list string :=
  ["Min Depth"; "Max Depth"; "Layer Type"; "Layer"].
End Text.

(** * Properties *)

(** ** Running the monads *)

Ltac unfold_monad :=
  unfold load_opt_vec, load_vec, load_mat, load, alloc, store, lift in *;
  unfold mbind, M_bind, mret, M_ret, res_bind, res_ret in *;
  cbv beta in *.

Section Run.
Context {F : Type}.
Implicit Types h : heap F.

Lemma run_bind {A B} (m : M F A) (k : A → M F B) h :
  (m ≫= k) h = match m h with Ok (a, h') => k a h' | Raise e => Raise e end.
Proof. reflexivity. Qed.

Lemma run_ret {A} (a : A) h : (mret a : M F A) h = Ok (a, h).
Proof. reflexivity. Qed.

Lemma run_lift {A} (r : res A) h :
  lift r h = match r with Ok a => Ok (a, h) | Raise e => Raise e end.
Proof. reflexivity. Qed.

Lemma run_load_vec l v h : h !! l = Some (Vec v) → load_vec l h = Ok (v, h).
Proof. intros E. unfold_monad. by rewrite E. Qed.

Lemma run_load_mat l n cs h :
  h !! l = Some (Mat n cs) → load_mat l h = Ok ((n, cs), h).
Proof. intros E. unfold_monad. by rewrite E. Qed.

Lemma load_vec_inv l v h h' :
  load_vec l h = Ok (v, h') → h' = h ∧ h !! l = Some (Vec v).
Proof.
  unfold_monad. destruct (h !! l) as [[w|n cs]|]; intros E; by simplify_eq.
Qed.

Lemma load_mat_inv l p h h' :
  load_mat l h = Ok (p, h') → h' = h ∧ h !! l = Some (Mat p.1 p.2).
Proof.
  unfold_monad. destruct (h !! l) as [[w|n cs]|]; intros E; by simplify_eq.
Qed.

Lemma load_opt_vec_inv l o h h' :
  load_opt_vec l h = Ok (o, h') →
  h' = h ∧ match l with
           | Some l => ∃ v, o = Some v ∧ h !! l = Some (Vec v)
           | None => o = None
           end.
Proof.
  destruct l as [l|]; unfold_monad.
  - destruct (h !! l) as [[w|n cs]|]; intros E; simplify_eq; eauto.
  - intros E; by simplify_eq.
Qed.

Lemma bind_inv {A B} (m : M F A) (k : A → M F B) h r :
  (m ≫= k) h = Ok r → ∃ a h1, m h = Ok (a, h1) ∧ k a h1 = Ok r.
Proof.
  rewrite run_bind. destruct (m h) as [[a h1]|e]; [eauto|discriminate].
Qed.

Lemma ret_inv {A} (a b : A) h h' :
  (mret a : M F A) h = Ok (b, h') → b = a ∧ h' = h.
Proof. rewrite run_ret. intros E. by simplify_eq. Qed.

Lemma lift_inv {A} (r : res A) a h h' :
  lift r h = Ok (a, h') → h' = h ∧ r = Ok a.
Proof. unfold lift. destruct r; intros E; by simplify_eq. Qed.

Lemma map_fmap {A B} (f : A → B) (l : list A) : map f l = f <$> l.
Proof. reflexivity. Qed.
End Run.

Ltac minv H :=
  let a := fresh "a" in let h := fresh "h" in let E := fresh "E" in
  apply bind_inv in H as (a & h & E & H).

Tactic Notation "mstep" hyp(H) "as" simple_intropattern(a)
    simple_intropattern(h) ident(E) :=
  apply bind_inv in H as (a & h & E & H).

(** ** 4.1 Unit converter *)

Section UnitConverterFacts.
Context {F : Type} `{Arith F}.
Variable np_log2 : F → F.

Lemma length_but_last {A} (a : list A) :
  length (but_last a) = (length a - 1)%nat.
Proof. unfold but_last. rewrite length_take. lia. Qed.

Lemma lookup_but_last {A} (a : list A) i :
  (S i < length a)%nat → but_last a !! i = a !! i.
Proof. intros Hi. unfold but_last. apply lookup_take_lt. lia. Qed.

Lemma bcast2_same f (xs ys : list F) :
  length xs = length ys → bcast2 f xs ys = Ok (zip_with f xs ys).
Proof. intros E. unfold bcast2. by rewrite decide_True. Qed.

(** The midpoints computed from at least two phi edges. *)
Lemma phi_mid_of_ok (phi : list F) :
  (2 ≤ length phi)%nat →
  ∃ v, phi_mid_of phi = Ok v
     ∧ length v = length phi
     ∧ (∀ p0 p1, phi !! 0%nat = Some p0 → phi !! 1%nat = Some p1 →
          v !! 0%nat = Some (fadd p0 (fmul fhalf (fsub p0 p1))))
     ∧ (∀ i a b, phi !! i = Some a → phi !! S i = Some b →
          v !! S i = Some (fadd b (fmul fhalf (fsub a b)))).
Proof.
  intros Hlen.
  assert (Hl : length (but_last phi) = length (from1 phi)).
  { rewrite length_but_last. unfold from1. rewrite length_drop. done. }
  destruct (lookup_lt_is_Some_2 phi 0%nat) as [p0 E0]; [lia|].
  destruct (lookup_lt_is_Some_2 phi 1%nat) as [p1 E1]; [lia|].
  unfold phi_mid_of, getitem. rewrite E0, E1. cbn [mbind res_bind].
  rewrite (bcast2_same _ _ _ Hl). cbn [mbind res_bind].
  rewrite bcast2_same; last first.
  { rewrite length_map, length_zip_with. lia. }
  cbn [mbind res_bind mret res_ret]. eexists. split; [reflexivity|].
  split; [|split].
  - simpl. rewrite length_zip_with, length_map, length_zip_with.
    rewrite Hl. unfold from1. rewrite length_drop. lia.
  - intros q0 q1 E0' E1'. by simplify_eq.
  - intros i a b Ea Eb. rewrite lookup_cons. rewrite lookup_zip_with.
    rewrite map_fmap, list_lookup_fmap, lookup_zip_with.
    assert (Hi : (S i < length phi)%nat) by (by eapply lookup_lt_Some).
    rewrite (lookup_but_last phi i Hi), Ea.
    unfold from1. rewrite lookup_drop. simpl (1 + i)%nat. rewrite Eb.
    reflexivity.
Qed.
Lemma convert_bins_to_phi_units u k bins h o h' :
  _convert_bins_to_phi np_log2 u k bins h = Ok (o, h') →
  is_Some o → u ≠ "phi mid" ∧ u ≠ "psi".
Proof.
  unfold _convert_bins_to_phi. intros E [p ->].
  repeat case_decide; subst; try done; try (apply ret_inv in E as [? ?]; done).
Qed.

Lemma convert_phi_mid_general u k bins p phi h0 h :
  _convert_bins_to_phi np_log2 u k bins h0 = Ok (Some p, h) →
  h !! p = Some (Vec phi) → (2 ≤ length phi)%nat →
  ∃ v, _convert_bins_to_phi_mid u bins (Some p) h
         = Ok (Some (length h), h ++ [Vec v])
     ∧ length v = length phi
     ∧ (∀ p0 p1, phi !! 0%nat = Some p0 → phi !! 1%nat = Some p1 →
          v !! 0%nat = Some (fadd p0 (fmul fhalf (fsub p0 p1))))
     ∧ (∀ i a b, phi !! i = Some a → phi !! S i = Some b →
          v !! S i = Some (fadd b (fmul fhalf (fsub a b)))).
Proof.
  intros E Hp Hlen.
  destruct (convert_bins_to_phi_units _ _ _ _ _ _ E) as [Hu _]; [eauto|].
  destruct (phi_mid_of_ok phi Hlen) as (v & Hv & Hrest).
  exists v. split; [|exact Hrest].
  unfold _convert_bins_to_phi_mid. rewrite decide_False by done.
  rewrite run_bind, (run_load_vec _ _ _ Hp), run_bind, run_lift, Hv.
  reflexivity.
Qed.

Lemma bulk_mean_unavailable (self : GSFile F) rng h :
  bins_phi_mid self = None → bulk_mean self rng h = Ok (fnan, h).
Proof. intros E. unfold bulk_mean. by rewrite E. Qed.

Lemma convert_bins_to_phi_psi k bins h :
  _convert_bins_to_phi np_log2 "psi" k bins h = Ok (None, h).
Proof. reflexivity. Qed.

Lemma convert_bins_to_phi_mid_psi bins h :
  _convert_bins_to_phi_mid "psi" bins None h = Ok (None, h).
Proof. reflexivity. Qed.

Lemma init_tail_psi (a : Header F) n temp h self h' :
  h_bin_units a = "psi" → init_tail np_log2 a n temp h = Ok (self, h') →
  bin_units self = "psi" ∧ bins_phi self = None ∧ bins_phi_mid self = None.
Proof.
  intros Hu E. unfold init_tail in E. rewrite Hu in E.
  repeat minv E. apply ret_inv in E as [-> _]. simpl.
  repeat match goal with
  | E : _convert_bins_to_phi _ _ _ _ _ = _ |- _ =>
      rewrite convert_bins_to_phi_psi in E; simplify_eq
  | E : _convert_bins_to_phi_mid _ _ _ _ = _ |- _ =>
      rewrite convert_bins_to_phi_mid_psi in E; simplify_eq
  end.
  done.
Qed.
End UnitConverterFacts.

(** C5.  From an available vector of phi edges of length M >= 2,
    [_convert_bins_to_phi_mid] returns a new vector of length M whose first
    entry is phi[0] + 0.5*(phi[0]-phi[1]) and whose entry i, for
    i = 1..M-1, is phi[i] + 0.5*(phi[i-1]-phi[i]); on the edges [1,2,3,4]
    it returns [0.5, 1.5, 2.5, 3.5]. *)
Theorem phi_mid_from_edges :
  (∀ (F : Type) (A : Arith F) (np_log2 : F → F) u k bins p
     (phi : list F) (h0 h : heap F),
     _convert_bins_to_phi np_log2 u k bins h0 = Ok (Some p, h) →
     h !! p = Some (Vec phi) → (2 ≤ length phi)%nat →
     ∃ v, _convert_bins_to_phi_mid u bins (Some p) h
            = Ok (Some (length h), h ++ [Vec v])
        ∧ length v = length phi
        ∧ (∀ p0 p1, phi !! 0%nat = Some p0 → phi !! 1%nat = Some p1 →
             v !! 0%nat = Some (fadd p0 (fmul fhalf (fsub p0 p1))))
        ∧ (∀ i a b, phi !! i = Some a → phi !! S i = Some b →
             v !! S i = Some (fadd b (fmul fhalf (fsub a b)))))
  ∧ (let edges := Vec (map B64.of_int [1; 2; 3; 4]) in
     _convert_bins_to_phi_mid "phi" 0%nat (Some 0%nat) [edges]
     = Ok (Some 1%nat,
           [edges;
            Vec [B64.mk 1 (-1); B64.mk 3 (-1); B64.mk 5 (-1); B64.mk 7 (-1)]])).
Proof.
  split.
  - intros. by eapply convert_phi_mid_general.
  - vm_compute. reflexivity.
Qed.

Lemma phi_mid_from_edges_witness :
  let edges := map B64.of_int [1; 2; 3; 4] in
  ∃ v, _convert_bins_to_phi_mid "phi" 0%nat (Some 0%nat) [Vec edges]
         = Ok (Some 1%nat, [Vec edges] ++ [Vec v])
     ∧ length v = length edges
     ∧ (∀ p0 p1, edges !! 0%nat = Some p0 → edges !! 1%nat = Some p1 →
          v !! 0%nat = Some (fadd p0 (fmul fhalf (fsub p0 p1))))
     ∧ (∀ i a b, edges !! i = Some a → edges !! S i = Some b →
          v !! S i = Some (fadd b (fmul fhalf (fsub a b)))).
Proof.
  intros edges.
  apply (proj1 phi_mid_from_edges B64.float _ (λ x, x) "phi" None 0%nat 0%nat
           edges [Vec edges] [Vec edges]).
  - reflexivity.
  - reflexivity.
  - simpl. lia.
Defined.

(** C7.  A record constructed with bin_units = "psi" has neither
    [bins_phi] nor [bins_phi_mid], and [bulk_mean] returns not-a-number on
    it, whatever the range argument and the contents of the arrays. *)
Theorem psi_record_has_no_phi {F : Type} `{Arith F} (np_log2 : F → F)
    (a : Header F) (n : nat) (temp : list (list F)) (h h' : heap F)
    (self : GSFile F) :
  h_bin_units a = "psi" →
  init_tail np_log2 a n temp h = Ok (self, h') →
  bin_units self = "psi" ∧ bins_phi self = None ∧ bins_phi_mid self = None
  ∧ ∀ rng h'', bulk_mean self rng h'' = Ok (fnan, h'').
Proof.
  intros Hu E.
  destruct (init_tail_psi np_log2 a n temp h self h' Hu E) as (Hb & Hp & Hm).
  repeat split; try done. intros rng h''. by apply bulk_mean_unavailable.
Qed.

Lemma psi_record_has_no_phi_witness :
  ∃ self h',
    init_tail (λ x, x) Sample.psi_header 1 Sample.psi_temp Sample.psi_heap
    = Ok (self, h')
    ∧ bin_units self = "psi" ∧ bins_phi self = None ∧ bins_phi_mid self = None
    ∧ ∀ rng h'', bulk_mean self rng h'' = Ok (fnan, h'').
Proof.
  eexists _, _. split; [reflexivity|].
  eapply (psi_record_has_no_phi (λ x, x) Sample.psi_header 1 Sample.psi_temp
            Sample.psi_heap); reflexivity.
Defined.

(** ** Frame of [bulk_dist] *)

Section Frame.
Context {F : Type} `{Arith F}.
Implicit Types h : heap F.

Lemma alloc_inv (a : ndarray F) l h h' :
  alloc a h = Ok (l, h') → l = length h ∧ h' = h ++ [a].
Proof. unfold alloc. intros E. by simplify_eq. Qed.

Lemma store_fresh_inv (a b : ndarray F) h h' u :
  store (length h) b (h ++ [a]) = Ok (u, h') → h' = h ++ [b].
Proof.
  unfold store. case_decide; [|done]. intros E. simplify_eq.
  rewrite insert_app_r_alt by lia. by rewrite Nat.sub_diag.
Qed.

Lemma scale_column_fresh diffs len ii h (a : ndarray F) u h' :
  scale_column (length h) diffs len ii (h ++ [a]) = Ok (u, h') →
  ∃ a', h' = h ++ [a'].
Proof.
  unfold scale_column. intros E.
  minv E. apply load_mat_inv in E0 as [-> _]. destruct a0 as [n cs].
  minv E. apply lift_inv in E0 as [-> _].
  minv E. apply lift_inv in E0 as [-> _].
  apply store_fresh_inv in E. eauto.
Qed.

Lemma for_range_scale_fresh diffs len n : ∀ ii h (a : ndarray F) u h',
  for_range (scale_column (length h) diffs len) ii n (h ++ [a]) = Ok (u, h') →
  ∃ a', h' = h ++ [a'].
Proof.
  induction n as [|n IH]; intros ii h a u h' E; simpl in E.
  - apply ret_inv in E as [_ ->]. eauto.
  - minv E. apply scale_column_fresh in E0 as [a' ->]. eauto.
Qed.

Lemma bulk_dist_new_buffer (self : GSFile F) h v h' :
  bulk_dist self h = Ok (v, h') → ∃ a, h' = h ++ [a].
Proof.
  unfold bulk_dist. intros E.
  minv E. apply load_vec_inv in E0 as [-> _].
  minv E. apply load_vec_inv in E0 as [-> _].
  minv E. apply load_mat_inv in E0 as [-> _]. destruct a1 as [nrows columns].
  minv E. minv E. apply load_mat_inv in E1 as [-> _]. destruct a2 as [n cs].
  apply ret_inv in E as [_ ->].
  destruct (negb (existsb isnan a) && bool_decide (1 < length (sample_id self))%nat).
  - minv E0. apply lift_inv in E as [-> _].
    minv E0. apply alloc_inv in E as [-> ->].
    minv E0. apply load_vec_inv in E as [-> _].
    minv E0. apply lift_inv in E as [-> _].
    minv E0. apply for_range_scale_fresh in E as [a' ->].
    apply ret_inv in E0 as [_ ->]. eauto.
  - minv E0. apply lift_inv in E as [-> _].
    apply alloc_inv in E0 as [-> ->]. eauto.
Qed.
End Frame.

(** C10.  A call of [bulk_dist] that returns leaves every buffer of the heap
    it started from as it was and only adds one new buffer (the filtered
    copy that is scaled in place); the object has no attribute assigned.  In
    particular the arrays behind [dists], [min_depth], [max_depth] and
    [layer] are the same before and after. *)
Theorem bulk_dist_frame {F : Type} `{Arith F} (self : GSFile F)
    (h h' : heap F) (v : list F) :
  bulk_dist self h = Ok (v, h') →
  (∃ buf, h' = h ++ [buf])
  ∧ (∀ l, (l < length h)%nat → h' !! l = h !! l)
  ∧ h' !! dists self = h !! dists self
  ∧ h' !! min_depth self = h !! min_depth self
  ∧ h' !! layer self = h !! layer self
  ∧ ((max_depth self < length h)%nat →
     h' !! max_depth self = h !! max_depth self).
Proof.
  intros E. destruct (bulk_dist_new_buffer self h v h' E) as [buf ->].
  assert (Hold : ∀ l, (l < length h)%nat → (h ++ [buf]) !! l = h !! l).
  { intros l Hl. by apply lookup_app_l. }
  split; [eauto|]. split; [exact Hold|].
  unfold bulk_dist in E.
  minv E. apply load_vec_inv in E0 as [-> Hmin].
  minv E. apply load_vec_inv in E0 as [-> Hlay].
  minv E. apply load_mat_inv in E0 as [-> Hd].
  repeat split; try (apply Hold; by eapply lookup_lt_Some).
Qed.

Lemma bulk_dist_frame_witness :
  ∃ self h v h',
    init_tail (λ x, x) Sample.trench_header 2 Sample.trench_temp
      Sample.trench_heap = Ok (self, h)
    ∧ bulk_dist self h = Ok (v, h')
    ∧ (∃ buf, h' = h ++ [buf])
    ∧ (∀ l, (l < length h)%nat → h' !! l = h !! l)
    ∧ h' !! dists self = h !! dists self
    ∧ h' !! min_depth self = h !! min_depth self
    ∧ h' !! layer self = h !! layer self
    ∧ ((max_depth self < length h)%nat →
       h' !! max_depth self = h !! max_depth self).
Proof.
  eexists _, _, _, _. split; [vm_compute; reflexivity|].
  split; [vm_compute; reflexivity|].
  apply bulk_dist_frame with (v := [Sample.f 25; Sample.f 75]).
  vm_compute; reflexivity.
Defined.

(** ** The two entry points to the second moment *)

Section Moments.
Context {F : Type} `{Arith F}.
Variable np_sqrt : F → F.
Variable np_power : F → Z → F.
Implicit Types h : heap F.

Lemma setitem_inv {A} (a : list A) i x a' :
  setitem a i x = Ok a' → (i < length a)%nat ∧ a' = <[i:=x]> a.
Proof. unfold setitem. case_decide; intros E; by simplify_eq. Qed.

Lemma setitem_ok {A} (a : list A) i x :
  (i < length a)%nat → setitem a i x = Ok (<[i:=x]> a).
Proof. intros Hi. unfold setitem. by rewrite decide_True. Qed.

Lemma getitem_insert {A} (a : list A) i x :
  (i < length a)%nat → getitem (<[i:=x]> a) i = Ok x.
Proof. intros Hi. unfold getitem. by rewrite list_lookup_insert_eq. Qed.

(** Whether two arrays broadcast depends on their lengths only. *)
Lemma bcast2_shape f g (xs ys ys' : list F) r :
  bcast2 f xs ys = Ok r → length ys' = length ys →
  ∃ r', bcast2 g xs ys' = Ok r'.
Proof.
  unfold bcast2. intros E Hl. case_decide as Hd.
  - rewrite decide_True by congruence. eauto.
  - rewrite decide_False by congruence.
    destruct xs as [|x [|x' xs]]; destruct ys as [|y [|y' ys]];
      destruct ys' as [|z [|z' ys']]; simplify_eq/=; eauto.
Qed.

(** One iteration of the loop of [dist_moments] stores in [m2] what the
    iteration of [dist_stds] stores in [variances], and fails when it does. *)
Lemma moments_step_variance devs ii dist (v m3 m4 : list F) :
  length m3 = length v → length m4 = length v →
  match moments_body np_sqrt np_power devs (v, m3, m4) ii dist with
  | Ok (m2', m3', m4') =>
      stds_body np_power devs v ii dist = Ok m2'
      ∧ length m3' = length m2' ∧ length m4' = length m2'
  | Raise e => stds_body np_power devs v ii dist = Raise e
  end.
Proof.
  intros H3 H4. unfold moments_body, stds_body.
  destruct (getitem devs ii) as [d|e]; cbn [mbind res_bind]; [|done].
  destruct (bcast2 fmul dist (map (λ x, np_power x 2) d)) as [p2|e] eqn:Ep;
    cbn [mbind res_bind]; [|done].
  destruct (setitem v ii _) as [m2|e] eqn:Es; cbn [mbind res_bind]; [|done].
  apply setitem_inv in Es as [Hi ->].
  rewrite (getitem_insert v ii _ Hi). cbn [mbind res_bind].
  set (std := np_sqrt _).
  destruct (bcast2_shape _ fmul dist _ (map (λ x, np_power (fdiv x std) 3) d)
              _ Ep) as [p3 ->]; [by rewrite !length_map|].
  cbn [mbind res_bind]. rewrite (setitem_ok m3) by lia. cbn [mbind res_bind].
  destruct (bcast2_shape _ fmul dist _ (map (λ x, np_power (fdiv x std) 4) d)
              _ Ep) as [p4 ->]; [by rewrite !length_map|].
  cbn [mbind res_bind]. rewrite (setitem_ok m4) by lia.
  cbn [mbind res_bind mret res_ret]. rewrite !length_insert. done.
Qed.

Lemma moments_loop_variances devs columns : ∀ ii (v m3 m4 : list F),
  length m3 = length v → length m4 = length v →
  match for_enum (moments_body np_sqrt np_power devs) ii columns (v, m3, m4)
  with
  | Ok (m2, _, _) => for_enum (stds_body np_power devs) ii columns v = Ok m2
  | Raise e => for_enum (stds_body np_power devs) ii columns v = Raise e
  end.
Proof.
  induction columns as [|dist columns IH]; intros ii v m3 m4 H3 H4; [done|].
  cbn [for_enum].
  pose proof (moments_step_variance devs ii dist v m3 m4 H3 H4) as Hs.
  destruct (moments_body _ _ _ _ _ _) as [[[m2' m3'] m4']|e];
    cbn [mbind res_bind].
  - destruct Hs as (-> & H3' & H4'). cbn [mbind res_bind]. by apply IH.
  - by rewrite Hs.
Qed.

Lemma dist_stds_of_moments (self : GSFile F) h :
  match dist_moments np_sqrt np_power self h with
  | Ok ((_, m2, _, _), h') =>
      dist_stds np_sqrt np_power self h = Ok (map np_sqrt m2, h')
  | Raise e => dist_stds np_sqrt np_power self h = Raise e
  end.
Proof.
  unfold dist_moments, dist_stds. rewrite !run_bind.
  destruct (dist_devs self h) as [[[devs m1] h1]|e]; [|done].
  rewrite !run_bind. destruct (load_vec (mid_depth self) h1) as [[mid h2]|e];
    [|done].
  rewrite !run_bind. destruct (load_mat (dists self) h2) as [[[n cs] h3]|e];
    [|done].
  rewrite !run_bind, !run_lift.
  pose proof (moments_loop_variances devs cs 0 (zeros (length mid))
                (zeros (length mid)) (zeros (length mid)) eq_refl eq_refl) as L.
  destruct (for_enum (moments_body np_sqrt np_power devs) 0 cs _) as [[[m2 m3] m4]|e];
    rewrite L; reflexivity.
Qed.
End Moments.

(** C8.  Whenever [dist_moments] returns, [dist_stds] returns the
    element-wise square root of its variance component (and leaves the same
    heap); whenever [dist_moments] raises, [dist_stds] raises the same
    exception. *)
Theorem dist_stds_sqrt_variance {F : Type} `{Arith F} (np_sqrt : F → F)
    (np_power : F → Z → F) (self : GSFile F) (h : heap F) :
  match dist_moments np_sqrt np_power self h with
  | Ok ((_, variance, _, _), h') =>
      dist_stds np_sqrt np_power self h = Ok (map np_sqrt variance, h')
  | Raise e => dist_stds np_sqrt np_power self h = Raise e
  end.
Proof. apply dist_stds_of_moments. Qed.

(** Both are defined on the sample record (with [**] read as repeated
    multiplication). *)
Lemma dist_moments_defined :
  ∃ m, Sample.even (dist_moments B64.sqrt B64.powi) = Ok m
     ∧ Sample.even (dist_stds B64.sqrt B64.powi) = Ok (map B64.sqrt m.1.1.2).
Proof. eexists. split; vm_compute; reflexivity. Qed.

(** ** Means of the columns *)

Section Means.
Context {F : Type} `{Arith F}.
Implicit Types h : heap F.

Lemma means_step bpm (dist means : list F) ii :
  length dist = length bpm → (ii < length means)%nat →
  means_body (Some bpm) means ii dist = Ok (<[ii:=wmean bpm dist]> means).
Proof.
  intros Hd Hi. unfold means_body, times_bins. rewrite bcast2_same by done.
  cbn [mbind res_bind]. by rewrite setitem_ok.
Qed.

Lemma means_loop bpm columns : ∀ (pre : list F),
  Forall (λ c : list F, length c = length bpm) columns →
  for_enum (means_body (Some bpm)) (length pre) columns
    (pre ++ zeros (length columns))
  = Ok (pre ++ map (wmean bpm) columns).
Proof.
  induction columns as [|dist columns IH]; intros pre Hc; [done|].
  apply Forall_cons in Hc as [Hd Hc]. cbn [for_enum].
  rewrite means_step; [|done|rewrite length_app; simpl; lia].
  cbn [mbind res_bind].
  replace (<[length pre:=_]> _)
    with ((pre ++ [wmean bpm dist]) ++ zeros (length columns)); last first.
  { rewrite insert_app_r_alt by lia. rewrite Nat.sub_diag.
    by rewrite <- app_assoc. }
  replace (S (length pre)) with (length (pre ++ [wmean bpm dist]));
    last first.
  { rewrite length_app. simpl. lia. }
  rewrite IH by done. by rewrite <- app_assoc.
Qed.

(** On a record of consistent shape [dist_means] returns, and each entry is
    the weighted mean of its own column. *)
Lemma dist_means_run (self : GSFile F) h n columns l bpm mid :
  h !! dists self = Some (Mat n columns) →
  bins_phi_mid self = Some l → h !! l = Some (Vec bpm) →
  h !! mid_depth self = Some (Vec mid) →
  length mid = length columns →
  Forall (λ c : list F, length c = length bpm) columns →
  dist_means self h = Ok (map (wmean bpm) columns, h).
Proof.
  intros Hd Hl Hb Hm Hlen Hc. unfold dist_means.
  rewrite run_bind, (run_load_vec _ _ _ Hm).
  rewrite run_bind, (run_load_mat _ _ _ _ Hd).
  rewrite run_bind, Hl. unfold load_opt_vec.
  rewrite run_bind, (run_load_vec _ _ _ Hb), run_ret, run_lift.
  rewrite Hlen.
  pose proof (means_loop bpm columns [] Hc) as L.
  cbn [length app] in L. by rewrite L.
Qed.
End Means.

Section ZeroColumn.
Implicit Types x y : B64.float.

Lemma add_zero x y : B64.is_zero x → B64.is_zero y → B64.is_zero (B64.add x y).
Proof. by destruct x as [[]|[]| |]; destruct y as [[]|[]| |]. Qed.

Lemma add_zero_or_nan x y :
  B64.zero_or_nan x → B64.zero_or_nan y → B64.zero_or_nan (B64.add x y).
Proof. by destruct x as [[]|[]| |]; destruct y as [[]|[]| |]. Qed.

Lemma mul_zero_l x y : B64.is_zero x → B64.zero_or_nan (B64.mul x y).
Proof. by destruct x as [[]|[]| |]; destruct y as [[]|[]| |[]]. Qed.

Lemma div_by_zero_nan x y : B64.zero_or_nan x → B64.is_zero y → B64.div x y = S754_nan.
Proof. by destruct x as [[]|[]| |]; destruct y as [[]|[]| |]. Qed.

Lemma sum_zero (c : list B64.float) : ∀ acc,
  B64.is_zero acc → Forall (λ x, B64.is_zero x) c → B64.is_zero (fold_left B64.add c acc).
Proof.
  induction c as [|x c IH]; intros acc Ha Hc; [done|].
  apply Forall_cons in Hc as [Hx Hc]. simpl. apply IH; [|done].
  by apply add_zero.
Qed.

Lemma sum_zero_or_nan (c : list B64.float) : ∀ acc,
  B64.zero_or_nan acc → Forall (λ x, B64.zero_or_nan x) c →
  B64.zero_or_nan (fold_left B64.add c acc).
Proof.
  induction c as [|x c IH]; intros acc Ha Hc; [done|].
  apply Forall_cons in Hc as [Hx Hc]. simpl. apply IH; [|done].
  by apply add_zero_or_nan.
Qed.

Lemma products_zero_or_nan (c bpm : list B64.float) :
  Forall (λ x, B64.is_zero x) c →
  Forall (λ x, B64.zero_or_nan x) (zip_with B64.mul c bpm).
Proof.
  intros Hc. revert bpm. induction Hc as [|x c Hx Hc IH]; intros [|b bpm];
    simpl; try constructor; [by apply mul_zero_l|apply IH].
Qed.

(** The weighted mean of a column of zeros is NaN, whatever the bins. *)
Lemma wmean_zero_column (bpm c : list B64.float) :
  Forall (λ x, B64.is_zero x) c → wmean bpm c = S754_nan.
Proof.
  intros Hc. unfold wmean. apply div_by_zero_nan.
  - apply sum_zero_or_nan; [done|]. by apply products_zero_or_nan.
  - by apply sum_zero.
Qed.
End ZeroColumn.

(** C9 (as amended).  On a record of consistent shape with phi midpoints
    available, [dist_means] returns without raising, also when a column
    sums to zero; entry i of the result is the weighted mean of column i
    alone; and the entry of a column whose values are all zero is NaN. *)
Theorem dist_means_zero_column (self : GSFile B64.float)
    (h : heap B64.float) (n : nat) (columns : list (list B64.float))
    (l : loc) (bpm mid : list B64.float) :
  h !! dists self = Some (Mat n columns) →
  bins_phi_mid self = Some l → h !! l = Some (Vec bpm) →
  h !! mid_depth self = Some (Vec mid) →
  length mid = length columns →
  Forall (λ c : list B64.float, length c = length bpm) columns →
  ∃ means, dist_means self h = Ok (means, h)
    ∧ length means = length columns
    ∧ (∀ i, means !! i = wmean bpm <$> columns !! i)
    ∧ (∀ j c, columns !! j = Some c →
         Forall (λ x, B64.is_zero x) c → means !! j = Some S754_nan).
Proof.
  intros Hd Hl Hb Hm Hlen Hc. exists (map (wmean bpm) columns).
  split; [by eapply dist_means_run|]. split; [by rewrite length_map|].
  split.
  - intros i. by rewrite map_fmap, list_lookup_fmap.
  - intros j c Hj Hz. rewrite map_fmap, list_lookup_fmap, Hj.
    change (Some (wmean bpm c) = Some S754_nan).
    by rewrite wmean_zero_column.
Qed.

Lemma empty_record_constructed :
  init_tail (λ x, x) Sample.signed_header 2 Sample.empty_temp
    Sample.signed_heap = Ok (Sample.empty_record, Sample.empty_store).
Proof. vm_compute. reflexivity. Qed.

Lemma dist_means_zero_column_witness :
  ∃ means, dist_means Sample.empty_record Sample.empty_store
           = Ok (means, Sample.empty_store)
    ∧ length means = 2%nat
    ∧ (∀ i, means !! i
            = wmean [Sample.f 1; Sample.f 2]
                <$> [[Sample.f 0; Sample.f 0]; [Sample.f 1; Sample.f 3]] !! i)
    ∧ (∀ j c, [[Sample.f 0; Sample.f 0]; [Sample.f 1; Sample.f 3]] !! j
              = Some c →
         Forall (λ x, B64.is_zero x) c → means !! j = Some S754_nan).
Proof.
  apply (dist_means_zero_column Sample.empty_record Sample.empty_store 2
           [[Sample.f 0; Sample.f 0]; [Sample.f 1; Sample.f 3]] 4%nat
           [Sample.f 1; Sample.f 2] [B64.mk 1 (-1); B64.mk 3 (-1)]);
    try reflexivity.
  repeat constructor.
Defined.

(** C9, as stated, fails: the values 1 and -1 of the first sample sum to
    zero, and its entry is minus infinity, not NaN. *)
Lemma dist_means_zero_sum_infinite :
  np_sum (F:=B64.float) [Sample.f 1; Sample.f (-1)] = S754_zero false
  ∧ Sample.signed dist_means = Ok [S754_infinity true; B64.mk 7 (-2)]
  ∧ isnan (S754_infinity true) = false.
Proof. repeat split; vm_compute; reflexivity. Qed.

(** ** Labels of the layers *)

Section Labels.
Context {F : Type} `{Arith F}.
Variable np_log2 : F → F.
Implicit Types h : heap F.

Lemma lookup_label_eq tbl (x : F) :
  lookup_label tbl x
  = match label_of tbl x with Some s => Ok s | None => Raise KeyError end.
Proof.
  unfold lookup_label, label_of. destruct (as_int x) as [k|]; [|done].
  simpl. by destruct (tbl !! k).
Qed.

Lemma comprehension_ok {A B} (f : A → res B) xs ys :
  comprehension f xs = Ok ys → Forall2 (λ x y, f x = Ok y) xs ys.
Proof.
  revert ys. induction xs as [|x xs IH]; intros ys E; simpl in E.
  - simplify_eq. constructor.
  - destruct (f x) as [y|e] eqn:Ex; [|done]. cbn [mbind res_bind] in E.
    destruct (comprehension f xs) as [ys'|e]; [|done].
    cbn [mbind res_bind] in E. unfold mret, res_ret in E. simplify_eq.
    constructor; [done|by apply IH].
Qed.

Lemma comprehension_raise {A B} (f : A → res B) xs e :
  comprehension f xs = Raise e → Exists (λ x, f x = Raise e) xs.
Proof.
  induction xs as [|x xs IH]; intros E; simpl in E; [done|].
  destruct (f x) as [y|e'] eqn:Ex; cbn [mbind res_bind] in E.
  - destruct (comprehension f xs) as [ys'|e']; [done|].
    cbn [mbind res_bind] in E. simplify_eq. apply Exists_cons_tl. by apply IH.
  - simplify_eq. by apply Exists_cons_hd.
Qed.

Lemma comprehension_fails {A B} (f : A → res B) xs e :
  (∀ x e', f x = Raise e' → e' = e) →
  Exists (λ x, f x = Raise e) xs → comprehension f xs = Raise e.
Proof.
  intros Hf Hx. induction Hx as [x xs Hx|x xs Hx IH]; simpl.
  - by rewrite Hx.
  - destruct (f x) as [y|e'] eqn:Ex; cbn [mbind res_bind].
    + by rewrite IH.
    + by rewrite (Hf _ _ Ex).
Qed.

Lemma no_key_error_bind {A B} (m : M F A) (k : A → M F B) :
  no_key_error m → (∀ a, no_key_error (k a)) → no_key_error (m ≫= k).
Proof.
  intros Hm Hk h e. rewrite run_bind.
  destruct (m h) as [[a h1]|e'] eqn:E.
  - apply Hk.
  - intros ?; simplify_eq. by eapply Hm.
Qed.

Lemma no_key_error_ret {A} (a : A) : no_key_error (mret a : M F A).
Proof. intros h e. by rewrite run_ret. Qed.

Lemma no_key_error_alloc (a : ndarray F) : no_key_error (alloc a).
Proof. by intros h e. Qed.

Lemma no_key_error_lift {A} (r : res A) :
  r ≠ Raise KeyError → no_key_error (F:=F) (lift r).
Proof. intros Hr h e. rewrite run_lift. destruct r; naive_solver. Qed.

Lemma no_key_error_load_vec l : no_key_error (load_vec (F:=F) l).
Proof.
  intros h e. unfold_monad. destruct (h !! l) as [[?|??]|]; naive_solver.
Qed.

Lemma getitem_no_key_error {A} (a : list A) i : getitem a i ≠ Raise KeyError.
Proof. unfold getitem. by destruct (a !! i). Qed.

Lemma bcast2_no_key_error f (xs ys : list F) : bcast2 f xs ys ≠ Raise KeyError.
Proof.
  unfold bcast2. case_decide; [done|].
  by destruct xs as [|? [|??]], ys as [|? [|??]].
Qed.

Lemma phi_mid_of_no_key_error (phi : list F) : phi_mid_of phi ≠ Raise KeyError.
Proof.
  unfold phi_mid_of.
  destruct (getitem phi 0) as [p0|e] eqn:E0; cbn [mbind res_bind];
    [|intros ?; simplify_eq; by eapply getitem_no_key_error].
  destruct (getitem phi 1) as [p1|e] eqn:E1; cbn [mbind res_bind];
    [|intros ?; simplify_eq; by eapply getitem_no_key_error].
  destruct (bcast2 fsub _ _) as [d|e] eqn:E2; cbn [mbind res_bind];
    [|intros ?; simplify_eq; by eapply bcast2_no_key_error].
  destruct (bcast2 fadd _ _) as [m|e] eqn:E3; cbn [mbind res_bind];
    [done|intros ?; simplify_eq; by eapply bcast2_no_key_error].
Qed.

Lemma convert_bins_to_phi_no_key_error u k b :
  no_key_error (_convert_bins_to_phi np_log2 u k b).
Proof.
  unfold _convert_bins_to_phi.
  repeat case_decide; try destruct k;
    repeat first [apply no_key_error_ret | apply no_key_error_alloc
                 | apply no_key_error_load_vec
                 | apply no_key_error_bind; [|intros ?]].
Qed.

Lemma convert_bins_to_phi_mid_no_key_error u b p :
  no_key_error (_convert_bins_to_phi_mid u b p).
Proof.
  unfold _convert_bins_to_phi_mid. case_decide; [apply no_key_error_ret|].
  destruct p; [|apply no_key_error_ret].
  repeat first [apply no_key_error_ret | apply no_key_error_alloc
               | apply no_key_error_load_vec
               | apply no_key_error_lift, phi_mid_of_no_key_error
               | apply no_key_error_bind; [|intros ?]].
Qed.

(** The labels of a constructed record, and when construction fails on
    them. *)
Lemma init_tail_labels (a : Header F) n temp h codes :
  h !! h_layer_type a = Some (Vec codes) →
  (∀ self h', init_tail np_log2 a n temp h = Ok (self, h') →
     layer_type self = h_layer_type a ∧ layer self = h_layer a
     ∧ Forall2 (λ x s, label_of (h_layer_type_lookup a) x = Some s)
               codes (layer_type_strings self))
  ∧ (init_tail np_log2 a n temp h = Raise KeyError
     ↔ Exists (λ x, label_of (h_layer_type_lookup a) x = None) codes).
Proof.
  intros Hc. unfold init_tail.
  rewrite run_bind, (run_load_vec _ _ _ Hc), run_bind, run_lift.
  set (tbl := h_layer_type_lookup a).
  destruct (comprehension (lookup_label tbl) codes) as [strings|e] eqn:Es.
  - apply comprehension_ok in Es. split.
    + intros self h' E. repeat minv E. apply ret_inv in E as [-> _]. simpl.
      split; [done|]. split; [done|].
      eapply Forall2_impl; [exact Es|]. intros x s. cbv beta.
      rewrite lookup_label_eq.
      by destruct (label_of tbl x); intros ?; simplify_eq.
    + split.
      * intros E. exfalso. revert E.
        match goal with |- ?m h = _ → _ =>
          assert (no_key_error m) as Hn; [|intros E; by eapply Hn] end.
        repeat first
          [ apply no_key_error_ret | apply no_key_error_alloc
          | apply no_key_error_load_vec
          | apply convert_bins_to_phi_no_key_error
          | apply convert_bins_to_phi_mid_no_key_error
          | apply no_key_error_lift, getitem_no_key_error
          | apply no_key_error_lift, bcast2_no_key_error
          | apply no_key_error_bind; [|intros ?] ].
      * intros Hx. exfalso. apply Exists_exists in Hx as (x & Hx & Hn).
        apply list_elem_of_lookup in Hx as [i Hi].
        destruct (Forall2_lookup_l _ _ _ _ _ Es Hi) as (s & _ & Hs).
        rewrite lookup_label_eq, Hn in Hs. done.
  - split; [done|]. split.
    + intros E. simplify_eq. apply comprehension_raise in Es.
      eapply Exists_impl; [exact Es|]. intros x. cbv beta.
      rewrite lookup_label_eq.
      by destruct (label_of tbl x).
    + intros Hx. f_equal.
      assert (comprehension (lookup_label tbl) codes = Raise KeyError) as Ek.
      { apply comprehension_fails.
        - intros x e'. rewrite lookup_label_eq.
          destruct (label_of tbl x); intros ?; by simplify_eq.
        - eapply Exists_impl; [exact Hx|]. intros x Hn. cbv beta.
          by rewrite lookup_label_eq, Hn. }
      congruence.
Qed.
End Labels.

(** C3 (as amended).  The labels of a constructed record are looked up from
    its per-sample field [layer_type] (the row 'Layer Type'), which is not
    the field [layer] that the statistics filter on:
    layer_type_strings[i] = layerLookup[layer_type[i]] for every sample i,
    and construction fails with a [KeyError] exactly when some element of
    [layer_type] has no entry in the lookup table. *)
Theorem labels_from_layer_type {F : Type} `{Arith F} (np_log2 : F → F)
    (a : Header F) (n : nat) (temp : list (list F)) (h : heap F)
    (codes : list F) :
  h !! h_layer_type a = Some (Vec codes) →
  (∀ self h', init_tail np_log2 a n temp h = Ok (self, h') →
     layer_type self = h_layer_type a
     ∧ length (layer_type_strings self) = length codes
     ∧ ∀ i x, codes !! i = Some x →
         ∃ s, label_of (h_layer_type_lookup a) x = Some s
            ∧ layer_type_strings self !! i = Some s)
  ∧ (init_tail np_log2 a n temp h = Raise KeyError
     ↔ Exists (λ x, label_of (h_layer_type_lookup a) x = None) codes).
Proof.
  intros Hc.
  destruct (init_tail_labels np_log2 a n temp h codes Hc) as [Hok Hfail].
  split; [|exact Hfail]. intros self h' E.
  destruct (Hok self h' E) as (Hlt & _ & Hall).
  split; [done|]. split; [symmetry; by eapply Forall2_length|].
  intros i x Hi. destruct (Forall2_lookup_l _ _ _ _ _ Hall Hi) as (s & ? & ?).
  eauto.
Qed.

Lemma labels_from_layer_type_witness :
  (∀ self h',
     init_tail (λ x, x) Sample.trench_header 2 Sample.trench_temp
       Sample.trench_heap = Ok (self, h') →
     layer_type self = 0%nat
     ∧ length (layer_type_strings self) = 3%nat
     ∧ ∀ i x, [Sample.f 0; Sample.f 3; Sample.f 3] !! i = Some x →
         ∃ s, label_of default_layer_type_lookup x = Some s
            ∧ layer_type_strings self !! i = Some s)
  ∧ (init_tail (λ x, x) Sample.trench_header 2 Sample.trench_temp
       Sample.trench_heap = Raise KeyError
     ↔ Exists (λ x, label_of default_layer_type_lookup x = None)
              [Sample.f 0; Sample.f 3; Sample.f 3]).
Proof.
  apply (labels_from_layer_type (λ x, x) Sample.trench_header 2
           Sample.trench_temp Sample.trench_heap
           [Sample.f 0; Sample.f 3; Sample.f 3]).
  reflexivity.
Defined.

(** C3, as stated, fails: the second sample of the record has layer code 1,
    whose entry is 'Suspension graded', and label 'Normal graded', the entry
    of its layer type 3. *)
Lemma labels_not_from_layer :
  ∃ self h,
    init_tail (λ x, x) Sample.trench_header 2 Sample.trench_temp
      Sample.trench_heap = Ok (self, h)
    ∧ h !! layer self = Some (Vec [Sample.f 0; Sample.f 1; Sample.f 1])
    ∧ h !! layer_type self = Some (Vec [Sample.f 0; Sample.f 3; Sample.f 3])
    ∧ layer_type_strings self !! 1%nat = Some "Normal graded"
    ∧ label_of default_layer_type_lookup (Sample.f 1)
      = Some "Suspension graded".
Proof. eexists _, _. repeat split; vm_compute; reflexivity. Qed.

(** ** 4.4 Depth edges *)

Section Edges.
Context {F : Type} `{Arith F}.
Implicit Types h : heap F.

Lemma select_length {A} (a : list A) : ∀ mask,
  length a = length mask →
  length (select a mask) = length (List.filter (λ b : bool, b) mask).
Proof.
  induction a as [|x a IH]; intros [|b mask] Hl; simplify_eq/=; [done|].
  destruct b; simpl; by rewrite IH.
Qed.

Lemma edges_body_length (depths depths' : list F) ii nx :
  edges_body depths ii nx = Ok depths' → length depths' = length depths.
Proof.
  unfold edges_body. destruct nx as [n x].
  destruct (feqb n x); intros E; apply setitem_inv in E as [_ ->];
    by rewrite length_insert.
Qed.

Lemma edges_loop_length pairs : ∀ ii (depths depths' : list F),
  for_enum edges_body ii pairs depths = Ok depths' →
  length depths' = length depths.
Proof.
  induction pairs as [|nx pairs IH]; intros ii depths depths' E;
    cbn [for_enum] in E; [by simplify_eq|].
  destruct (edges_body depths ii nx) as [d1|e] eqn:E1;
    cbn [mbind res_bind] in E; [|done].
  apply IH in E. apply edges_body_length in E1. congruence.
Qed.

Lemma mask_index_inv {A} (a : list A) mask r :
  mask_index a mask = Ok r → length a = length mask ∧ r = select a mask.
Proof. unfold mask_index. case_decide; intros E; by simplify_eq. Qed.

Lemma set_last_inv {A} (a : list A) x a' :
  set_last a x = Ok a' → length a' = length a.
Proof.
  unfold set_last. destruct (length a) eqn:El; intros E; simplify_eq.
  by rewrite length_insert.
Qed.

(** The number of edges returned: one more than the number of qualifying
    samples when all inner boundaries match, one more than the number of
    all samples otherwise. *)
Lemma depth_edges_length (self : GSFile F) (min_layer : Z) h mind maxd lay
    edges h' :
  h !! min_depth self = Some (Vec mind) →
  h !! max_depth self = Some (Vec maxd) →
  h !! layer self = Some (Vec lay) →
  _get_depth_bin_edges self min_layer h = Ok (edges, h') →
  let mask := layer_gt min_layer lay in
  length edges
  = if array_equal (from1 (select mind mask)) (but_last (select maxd mask))
    then S (length (select mind mask))
    else S (length mind).
Proof.
  intros Hmin Hmax Hlay E mask. unfold _get_depth_bin_edges in E.
  rewrite run_bind, (run_load_vec _ _ _ Hmin) in E.
  rewrite run_bind, (run_load_vec _ _ _ Hmax) in E.
  rewrite run_bind, (run_load_vec _ _ _ Hlay) in E.
  minv E. apply lift_inv in E0 as [-> E0].
  apply mask_index_inv in E0 as [_ ->].
  minv E. apply lift_inv in E0 as [-> E0].
  apply mask_index_inv in E0 as [_ ->].
  apply lift_inv in E as [_ E]. fold mask in E.
  destruct (array_equal _ _).
  - destruct (getlast _) as [e|e]; cbn [mbind res_bind] in E; [|done].
    unfold mret, res_ret in E. simplify_eq. rewrite length_app. simpl. lia.
  - destruct (getitem _ 0) as [d0|e]; cbn [mbind res_bind] in E; [|done].
    destruct (setitem _ 0 d0) as [d1|e] eqn:E1; cbn [mbind res_bind] in E;
      [|done].
    destruct (getlast _) as [e|e]; cbn [mbind res_bind] in E; [|done].
    destruct (set_last d1 e) as [d2|e'] eqn:E2; cbn [mbind res_bind] in E;
      [|done].
    apply edges_loop_length in E. apply set_last_inv in E2.
    apply setitem_inv in E1 as [_ ->]. rewrite length_insert in E2.
    unfold zeros in E2. rewrite length_replicate in E2. lia.
Qed.
End Edges.

(** C2 at a failing input.  Depths 0-1, 1-2 and 2.5-3.5 with layer codes
    0, 1, 1 and threshold 0: K = 2 samples qualify and the boundary between
    them does not match (2 against 2.5).  The call returns the four edges
    1, 2.25, 0, 3.5 (one more than the number of all samples, with a zero
    left in) where K + 1 = 3 edges, 1, 2.25 and 3.5, are specified. *)
Theorem depth_edges_gap_branch :
  qualifying_count 0 [Sample.f 0; Sample.f 1; Sample.f 1] = 2%nat
  ∧ Sample.gapped (λ self, _get_depth_bin_edges self 0)
    = Ok [Sample.f 1; B64.mk 9 (-2); Sample.f 0; B64.mk 7 (-1)].
Proof. split; vm_compute; reflexivity. Qed.

(** With every sample qualifying, the same depths give the edges of the
    docstring. *)
Lemma depth_edges_docstring :
  Sample.gapped (λ self, _get_depth_bin_edges self (-2))
  = Ok [Sample.f 0; Sample.f 1; B64.mk 9 (-2); B64.mk 7 (-1)].
Proof. vm_compute. reflexivity. Qed.

(** ** The bulk mean over a range of phi *)

Section Range.
Context {F : Type} `{Arith F}.
Implicit Types h : heap F.

Lemma mask_index_ok {A} (a : list A) mask :
  length a = length mask → mask_index a mask = Ok (select a mask).
Proof. intros E. unfold mask_index. by rewrite decide_True. Qed.

Lemma select_same_length {A B} (a : list A) (b : list B) : ∀ mask,
  length a = length b → length (select a mask) = length (select b mask).
Proof.
  revert b. induction a as [|x a IH]; intros [|y b] mask Hl; simplify_eq/=.
  - by destruct mask.
  - destruct mask as [|[] mask]; simpl; auto.
Qed.

Lemma range_mask (g0 g1 : F) (bpm : list F) :
  zip_with andb (map (λ m, fleb m g0) bpm) (map (λ m, fleb g1 m) bpm)
  = map (λ m, fleb m g0 && fleb g1 m) bpm.
Proof. induction bpm as [|m bpm IH]; simpl; by rewrite ?IH. Qed.

(** The mean over a range: the bins kept are those whose midpoint m has
    gs_min_max[1] <= m <= gs_min_max[0]. *)
Lemma bulk_mean_range_run (self : GSFile F) h l bpm g0 g1 dist h1 :
  bins_phi_mid self = Some l → h !! l = Some (Vec bpm) →
  bulk_dist self h = Ok (dist, h1) → length dist = length bpm →
  let mask := map (λ m, fleb m g0 && fleb g1 m) bpm in
  bulk_mean self (Some (g0, g1)) h
  = Ok (wmean (select bpm mask) (select dist mask), h1).
Proof.
  intros Hl Hb Hd Hlen mask. unfold bulk_mean. rewrite Hl.
  rewrite run_bind, Hd.
  destruct (bulk_dist_new_buffer self h dist h1 Hd) as [buf ->].
  assert (Hb' : (h ++ [buf]) !! l = Some (Vec bpm)).
  { rewrite lookup_app_l; [done|]. by eapply lookup_lt_Some. }
  rewrite run_bind, (run_load_vec _ _ _ Hb'), run_bind, run_lift.
  rewrite range_mask. fold mask.
  assert (Hm : length mask = length bpm) by (unfold mask; by rewrite length_map).
  rewrite (mask_index_ok dist) by congruence. cbn [mbind res_bind].
  rewrite (mask_index_ok bpm) by congruence.
  cbn [mbind res_bind mret res_ret].
  rewrite run_bind, run_lift, bcast2_same
    by (by apply select_same_length).
  reflexivity.
Qed.

Lemma select_none {A} (a : list A) : ∀ mask,
  Forall (λ b : bool, b = false) mask → select a mask = [].
Proof.
  induction a as [|x a IH]; intros mask Hm; [done|].
  destruct Hm as [|b mask -> Hm]; simpl; auto.
Qed.
End Range.

Lemma even_record_constructed :
  init_tail (λ x, x) Sample.even_header 3 Sample.even_temp Sample.even_heap
  = Ok (Sample.even_record, Sample.even_store).
Proof. vm_compute. reflexivity. Qed.

(** C4 (as amended).  With phi midpoints available, [bulk_mean] with the
    range argument (g0, g1) restricts the computation to exactly the bins
    whose midpoint m satisfies g1 <= m <= g0, both bounds inclusive: the
    first element of the argument is the upper bound in phi (the minimum
    grain size), the second the lower bound.  When no bin is kept the result
    is 0/0, not-a-number. *)
Theorem bulk_mean_range (self : GSFile B64.float) (h h1 : heap B64.float)
    (l : loc) (bpm dist : list B64.float) (g0 g1 : B64.float) :
  bins_phi_mid self = Some l → h !! l = Some (Vec bpm) →
  bulk_dist self h = Ok (dist, h1) → length dist = length bpm →
  let mask := map (λ m, SFleb m g0 && SFleb g1 m) bpm in
  bulk_mean self (Some (g0, g1)) h
  = Ok (wmean (select bpm mask) (select dist mask), h1)
  ∧ (Forall (λ b : bool, b = false) mask →
     bulk_mean self (Some (g0, g1)) h = Ok (S754_nan, h1)).
Proof.
  intros Hl Hb Hd Hlen mask.
  pose proof (bulk_mean_range_run self h l bpm g0 g1 dist h1 Hl Hb Hd Hlen)
    as Hrun.
  split; [exact Hrun|]. intros Hnone. rewrite Hrun.
  change (map _ bpm) with mask. by rewrite !select_none.
Qed.

Lemma bulk_mean_range_witness :
  ∃ dist h1,
    bulk_dist Sample.even_record Sample.even_store = Ok (dist, h1)
    ∧ let g0 := B64.mk 5 (-1) in
      let g1 := B64.mk 3 (-1) in
      let bpm := [Sample.f 1; Sample.f 2; Sample.f 3] in
      let mask := map (λ m, SFleb m g0 && SFleb g1 m) bpm in
      bulk_mean Sample.even_record (Some (g0, g1)) Sample.even_store
      = Ok (wmean (select bpm mask) (select dist mask), h1)
      ∧ (Forall (λ b : bool, b = false) mask →
         bulk_mean Sample.even_record (Some (g0, g1)) Sample.even_store
         = Ok (S754_nan, h1)).
Proof.
  eexists _, _. split; [vm_compute; reflexivity|].
  apply (bulk_mean_range Sample.even_record Sample.even_store _ 4%nat
           [Sample.f 1; Sample.f 2; Sample.f 3]);
    reflexivity.
Defined.

(** C4, as stated, fails: on midpoints 1, 2, 3 the range [1.5, 2.5] holds
    the middle bin, over which the mean is 2; [bulk_mean] with that argument
    keeps no bin and returns NaN, and returns 2 when given (2.5, 1.5). *)
Lemma bulk_mean_range_low_high :
  ∃ dist, Sample.even bulk_dist = Ok dist
    ∧ bulk_mean_spec dist [Sample.f 1; Sample.f 2; Sample.f 3]
        (B64.mk 3 (-1)) (B64.mk 5 (-1)) = Sample.f 2
    ∧ Sample.even (λ self, bulk_mean self (Some (B64.mk 3 (-1), B64.mk 5 (-1))))
      = Ok S754_nan
    ∧ Sample.even (λ self, bulk_mean self (Some (B64.mk 5 (-1), B64.mk 3 (-1))))
      = Ok (Sample.f 2).
Proof. eexists. repeat split; vm_compute; reflexivity. Qed.

(** ** The bulk distribution *)

Section Bulk.
Context {F : Type} `{Arith F}.
Implicit Types h : heap F.

Lemma getitem_ok {A} (a : list A) i x : a !! i = Some x → getitem a i = Ok x.
Proof. intros E. unfold getitem. by rewrite E. Qed.

Lemma lookup_fresh (h : heap F) (a : ndarray F) :
  (h ++ [a]) !! length h = Some a.
Proof. by rewrite list_lookup_middle. Qed.

Lemma store_fresh (a b : ndarray F) h :
  store (length h) b (h ++ [a]) = Ok ((), h ++ [b]).
Proof.
  unfold store. rewrite decide_True by (rewrite length_app; simpl; lia).
  rewrite insert_app_r_alt by lia. by rewrite Nat.sub_diag.
Qed.

Lemma scale_column_run h n (pre todo : list (list F)) c diffs total w :
  diffs !! length pre = Some w →
  scale_column (length h) diffs total (length pre)
    (h ++ [Mat n (pre ++ c :: todo)])
  = Ok ((), h ++ [Mat n ((pre ++ [scale total c w]) ++ todo)]).
Proof.
  intros Hw. unfold scale_column.
  rewrite run_bind, (run_load_mat _ _ _ _ (lookup_fresh h _)).
  rewrite run_bind, run_lift, (getitem_ok _ _ c)
    by (by rewrite list_lookup_middle).
  rewrite run_bind, run_lift, (getitem_ok _ _ _ Hw).
  rewrite store_fresh. do 3 f_equal.
  rewrite insert_app_r_alt by lia. rewrite Nat.sub_diag. simpl.
  by rewrite <- app_assoc.
Qed.

Lemma scale_loop h n diffs total (todo : list (list F)) : ∀ pre,
  (length pre + length todo ≤ length diffs)%nat →
  for_range (scale_column (length h) diffs total) (length pre) (length todo)
    (h ++ [Mat n (pre ++ todo)])
  = Ok ((), h ++ [Mat n (pre ++ zip_with (scale total) todo
                                   (drop (length pre) diffs))]).
Proof.
  induction todo as [|c todo IH]; intros pre Hlen; [done|].
  simpl in Hlen.
  destruct (lookup_lt_is_Some_2 diffs (length pre)) as [w Hw]; [lia|].
  cbn [length for_range]. rewrite run_bind, (scale_column_run _ _ _ _ _ _ _ w Hw).
  replace (S (length pre)) with (length (pre ++ [scale total c w]))
    by (rewrite length_app; simpl; lia).
  rewrite IH by (rewrite length_app; simpl; lia).
  rewrite (drop_S _ _ _ Hw). simpl. rewrite length_app. simpl.
  rewrite <- app_assoc. simpl.
  by replace (length pre + 1)%nat with (S (length pre)) by lia.
Qed.

Lemma diffs_run (mind : list F) (maxd : list F) : ∀ k,
  (k + length maxd ≤ length mind)%nat →
  comprehension (λ '(ii, x), m ← getitem mind ii; mret (fsub x m))
    (imap (λ i x, ((k + i)%nat, x)) maxd)
  = Ok (zip_with fsub maxd (drop k mind)).
Proof.
  induction maxd as [|x maxd IH]; intros k Hk; simpl in *.
  - by destruct (drop k mind).
  - destruct (lookup_lt_is_Some_2 mind k) as [m Hm]; [lia|].
    rewrite Nat.add_0_r, (getitem_ok _ _ _ Hm). cbn [mbind res_bind].
    unfold mret at 1, res_ret. cbn [mbind res_bind].
    rewrite (imap_ext _ (λ i x, ((S k + i)%nat, x))); last first.
    { intros i y _. simpl. f_equal. lia. }
    rewrite IH by lia. cbn [mbind res_bind]. unfold mret, res_ret.
    by rewrite (drop_S _ _ _ Hm).
Qed.

(** What [bulk_dist] computes on the weighted path: column j of the
    filtered matrix is scaled by entry j of the thicknesses of all
    samples. *)
Lemma bulk_dist_weighted_run (self : GSFile F) h mind maxd lay n columns :
  h !! min_depth self = Some (Vec mind) →
  h !! max_depth self = Some (Vec maxd) →
  h !! layer self = Some (Vec lay) →
  h !! dists self = Some (Mat n columns) →
  length lay = length columns →
  length maxd = length columns → length mind = length columns →
  existsb isnan mind = false → (1 < length (sample_id self))%nat →
  let diffs := zip_with fsub maxd mind in
  let total := fold_left fadd diffs (of_Z 0) in
  let weighted :=
    zip_with (scale total) (select columns (layer_gt 0 lay)) diffs in
  bulk_dist self h = Ok (rescale (nanmean n weighted), h ++ [Mat n weighted]).
Proof.
  intros Hmin Hmax Hlay Hd Hl Hmaxl Hminl Hnan Hids diffs total weighted.
  unfold bulk_dist.
  rewrite run_bind, (run_load_vec _ _ _ Hmin).
  rewrite run_bind, (run_load_vec _ _ _ Hlay).
  rewrite run_bind, (run_load_mat _ _ _ _ Hd).
  rewrite Hnan, bool_decide_eq_true_2 by done. cbn [negb andb].
  rewrite !run_bind, run_lift, mask_index_ok
    by (unfold layer_gt; rewrite length_map; congruence).
  unfold alloc at 1. cbv beta iota.
  set (sel := select columns (layer_gt 0 lay)).
  assert (Hmax' : (h ++ [Mat n sel]) !! max_depth self = Some (Vec maxd)).
  { rewrite lookup_app_l; [done|]. by eapply lookup_lt_Some. }
  rewrite !run_bind, (run_load_vec _ _ _ Hmax'). cbv beta iota.
  rewrite !run_bind, run_lift.
  pose proof (diffs_run mind maxd 0 ltac:(simpl; lia)) as Hdiffs.
  rewrite drop_0 in Hdiffs. cbn [Nat.add] in Hdiffs.
  change (imap (λ i x, (i, x)) maxd) with (imap pair maxd) in Hdiffs.
  rewrite Hdiffs. cbv beta iota. fold diffs. fold total.
  assert (Hsel : (length sel ≤ length diffs)%nat).
  { unfold diffs. rewrite length_zip_with.
    assert (length sel ≤ length columns)%nat; [|lia].
    unfold sel. rewrite select_length
      by (unfold layer_gt; rewrite length_map; congruence).
    etrans; [apply List.filter_length_le|].
    unfold layer_gt. rewrite length_map. lia. }
  pose proof (scale_loop h n diffs total sel [] ltac:(simpl; lia)) as Hloop.
  rewrite drop_0 in Hloop. cbn [length app] in Hloop.
  rewrite !run_bind, Hloop. cbv beta iota.
  rewrite run_ret. cbv beta iota. fold weighted.
  rewrite run_bind, (run_load_mat _ _ _ _ (lookup_fresh h _)).
  reflexivity.
Qed.

(** ... and on the other path. *)
Lemma bulk_dist_unweighted_run (self : GSFile F) h mind lay n columns :
  h !! min_depth self = Some (Vec mind) →
  h !! layer self = Some (Vec lay) →
  h !! dists self = Some (Mat n columns) →
  length lay = length columns →
  existsb isnan mind = true ∨ (length (sample_id self) ≤ 1)%nat →
  let sel := select columns (layer_gt 0 lay) in
  bulk_dist self h = Ok (rescale (nanmean n sel), h ++ [Mat n sel]).
Proof.
  intros Hmin Hlay Hd Hl Hguard sel. unfold bulk_dist.
  rewrite run_bind, (run_load_vec _ _ _ Hmin).
  rewrite run_bind, (run_load_vec _ _ _ Hlay).
  rewrite run_bind, (run_load_mat _ _ _ _ Hd).
  assert (negb (existsb isnan mind)
          && bool_decide (1 < length (sample_id self))%nat = false) as ->.
  { destruct Hguard as [->|Hn]; [done|].
    rewrite bool_decide_eq_false_2 by lia. apply andb_false_r. }
  rewrite !run_bind, run_lift, mask_index_ok
    by (unfold layer_gt; rewrite length_map; congruence).
  unfold alloc. cbv beta iota. fold sel.
  rewrite run_bind, (run_load_mat _ _ _ _ (lookup_fresh h _)).
  reflexivity.
Qed.

Lemma select_all {A} (a : list A) : ∀ mask,
  length a = length mask → Forall (λ b : bool, b = true) mask →
  select a mask = a.
Proof.
  induction a as [|x a IH]; intros [|b mask] Hl Hm; simplify_eq/=; [done|].
  apply Forall_cons in Hm as [-> Hm]. by rewrite IH.
Qed.

End Bulk.

Section ExactSum.
Import Exact.
Implicit Types x y : xreal.
Local Open Scope Q_scope.































End ExactSum.

(** When every sample qualifies the columns and the thicknesses are aligned:
    each sample is weighted by its own thickness over the total. *)
Lemma bulk_dist_all_qualify {F : Type} `{Arith F} (self : GSFile F)
    (h : heap F) (mind maxd lay : list F) (n : nat)
    (columns : list (list F)) :
  h !! min_depth self = Some (Vec mind) →
  h !! max_depth self = Some (Vec maxd) →
  h !! layer self = Some (Vec lay) →
  h !! dists self = Some (Mat n columns) →
  length lay = length columns →
  length maxd = length columns → length mind = length columns →
  existsb isnan mind = false → (1 < length (sample_id self))%nat →
  Forall (λ b : bool, b = true) (layer_gt 0 lay) →
  let diffs := zip_with fsub maxd mind in
  let total := fold_left fadd diffs (of_Z 0) in
  let weighted := zip_with (scale total) columns diffs in
  bulk_dist self h = Ok (rescale (nanmean n weighted), h ++ [Mat n weighted]).
Proof.
  intros Hmin Hmax Hlay Hd Hl Hmaxl Hminl Hnan Hids Hall.
  pose proof (bulk_dist_weighted_run self h mind maxd lay n columns
                Hmin Hmax Hlay Hd Hl Hmaxl Hminl Hnan Hids) as Hrun.
  rewrite select_all in Hrun; [exact Hrun| |exact Hall].
  unfold layer_gt. rewrite length_map. congruence.
Qed.

(** C1 at a failing input.  Three samples of thickness 1, 3 and 12, the
    first with layer code 0; the second lies in the first bin, the third in
    the second.  Weighted by their own thicknesses 3 and 12 the two
    qualifying samples give 20 and 80 percent.  [bulk_dist] scales the two
    filtered columns by the first two thicknesses of all samples, 1 and 3,
    and returns 25 and 75 percent. *)
Theorem bulk_dist_misaligned_weights :
  Sample.trench bulk_dist = Ok [Sample.f 25; Sample.f 75]
  ∧ bulk_dist_spec (F:=B64.float)
      [Sample.f 0; Sample.f 1; Sample.f 4]
      [Sample.f 1; Sample.f 4; Sample.f 16]
      [Sample.f 0; Sample.f 1; Sample.f 1]
      2 [[Sample.f 5; Sample.f 5]; [Sample.f 1; Sample.f 0];
         [Sample.f 0; Sample.f 1]]
    = [Sample.f 20; Sample.f 80].
Proof. split; vm_compute; reflexivity. Qed.

Lemma two_record_constructed_b64 (top bottom : B64.float) :
  init_tail (λ x, x) two_header 2 two_temp (two_heap top bottom)
  = Ok (two_record, two_store top bottom).
Proof. reflexivity. Qed.

Lemma two_record_constructed_exact (top bottom : Exact.xreal) :
  init_tail (λ x, x) two_header 2 two_temp (two_heap top bottom)
  = Ok (two_record, two_store top bottom).
Proof. reflexivity. Qed.




(** In binary64 the conditions of C6 as amended are not enough.  A single
    sample with the values 2^1018 in two bins has total weight 2^1019, but
    100 times a value overflows and both entries of the result are
    infinite.  Two samples of thickness 1 with the smallest positive number
    2^-1074 in one bin each are scaled to zero, and every entry of the
    result is NaN. *)
Lemma bulk_dist_binary64_range :
  let big := B64.mk 1 1018 in
  let tiny := B64.mk 1 (-1074) in
  let one : GSFile B64.float :=
    {| bin_units := "phi mid"; mm_pix := None;
       layer_type_lookup := default_layer_type_lookup;
       sample_id := ["a"];
       layer_type := 0%nat; layer := 1%nat;
       min_depth := 2%nat; max_depth := 3%nat;
       layer_type_strings := ["Suspension graded"];
       bins := 4%nat; bins_phi := None; bins_phi_mid := Some 4%nat;
       dists := 5%nat; mid_depth := 6%nat |} in
  let one_store : heap B64.float :=
    [Vec [Sample.f 1]; Vec [Sample.f 1]; Vec [Sample.f 0]; Vec [Sample.f 2];
     Vec [Sample.f 1; Sample.f 2]; Mat 2 [[big; big]]; Vec [Sample.f 1]] in
  let two_tiny : heap B64.float :=
    [Vec [Sample.f 1; Sample.f 1]; Vec [Sample.f 1; Sample.f 1];
     Vec [Sample.f 0; Sample.f 1]; Vec [Sample.f 1; Sample.f 2];
     Vec [Sample.f 1; Sample.f 2];
     Mat 2 [[tiny; Sample.f 0]; [Sample.f 0; tiny]];
     Vec [B64.mk 1 (-1); B64.mk 3 (-1)]] in
  np_sum [big; big] = B64.mk 1 1019
  ∧ eval (bulk_dist one) one_store
    = Ok [S754_infinity false; S754_infinity false]
  ∧ np_sum [tiny; Sample.f 0] = tiny
  ∧ SFltb (Sample.f 0) tiny = true
  ∧ eval (bulk_dist two_record) two_tiny = Ok [S754_nan; S754_nan].
Proof. repeat split; vm_compute; reflexivity. Qed.

(** ** The sample records are constructed *)

Lemma buried_record_constructed :
  init_tail (λ x, x) Fixture.buried_header 2 Fixture.buried_temp
    Fixture.buried_heap = Ok (Fixture.buried_record, Fixture.buried_store).
Proof. vm_compute. reflexivity. Qed.

Lemma gapped_record_constructed :
  init_tail (λ x, x) Sample.gapped_header 1 Sample.gapped_temp
    Sample.gapped_heap = Ok (Fixture.gapped_record, Fixture.gapped_store).
Proof. vm_compute. reflexivity. Qed.

Lemma psi_record_constructed :
  init_tail (λ x, x) Sample.psi_header 1 Sample.psi_temp Sample.psi_heap
  = Ok (Fixture.psi_record, Fixture.psi_store).
Proof. vm_compute. reflexivity. Qed.

(** ** The per-sample statistics in closed form *)

Section MomentsClosed.
Context {F : Type} `{Arith F}.
Variable np_sqrt : F → F.
Variable np_power : F → Z → F.
Implicit Types h : heap F.

Lemma dist_means_none (self : GSFile F) h n c columns mid :
  bins_phi_mid self = None →
  h !! dists self = Some (Mat n (c :: columns)) →
  h !! mid_depth self = Some (Vec mid) →
  dist_means self h = Raise TypeError.
Proof.
  intros Hn Hd Hm. unfold dist_means.
  rewrite run_bind, (run_load_vec _ _ _ Hm).
  rewrite run_bind, (run_load_mat _ _ _ _ Hd).
  rewrite Hn. reflexivity.
Qed.

Lemma set_column_ok n (devs : list (list F)) ii v :
  (ii < length devs)%nat → length v = n →
  set_column n devs ii v = Ok (<[ii:=v]> devs).
Proof.
  intros Hi Hv. unfold set_column. by rewrite !decide_True.
Qed.

Lemma devs_step n bpm (devs : list (list F)) ii m :
  (ii < length devs)%nat → length bpm = n →
  devs_body n (Some bpm) devs ii m = Ok (<[ii:=deviations bpm m]> devs).
Proof.
  intros Hi Hb. unfold devs_body. apply set_column_ok; [done|].
  unfold deviations. by rewrite length_map.
Qed.

Lemma devs_loop n bpm (means : list F) : length bpm = n → ∀ (pre : list (list F)),
  for_enum (devs_body n (Some bpm)) (length pre) means
    (pre ++ replicate (length means) (zeros n))
  = Ok (pre ++ map (deviations bpm) means).
Proof.
  intros Hb. induction means as [|m means IH]; intros pre; [done|].
  cbn [for_enum]. rewrite devs_step; [|rewrite length_app; simpl; lia|done].
  cbn [mbind res_bind].
  replace (<[length pre:=_]> _)
    with ((pre ++ [deviations bpm m]) ++ replicate (length means) (zeros n));
    last first.
  { rewrite insert_app_r_alt by lia. rewrite Nat.sub_diag.
    by rewrite <- app_assoc. }
  replace (S (length pre)) with (length (pre ++ [deviations bpm m]))
    by (rewrite length_app; simpl; lia).
  rewrite IH. by rewrite <- app_assoc.
Qed.

Lemma dist_devs_run (self : GSFile F) h n columns l bpm mid :
  h !! dists self = Some (Mat n columns) →
  bins_phi_mid self = Some l → h !! l = Some (Vec bpm) →
  h !! mid_depth self = Some (Vec mid) →
  length mid = length columns → length bpm = n →
  Forall (λ c : list F, length c = n) columns →
  let means := map (wmean bpm) columns in
  dist_devs self h = Ok ((map (deviations bpm) means, means), h).
Proof.
  intros Hd Hl Hb Hm Hlen Hn Hc. cbv zeta. unfold dist_devs.
  assert (Hc' : Forall (λ c : list F, length c = length bpm) columns).
  { eapply Forall_impl; [exact Hc|]. intros c Hx. congruence. }
  rewrite run_bind, (dist_means_run self h n columns l bpm mid) by done.
  rewrite run_bind, (run_load_mat _ _ _ _ Hd).
  rewrite run_bind, Hl. unfold load_opt_vec.
  rewrite run_bind, (run_load_vec _ _ _ Hb), run_ret, run_bind, run_lift.
  pose proof (devs_loop n bpm (map (wmean bpm) columns) Hn []) as L.
  cbn [length app] in L. rewrite length_map in L. by rewrite L.
Qed.

Lemma moments_step bpm (devs : list (list F)) (m2 m3 m4 : list F) ii dist :
  devs !! ii = Some (deviations bpm (wmean bpm dist)) →
  length dist = length bpm →
  (ii < length m2)%nat → (ii < length m3)%nat → (ii < length m4)%nat →
  moments_body np_sqrt np_power devs (m2, m3, m4) ii dist
  = Ok (<[ii:=moment2 np_power bpm dist]> m2,
        <[ii:=moment_std np_sqrt np_power 3 bpm dist]> m3,
        <[ii:=moment_std np_sqrt np_power 4 bpm dist]> m4).
Proof.
  intros Hd Hl H2 H3 H4. unfold moments_body.
  rewrite (getitem_ok _ _ _ Hd). cbn [mbind res_bind].
  rewrite bcast2_same by (unfold deviations; by rewrite !length_map).
  cbn [mbind res_bind]. rewrite setitem_ok by done. cbn [mbind res_bind].
  rewrite getitem_insert by done. cbn [mbind res_bind].
  rewrite bcast2_same by (unfold deviations; by rewrite !length_map).
  cbn [mbind res_bind]. rewrite setitem_ok by done. cbn [mbind res_bind].
  rewrite bcast2_same by (unfold deviations; by rewrite !length_map).
  cbn [mbind res_bind]. rewrite setitem_ok by done. reflexivity.
Qed.

Lemma insert_next {A} i (pre : list A) x y (rest : list A) :
  i = length pre → <[i:=x]> (pre ++ y :: rest) = (pre ++ [x]) ++ rest.
Proof.
  intros ->. rewrite insert_app_r_alt by lia. rewrite Nat.sub_diag.
  by rewrite <- app_assoc.
Qed.

Lemma moments_loop bpm (todo : list (list F)) : ∀ pre (pre2 pre3 pre4 : list F),
  length pre2 = length pre → length pre3 = length pre →
  length pre4 = length pre →
  Forall (λ c : list F, length c = length bpm) todo →
  for_enum (moments_body np_sqrt np_power
              (map (λ c, deviations bpm (wmean bpm c)) (pre ++ todo)))
    (length pre) todo
    (pre2 ++ zeros (length todo), pre3 ++ zeros (length todo),
     pre4 ++ zeros (length todo))
  = Ok (pre2 ++ map (moment2 np_power bpm) todo,
        pre3 ++ map (moment_std np_sqrt np_power 3 bpm) todo,
        pre4 ++ map (moment_std np_sqrt np_power 4 bpm) todo).
Proof.
  induction todo as [|dist todo IH]; intros pre pre2 pre3 pre4 H2 H3 H4 Hc;
    [done|].
  apply Forall_cons in Hc as [Hd Hc]. cbn [for_enum].
  rewrite (moments_step bpm); [|
    rewrite map_fmap, list_lookup_fmap, list_lookup_middle by done; done
    |done|rewrite length_app; simpl; lia..].
  cbn [mbind res_bind]. simpl zeros. unfold zeros. simpl replicate.
  rewrite (insert_next _ pre2), (insert_next _ pre3), (insert_next _ pre4)
    by done.
  replace (pre ++ dist :: todo) with ((pre ++ [dist]) ++ todo)
    by (by rewrite <- app_assoc).
  replace (S (length pre)) with (length (pre ++ [dist]))
    by (rewrite length_app; simpl; lia).
  fold (zeros (length todo)).
  rewrite IH; [|rewrite !length_app; simpl; lia..|done].
  by rewrite <- !app_assoc.
Qed.

(** [dist_moments] in closed form *)
Lemma dist_moments_run (self : GSFile F) h n columns l bpm mid :
  h !! dists self = Some (Mat n columns) →
  bins_phi_mid self = Some l → h !! l = Some (Vec bpm) →
  h !! mid_depth self = Some (Vec mid) →
  length mid = length columns → length bpm = n →
  Forall (λ c : list F, length c = n) columns →
  dist_moments np_sqrt np_power self h
  = Ok ((map (wmean bpm) columns, map (moment2 np_power bpm) columns,
         map (moment_std np_sqrt np_power 3 bpm) columns,
         map (moment_std np_sqrt np_power 4 bpm) columns), h).
Proof.
  intros Hd Hl Hb Hm Hlen Hn Hc. unfold dist_moments.
  rewrite run_bind, (dist_devs_run self h n columns l bpm mid) by done.
  cbv beta iota zeta.
  rewrite run_bind, (run_load_vec _ _ _ Hm).
  rewrite run_bind, (run_load_mat _ _ _ _ Hd). cbv beta iota.
  rewrite run_bind, run_lift, map_map, Hlen.
  assert (Hc' : Forall (λ c : list F, length c = length bpm) columns).
  { eapply Forall_impl; [exact Hc|]. intros c Hx. congruence. }
  pose proof (moments_loop bpm columns [] [] [] [] eq_refl eq_refl eq_refl Hc')
    as L.
  cbn [length app] in L. by rewrite L.
Qed.
End MomentsClosed.

Section ExactMoments.
Import Exact.
Local Open Scope Q_scope.






End ExactMoments.

(** X1.  On a record without phi midpoints that has at least one sample
    column, the four per-sample statistics raise [TypeError] (the product
    of a column with [None]), while [bulk_mean] returns not-a-number. *)
Theorem stats_need_phi_mid {F : Type} `{Arith F} (np_sqrt : F → F)
    (np_power : F → Z → F) (self : GSFile F) (h : heap F) (n : nat)
    (c : list F) (columns : list (list F)) (mid : list F) :
  bins_phi_mid self = None →
  h !! dists self = Some (Mat n (c :: columns)) →
  h !! mid_depth self = Some (Vec mid) →
  dist_means self h = Raise TypeError
  ∧ dist_devs self h = Raise TypeError
  ∧ dist_stds np_sqrt np_power self h = Raise TypeError
  ∧ dist_moments np_sqrt np_power self h = Raise TypeError
  ∧ ∀ rng, bulk_mean self rng h = Ok (fnan, h).
Proof.
  intros Hn Hd Hm.
  pose proof (dist_means_none self h n c columns mid Hn Hd Hm) as Hmeans.
  assert (Hdevs : dist_devs self h = Raise TypeError).
  { unfold dist_devs. by rewrite run_bind, Hmeans. }
  repeat split; try done.
  - unfold dist_stds. by rewrite run_bind, Hdevs.
  - unfold dist_moments. by rewrite run_bind, Hdevs.
  - intros rng. by apply bulk_mean_unavailable.
Qed.

Lemma stats_need_phi_mid_witness :
  dist_means Fixture.psi_record Fixture.psi_store = Raise TypeError
  ∧ dist_devs Fixture.psi_record Fixture.psi_store = Raise TypeError
  ∧ dist_stds B64.sqrt B64.powi Fixture.psi_record Fixture.psi_store
    = Raise TypeError
  ∧ dist_moments B64.sqrt B64.powi Fixture.psi_record Fixture.psi_store
    = Raise TypeError
  ∧ ∀ rng, bulk_mean Fixture.psi_record rng Fixture.psi_store
           = Ok (fnan, Fixture.psi_store).
Proof.
  apply (stats_need_phi_mid B64.sqrt B64.powi Fixture.psi_record
           Fixture.psi_store 1 [Sample.f 60] [[Sample.f 40]]
           [B64.mk 1 (-1); B64.mk 3 (-1)]); reflexivity.
Defined.

(** X2.  On a record of consistent shape with phi midpoints, [dist_devs]
    returns without raising and leaves the heap as it was; its second
    component is the result of [dist_means], and column j of its first
    component holds the deviations of the bin midpoints from the mean of
    sample j alone. *)
Theorem dist_devs_closed_form {F : Type} `{Arith F} (self : GSFile F)
    (h : heap F) (n : nat) (columns : list (list F)) (l : loc)
    (bpm mid : list F) :
  h !! dists self = Some (Mat n columns) →
  bins_phi_mid self = Some l → h !! l = Some (Vec bpm) →
  h !! mid_depth self = Some (Vec mid) →
  length mid = length columns → length bpm = n →
  Forall (λ c : list F, length c = n) columns →
  ∃ devs means,
    dist_devs self h = Ok ((devs, means), h)
    ∧ dist_means self h = Ok (means, h)
    ∧ length devs = length columns ∧ length means = length columns
    ∧ ∀ j dist, columns !! j = Some dist →
        means !! j = Some (wmean bpm dist)
        ∧ devs !! j = Some (deviations bpm (wmean bpm dist)).
Proof.
  intros Hd Hl Hb Hm Hlen Hn Hc.
  exists (map (deviations bpm) (map (wmean bpm) columns)),
         (map (wmean bpm) columns).
  split; [by eapply dist_devs_run|]. split.
  { eapply dist_means_run; eauto.
    eapply Forall_impl; [exact Hc|]. intros c Hx. congruence. }
  rewrite !length_map. split; [done|]. split; [done|].
  intros j dist Hj. split.
  - rewrite map_fmap, list_lookup_fmap. by rewrite Hj.
  - rewrite map_map, map_fmap, list_lookup_fmap. by rewrite Hj.
Qed.

Lemma dist_devs_closed_form_witness :
  let columns := [[Sample.f 1; Sample.f 2; Sample.f 1];
                  [Sample.f 1; Sample.f 2; Sample.f 1];
                  [Sample.f 1; Sample.f 2; Sample.f 1]] in
  let bpm := [Sample.f 1; Sample.f 2; Sample.f 3] in
  ∃ devs means,
    dist_devs Sample.even_record Sample.even_store
    = Ok ((devs, means), Sample.even_store)
    ∧ dist_means Sample.even_record Sample.even_store
      = Ok (means, Sample.even_store)
    ∧ length devs = length columns ∧ length means = length columns
    ∧ ∀ j dist, columns !! j = Some dist →
        means !! j = Some (wmean bpm dist)
        ∧ devs !! j = Some (deviations bpm (wmean bpm dist)).
Proof.
  apply (dist_devs_closed_form Sample.even_record Sample.even_store 3 _
           4%nat _ [B64.mk 1 (-1); B64.mk 3 (-1); B64.mk 5 (-1)]);
    try reflexivity.
  repeat constructor.
Defined.

(** X3.  On a record of consistent shape with phi midpoints,
    [dist_moments] returns without raising, also when a sample sums to
    zero, and leaves the heap as it was.  Each of the four vectors has one
    entry per sample; entry j is computed from sample j alone: its weighted
    mean, its second moment about that mean, and its third and fourth
    moments of the deviations divided by the square root of the second.
    [dist_stds] returns the square roots of the second moments. *)
Theorem dist_moments_closed_form {F : Type} `{Arith F} (np_sqrt : F → F)
    (np_power : F → Z → F) (self : GSFile F) (h : heap F) (n : nat)
    (columns : list (list F)) (l : loc) (bpm mid : list F) :
  h !! dists self = Some (Mat n columns) →
  bins_phi_mid self = Some l → h !! l = Some (Vec bpm) →
  h !! mid_depth self = Some (Vec mid) →
  length mid = length columns → length bpm = n →
  Forall (λ c : list F, length c = n) columns →
  ∃ m1 m2 m3 m4,
    dist_moments np_sqrt np_power self h = Ok ((m1, m2, m3, m4), h)
    ∧ dist_stds np_sqrt np_power self h = Ok (map np_sqrt m2, h)
    ∧ length m1 = length columns ∧ length m2 = length columns
    ∧ length m3 = length columns ∧ length m4 = length columns
    ∧ ∀ j dist, columns !! j = Some dist →
        m1 !! j = Some (wmean bpm dist)
        ∧ m2 !! j = Some (moment2 np_power bpm dist)
        ∧ m3 !! j = Some (moment_std np_sqrt np_power 3 bpm dist)
        ∧ m4 !! j = Some (moment_std np_sqrt np_power 4 bpm dist).
Proof.
  intros Hd Hl Hb Hm Hlen Hn Hc.
  pose proof (dist_moments_run np_sqrt np_power self h n columns l bpm mid
                Hd Hl Hb Hm Hlen Hn Hc) as Hrun.
  pose proof (dist_stds_of_moments np_sqrt np_power self h) as Hstd.
  rewrite Hrun in Hstd.
  eexists _, _, _, _. split; [exact Hrun|]. split; [exact Hstd|].
  rewrite !length_map. do 4 (split; [done|]).
  intros j dist Hj.
  repeat split; rewrite map_fmap, list_lookup_fmap; by rewrite Hj.
Qed.

Lemma dist_moments_closed_form_witness :
  let columns := [[Sample.f 1; Sample.f 2; Sample.f 1];
                  [Sample.f 1; Sample.f 2; Sample.f 1];
                  [Sample.f 1; Sample.f 2; Sample.f 1]] in
  let bpm := [Sample.f 1; Sample.f 2; Sample.f 3] in
  ∃ m1 m2 m3 m4,
    dist_moments B64.sqrt B64.powi Sample.even_record Sample.even_store
    = Ok ((m1, m2, m3, m4), Sample.even_store)
    ∧ dist_stds B64.sqrt B64.powi Sample.even_record Sample.even_store
      = Ok (map B64.sqrt m2, Sample.even_store)
    ∧ length m1 = length columns ∧ length m2 = length columns
    ∧ length m3 = length columns ∧ length m4 = length columns
    ∧ ∀ j dist, columns !! j = Some dist →
        m1 !! j = Some (wmean bpm dist)
        ∧ m2 !! j = Some (moment2 B64.powi bpm dist)
        ∧ m3 !! j = Some (moment_std B64.sqrt B64.powi 3 bpm dist)
        ∧ m4 !! j = Some (moment_std B64.sqrt B64.powi 4 bpm dist).
Proof.
  apply (dist_moments_closed_form B64.sqrt B64.powi Sample.even_record
           Sample.even_store 3 _ 4%nat _
           [B64.mk 1 (-1); B64.mk 3 (-1); B64.mk 5 (-1)]);
    try reflexivity.
  repeat constructor.
Defined.



(** ** Missing values and the order of binary64 *)

Section Order.
Implicit Types x y z : B64.float.

Lemma finite_compare_spec e1 m1 e2 m2 :
  match finite_compare e1 m1 e2 m2 with
  | Lt => e1 < e2 ∨ (e1 = e2 ∧ (m1 < m2)%positive)
  | Eq => e1 = e2 ∧ m1 = m2
  | Gt => e2 < e1 ∨ (e1 = e2 ∧ (m2 < m1)%positive)
  end.
Proof.
  unfold finite_compare.
  change (Pos.compare_cont Eq m1 m2) with (m1 ?= m2)%positive.
  destruct (Z.compare_spec e1 e2); [|lia..].
  destruct (Pos.compare_spec m1 m2); lia.
Qed.

Lemma compare_positive m1 e1 m2 e2 :
  SFcompare (S754_finite false m1 e1) (S754_finite false m2 e2)
  = Some (finite_compare e1 m1 e2 m2).
Proof. reflexivity. Qed.

Lemma compare_negative m1 e1 m2 e2 :
  SFcompare (S754_finite true m1 e1) (S754_finite true m2 e2)
  = Some (CompOpp (finite_compare e1 m1 e2 m2)).
Proof. unfold finite_compare. simpl. by destruct (e1 ?= e2). Qed.

(** nothing lies between the bounds of a range given in increasing order *)
Lemma between_empty m g0 g1 :
  SFltb g0 g1 = true → SFleb m g0 && SFleb g1 m = false.
Proof.
  intros Hlt. apply andb_false_iff.
  destruct (SFleb m g0) eqn:E1; [right|by left].
  destruct (SFleb g1 m) eqn:E2; [exfalso|done].
  unfold SFltb, SFleb in *.
  destruct m as [sm|sm| |sm mm em], g0 as [s0|s0| |s0 m0 e0],
    g1 as [s1|s1| |s1 m1 e1];
    repeat match goal with s : bool |- _ => destruct s end;
    try discriminate.
  all: rewrite ?compare_positive, ?compare_negative in *.
  all: pose proof (finite_compare_spec em mm e0 m0) as H1;
       pose proof (finite_compare_spec e1 m1 em mm) as H2;
       pose proof (finite_compare_spec e0 m0 e1 m1) as H3.
  all: destruct (finite_compare em mm e0 m0), (finite_compare e1 m1 em mm),
         (finite_compare e0 m0 e1 m1); try discriminate; lia.
Qed.
End Order.

Section NoSample.
Implicit Types h : heap B64.float.
Implicit Types x y : B64.float.

Lemma div_nan_r x : B64.div x S754_nan = S754_nan.
Proof. by destruct x as [[]|[]| |[]]. Qed.

Lemma add_nan_l y : B64.add S754_nan y = S754_nan.
Proof. by destruct y. Qed.

Lemma sum_from_nan (xs : list B64.float) :
  fold_left B64.add xs S754_nan = S754_nan.
Proof.
  induction xs as [|x xs IH]; [done|]. cbn [fold_left].
  by rewrite add_nan_l.
Qed.

Lemma add_nan_r x : B64.add x S754_nan = S754_nan.
Proof. by destruct x as [[]|[]| |[]]. Qed.

(** the average of the rows of a matrix without columns *)
Lemma nanmean_no_column (n : nat) :
  nanmean (F:=B64.float) n [] = replicate n S754_nan.
Proof.
  unfold nanmean. generalize 0%nat. induction n as [|n IH]; intros k; [done|].
  simpl. f_equal. apply IH.
Qed.

Lemma rescale_nan (n : nat) :
  rescale (F:=B64.float) (replicate n S754_nan) = replicate n S754_nan.
Proof.
  unfold rescale. rewrite map_fmap, fmap_replicate. reflexivity.
Qed.

(** the weighted mean of values that are all missing *)
Lemma wmean_nan (bins dist : list B64.float) :
  Forall (λ x, x = S754_nan) dist → wmean bins dist = S754_nan.
Proof.
  intros Hd. unfold wmean. destruct Hd as [|x dist -> Hd].
  - by destruct bins.
  - unfold np_sum at 2. cbn [fold_left fadd b64_arith].
    rewrite add_nan_r, sum_from_nan. apply div_nan_r.
Qed.

Lemma select_forall {A} (P : A → Prop) (a : list A) : ∀ mask,
  Forall P a → Forall P (select a mask).
Proof.
  induction a as [|x a IH]; intros mask Ha; [by destruct mask|].
  apply Forall_cons in Ha as [Hx Ha]. destruct mask as [|[] mask]; simpl;
    [constructor|constructor; [done|]|]; auto.
Qed.
End NoSample.

Section BulkMeanRun.
Context {F : Type} `{Arith F}.
Implicit Types h : heap F.

(** The mean without a range. *)
Lemma bulk_mean_all_run (self : GSFile F) h l bpm dist h1 :
  bins_phi_mid self = Some l → h !! l = Some (Vec bpm) →
  bulk_dist self h = Ok (dist, h1) → length dist = length bpm →
  bulk_mean self None h = Ok (wmean bpm dist, h1).
Proof.
  intros Hl Hb Hd Hlen. unfold bulk_mean. rewrite Hl.
  rewrite run_bind, Hd.
  destruct (bulk_dist_new_buffer self h dist h1 Hd) as [buf ->].
  assert (Hb' : (h ++ [buf]) !! l = Some (Vec bpm)).
  { rewrite lookup_app_l; [done|]. by eapply lookup_lt_Some. }
  rewrite run_bind, (run_load_vec _ _ _ Hb'), run_bind, run_lift.
  cbn [mret res_ret]. cbv beta iota.
  rewrite run_bind, run_lift, bcast2_same by done.
  reflexivity.
Qed.

(** With no sample above layer 0 the filtered matrix has no column. *)
Lemma bulk_dist_no_column (self : GSFile F) h mind maxd lay n columns :
  h !! min_depth self = Some (Vec mind) →
  h !! max_depth self = Some (Vec maxd) →
  h !! layer self = Some (Vec lay) →
  h !! dists self = Some (Mat n columns) →
  length lay = length columns →
  length maxd = length columns → length mind = length columns →
  Forall (λ l, fltb (of_Z 0) l = false) lay →
  bulk_dist self h = Ok (rescale (nanmean n []), h ++ [Mat n []]).
Proof.
  intros Hmin Hmax Hlay Hd Hl Hmaxl Hminl Hnone.
  assert (Hsel : select columns (layer_gt 0 lay) = []).
  { apply select_none. unfold layer_gt. rewrite map_fmap.
    by apply Forall_fmap. }
  destruct (existsb isnan mind) eqn:Hnan;
    [|destruct (decide (1 < length (sample_id self))%nat) as [Hids|Hids]].
  - rewrite (bulk_dist_unweighted_run self h mind lay n columns) by auto.
    by rewrite Hsel.
  - rewrite (bulk_dist_weighted_run self h mind maxd lay n columns) by done.
    by rewrite Hsel.
  - rewrite (bulk_dist_unweighted_run self h mind lay n columns)
      by (try done; right; lia).
    by rewrite Hsel.
Qed.
End BulkMeanRun.

(** X5.  In binary64, on a record of consistent shape none of whose
    samples has a layer code above 0, [bulk_dist] returns one not-a-number
    per bin (the filtered matrix has no column), on either path; and
    [bulk_mean] then returns not-a-number, with or without a range. *)
Theorem bulk_dist_no_qualifying (self : GSFile B64.float)
    (h : heap B64.float) (mind maxd lay : list B64.float) (n : nat)
    (columns : list (list B64.float)) :
  h !! min_depth self = Some (Vec mind) →
  h !! max_depth self = Some (Vec maxd) →
  h !! layer self = Some (Vec lay) →
  h !! dists self = Some (Mat n columns) →
  length lay = length columns →
  length maxd = length columns → length mind = length columns →
  Forall (λ l, SFltb (B64.of_int 0) l = false) lay →
  bulk_dist self h = Ok (replicate n S754_nan, h ++ [Mat n []])
  ∧ ∀ l bpm rng, bins_phi_mid self = Some l → h !! l = Some (Vec bpm) →
      length bpm = n →
      bulk_mean self rng h = Ok (S754_nan, h ++ [Mat n []]).
Proof.
  intros Hmin Hmax Hlay Hd Hl Hmaxl Hminl Hnone.
  assert (Hrun : bulk_dist self h
                 = Ok (replicate n S754_nan, h ++ [Mat n []])).
  { rewrite (bulk_dist_no_column self h mind maxd lay n columns) by done.
    by rewrite nanmean_no_column, rescale_nan. }
  split; [exact Hrun|]. intros l bpm rng Hm Hb Hn.
  assert (Hall : Forall (λ x : B64.float, x = S754_nan)
                   (replicate n S754_nan)).
  { apply Forall_replicate. done. }
  destruct rng as [[g0 g1]|].
  - rewrite (bulk_mean_range_run self h l bpm g0 g1 _ _ Hm Hb Hrun)
      by (by rewrite length_replicate).
    f_equal. f_equal. apply wmean_nan. by apply select_forall.
  - rewrite (bulk_mean_all_run self h l bpm _ _ Hm Hb Hrun)
      by (by rewrite length_replicate).
    f_equal. f_equal. by apply wmean_nan.
Qed.

Lemma bulk_dist_no_qualifying_witness :
  let h := Fixture.buried_store in
  bulk_dist Fixture.buried_record h
  = Ok (replicate 2 S754_nan, h ++ [Mat 2 []])
  ∧ ∀ l bpm rng,
      bins_phi_mid Fixture.buried_record = Some l → h !! l = Some (Vec bpm) →
      length bpm = 2%nat →
      bulk_mean Fixture.buried_record rng h
      = Ok (S754_nan, h ++ [Mat 2 []]).
Proof.
  apply (bulk_dist_no_qualifying Fixture.buried_record Fixture.buried_store
           [Sample.f 0; Sample.f 1] [Sample.f 1; Sample.f 2]
           [Sample.f 0; Sample.f (-1)] 2
           [[Sample.f 1; Sample.f 0]; [Sample.f 0; Sample.f 1]]);
    try reflexivity.
  repeat constructor.
Defined.

(** X6.  In binary64, a range whose first element is below its second
    (the order minimum, maximum in phi), or one of whose elements is
    not-a-number, keeps no bin: whenever [bulk_dist] returns a value per
    bin, [bulk_mean] with such a range returns not-a-number. *)
Theorem bulk_mean_increasing_range (self : GSFile B64.float)
    (h h1 : heap B64.float) (l : loc) (bpm dist : list B64.float)
    (g0 g1 : B64.float) :
  bins_phi_mid self = Some l → h !! l = Some (Vec bpm) →
  bulk_dist self h = Ok (dist, h1) → length dist = length bpm →
  SFltb g0 g1 = true ∨ B64.is_nan g0 = true ∨ B64.is_nan g1 = true →
  bulk_mean self (Some (g0, g1)) h = Ok (S754_nan, h1).
Proof.
  intros Hl Hb Hd Hlen Hg.
  rewrite (bulk_mean_range_run self h l bpm g0 g1 dist h1) by done.
  assert (Hm : Forall (λ b : bool, b = false)
                 (map (λ m, fleb m g0 && fleb g1 m) bpm)).
  { rewrite map_fmap. apply Forall_fmap, Forall_forall. intros m _.
    cbn [fleb b64_arith]. destruct Hg as [Hlt|[Hn|Hn]].
    - by apply between_empty.
    - destruct g0; try done. by destruct m.
    - destruct g1; try done. apply andb_false_r. }
  by rewrite !select_none.
Qed.

Lemma bulk_mean_increasing_range_witness :
  ∃ dist h1,
    bulk_dist Sample.even_record Sample.even_store = Ok (dist, h1)
    ∧ bulk_mean Sample.even_record (Some (B64.mk 3 (-1), B64.mk 5 (-1)))
        Sample.even_store
      = Ok (S754_nan, h1).
Proof.
  eexists _, _. split; [vm_compute; reflexivity|].
  eapply (bulk_mean_increasing_range Sample.even_record Sample.even_store _
            4%nat [Sample.f 1; Sample.f 2; Sample.f 3]).
  - reflexivity.
  - reflexivity.
  - vm_compute. reflexivity.
  - reflexivity.
  - left. reflexivity.
Defined.

(** ** A record with one sample *)

Section OneSample.
Import Exact.
Local Open Scope Q_scope.






End OneSample.



(** ** The shape of the bulk distribution *)

Section Rows.
Context {F : Type} `{Arith F}.
Implicit Types h : heap F.

Lemma scale_column_rows diffs len ii h n (cs : list (list F)) u h' :
  scale_column (length h) diffs len ii (h ++ [Mat n cs]) = Ok (u, h') →
  ∃ cs', h' = h ++ [Mat n cs'].
Proof.
  unfold scale_column. intros E.
  mstep E as [n' cs0] h1 E1. apply load_mat_inv in E1 as [-> E1].
  rewrite lookup_fresh in E1. simplify_eq/=.
  mstep E as c h1 E1. apply lift_inv in E1 as [-> _].
  mstep E as w h1 E1. apply lift_inv in E1 as [-> _].
  apply store_fresh_inv in E. eauto.
Qed.

Lemma scale_loop_rows diffs len k : ∀ ii h n (cs : list (list F)) u h',
  for_range (scale_column (length h) diffs len) ii k (h ++ [Mat n cs])
  = Ok (u, h') →
  ∃ cs', h' = h ++ [Mat n cs'].
Proof.
  induction k as [|k IH]; intros ii h n cs u h' E; simpl in E.
  - apply ret_inv in E as [_ ->]. eauto.
  - mstep E as u1 h1 E1. apply scale_column_rows in E1 as [cs1 ->]. eauto.
Qed.

(** the result has one entry for each row of [dists] *)
Lemma bulk_dist_rows (self : GSFile F) h v h' n columns :
  bulk_dist self h = Ok (v, h') →
  h !! dists self = Some (Mat n columns) → length v = n.
Proof.
  unfold bulk_dist. intros E Hd.
  mstep E as mind h1 E1. apply load_vec_inv in E1 as [-> _].
  mstep E as lay h1 E1. apply load_vec_inv in E1 as [-> _].
  mstep E as [nrows columns'] h1 E1. apply load_mat_inv in E1 as [-> E1].
  simpl in E1. assert (nrows = n) as -> by congruence. clear E1.
  mstep E as d h1 E1.
  assert (∃ cs, h1 = h ++ [Mat n cs] ∧ d = length h) as (cs & -> & ->).
  { destruct (negb (existsb isnan mind)
              && bool_decide (1 < length (sample_id self))%nat).
    - mstep E1 as sel h2 E2. apply lift_inv in E2 as [-> _].
      mstep E1 as d' h2 E2. apply alloc_inv in E2 as [-> ->].
      mstep E1 as maxd h2 E2. apply load_vec_inv in E2 as [-> _].
      mstep E1 as diffs h2 E2. apply lift_inv in E2 as [-> _].
      mstep E1 as u h2 E2. apply scale_loop_rows in E2 as [cs ->].
      apply ret_inv in E1 as [-> ->]. eauto.
    - mstep E1 as sel h2 E2. apply lift_inv in E2 as [-> _].
      apply alloc_inv in E1 as [-> ->]. eauto. }
  mstep E as [n' cs'] h1 E2. apply load_mat_inv in E2 as [-> E2].
  rewrite lookup_fresh in E2. simplify_eq/=.
  apply ret_inv in E as [-> _].
  unfold nanmean. by rewrite !length_map, length_seq.
Qed.
End Rows.

(** X22.  Whenever [bulk_dist] returns, with or without thickness
    weighting and however many samples pass the filter, its value has one
    entry for each row of [dists].  On a record whose phi midpoints have
    that length, [bulk_mean] then returns as well, for every range and for
    none, and leaves the heap that [bulk_dist] leaves. *)
Theorem bulk_dist_value_per_bin {F : Type} `{Arith F} (self : GSFile F)
    (h h' : heap F) (v : list F) (n : nat) (columns : list (list F)) :
  bulk_dist self h = Ok (v, h') →
  h !! dists self = Some (Mat n columns) →
  length v = n
  ∧ ∀ l bpm gs_min_max,
      bins_phi_mid self = Some l → h !! l = Some (Vec bpm) →
      length bpm = n →
      ∃ m, bulk_mean self gs_min_max h = Ok (m, h').
Proof.
  intros E Hd. pose proof (bulk_dist_rows self h v h' n columns E Hd) as Hv.
  split; [done|]. intros l bpm [[g0 g1]|] Hl Hb Hlen.
  - eexists. eapply bulk_mean_range_run; eauto. congruence.
  - eexists. eapply bulk_mean_all_run; eauto. congruence.
Qed.

Lemma bulk_dist_value_per_bin_witness :
  ∃ v h',
    bulk_dist Sample.even_record Sample.even_store = Ok (v, h')
    ∧ length v = 3%nat
    ∧ ∀ l bpm gs_min_max,
        bins_phi_mid Sample.even_record = Some l →
        Sample.even_store !! l = Some (Vec bpm) →
        length bpm = 3%nat →
        ∃ m, bulk_mean Sample.even_record gs_min_max Sample.even_store
             = Ok (m, h').
Proof.
  eexists _, _. split; [vm_compute; reflexivity|].
  eapply (bulk_dist_value_per_bin Sample.even_record Sample.even_store).
  - vm_compute. reflexivity.
  - reflexivity.
Defined.

(** ** The bulk distribution when every sample qualifies *)

Section Congruence.
Import Exact.
Implicit Types x y : xreal.
Local Open Scope Q_scope.

Lemma equiv_refl x : equiv x x.
Proof. destruct x; simpl; done. Qed.

Lemma sgn_congr (p q : Q) : p == q → sgn p = sgn q.
Proof. intros E. unfold sgn. by rewrite E. Qed.

Lemma add_congr x x' y y' :
  equiv x x' → equiv y y' → equiv (add x y) (add x' y').
Proof.
  destruct x as [p|a|], x' as [p'|a'|], y as [q|b|], y' as [q'|b'|];
    simpl; try done; intros E1 E2; subst; try done.
  - by rewrite E1, E2.
  - destruct (Bool.eqb a' b'); done.
Qed.

Lemma mul_congr x x' y y' :
  equiv x x' → equiv y y' → equiv (mul x y) (mul x' y').
Proof.
  destruct x as [p|a|], x' as [p'|a'|], y as [q|b|], y' as [q'|b'|];
    simpl; try done; intros E1 E2; subst; try done.
  - by rewrite E1, E2.
  - rewrite (sgn_congr _ _ E1). destruct (sgn p'); done.
  - rewrite (sgn_congr _ _ E2). destruct (sgn q'); done.
Qed.

Lemma div_congr x x' y y' :
  equiv x x' → equiv y y' → equiv (div x y) (div x' y').
Proof.
  destruct x as [p|a|], x' as [p'|a'|], y as [q|b|], y' as [q'|b'|];
    simpl; try done; intros E1 E2; subst; try done.
  - rewrite (sgn_congr _ _ E1), (sgn_congr _ _ E2).
    destruct (sgn q') eqn:Eq; simpl.
    + destruct (sgn p'); done.
    + rewrite E1, E2. done.
    + rewrite E1, E2. done.
  - rewrite (sgn_congr _ _ E2). destruct (sgn q'); done.
Qed.

Lemma isnan_congr x x' : equiv x x' → is_nan x = is_nan x'.
Proof. destruct x, x'; simpl; done. Qed.

Lemma sum_congr (xs ys : list xreal) :
  Forall2 equiv xs ys → ∀ a b, equiv a b →
  equiv (fold_left add xs a) (fold_left add ys b).
Proof.
  induction 1 as [|x y xs ys Hx _ IH]; intros a b E; simpl; [done|].
  apply IH. by apply add_congr.
Qed.

Lemma np_sum_congr (xs ys : list xreal) :
  Forall2 equiv xs ys → equiv (np_sum xs) (np_sum ys).
Proof. intros E. apply sum_congr; [done|]. apply equiv_refl. Qed.

Lemma filter_congr (xs ys : list xreal) :
  Forall2 equiv xs ys →
  Forall2 equiv (List.filter (λ x, negb (isnan x)) xs)
                (List.filter (λ x, negb (isnan x)) ys).
Proof.
  induction 1 as [|x y xs ys Hx _ IH]; simpl; [constructor|].
  cbn [isnan exact_arith]. rewrite (isnan_congr _ _ Hx).
  destruct (is_nan y); simpl; [done|]. by constructor.
Qed.

Lemma nanmean1_congr (xs ys : list xreal) :
  Forall2 equiv xs ys → equiv (nanmean1 xs) (nanmean1 ys).
Proof.
  intros E. apply filter_congr in E. unfold nanmean1.
  cbn [fdiv exact_arith]. apply div_congr; [by apply np_sum_congr|].
  rewrite (Forall2_length _ _ _ E). apply equiv_refl.
Qed.

Lemma row_congr (b : nat) (cs cs' : list (list xreal)) :
  Forall2 (Forall2 equiv) cs cs' → Forall2 equiv (row b cs) (row b cs').
Proof.
  unfold row. induction 1 as [|c c' cs cs' Hc _ IH]; simpl; [constructor|].
  destruct (c !! b) as [x|] eqn:Hx.
  - destruct (Forall2_lookup_l _ _ _ _ _ Hc Hx) as (x' & -> & Hxx).
    by constructor.
  - apply lookup_ge_None in Hx. rewrite (Forall2_length _ _ _ Hc) in Hx.
    apply lookup_ge_None in Hx. by rewrite Hx.
Qed.

Lemma nanmean_congr (n : nat) (cs cs' : list (list xreal)) :
  Forall2 (Forall2 equiv) cs cs' →
  Forall2 equiv (nanmean n cs) (nanmean n cs').
Proof.
  intros E. unfold nanmean. rewrite !map_fmap. apply Forall2_fmap.
  apply Forall_Forall2_diag, Forall_forall. intros b _.
  apply nanmean1_congr. by apply row_congr.
Qed.

Lemma rescale_congr (xs ys : list xreal) :
  Forall2 equiv xs ys → Forall2 equiv (rescale xs) (rescale ys).
Proof.
  intros E. unfold rescale. rewrite !map_fmap. apply Forall2_fmap.
  eapply Forall2_impl; [exact E|]. intros x y Hxy. cbv beta.
  cbn [fdiv fmul exact_arith]. apply div_congr; [|by apply np_sum_congr].
  apply mul_congr; [apply equiv_refl|done].
Qed.

Lemma sgn_mul (p q : Q) :
  sgn (p * q)
  = match sgn p, sgn q with
    | Eq, _ | _, Eq => Eq
    | Gt, Gt | Lt, Lt => Gt
    | _, _ => Lt
    end.
Proof.
  unfold sgn.
  destruct (p ?= 0) eqn:Ep, (q ?= 0) eqn:Eq;
    rewrite <- ?Qeq_alt, <- ?Qlt_alt, <- ?Qgt_alt in *; nra.
Qed.

Lemma sgn_inv (q : Q) : sgn (/ q) = sgn q.
Proof. destruct q as [[|n|n] d]; reflexivity. Qed.

Lemma sgn_div (p q : Q) :
  sgn (p / q)
  = match sgn p, sgn q with
    | Eq, _ | _, Eq => Eq
    | Gt, Gt | Lt, Lt => Gt
    | _, _ => Lt
    end.
Proof. unfold Qdiv. by rewrite sgn_mul, sgn_inv. Qed.

Lemma sgn_zero (p : Q) : sgn p = Eq → p == 0.
Proof. unfold sgn. by rewrite <- Qeq_alt. Qed.

(** [x*t/T] and [x*(t/T)] are the same value, for all values *)
Lemma scale_order x t T :
  equiv (div (mul x t) T) (mul x (div t T)).
Proof.
  destruct x as [p|a|], t as [q|b|], T as [r|c|]; simpl; try done;
    repeat first
      [ rewrite sgn_mul
      | rewrite sgn_div
      | match goal with
        | E : sgn ?v = _ |- context [sgn ?v] => rewrite E
        | |- context [sgn ?v] => is_var v; destruct (sgn v) eqn:?
        end
      | progress simpl ];
    try done; try (by destruct a); try (by destruct a, b);
    try (field; intros Hr; apply Qeq_alt in Hr; unfold sgn in *; congruence).
Qed.

(** scaling a column by a thickness over the total, in the order of the
    code and in the order of the specification *)
Lemma scale_orders (T t : xreal) (c : list xreal) :
  Forall2 equiv (scale T c t) (map (λ x, fmul x (fdiv t T)) c).
Proof.
  unfold scale. rewrite !map_fmap. apply Forall2_fmap.
  apply Forall_Forall2_diag, Forall_forall. intros x _. apply scale_order.
Qed.

Lemma weighted_orders (T : xreal) (cs : list (list xreal)) : ∀ ts,
  Forall2 (Forall2 equiv)
    (zip_with (scale T) cs ts)
    (zip_with (λ c t, map (λ x, fmul x (fdiv t T)) c) cs ts).
Proof.
  induction cs as [|c cs IH]; intros [|t ts]; simpl;
    try constructor; [|apply IH].
  apply scale_orders.
Qed.

Lemma equiv_all (xs : list xreal) : Forall2 equiv xs xs.
Proof.
  apply Forall_Forall2_diag, Forall_forall. intros x _. apply equiv_refl.
Qed.
End Congruence.

(** X23.  In exact arithmetic, on a record of consistent shape all of whose
    samples pass the filter [layer > 0], [bulk_dist] returns, and its value
    equals, up to the representation of a fraction, the percent rescaling
    of the row average of the columns, where with complete minimum depths
    and more than one sample column j is first multiplied by the thickness
    of sample j divided by the total thickness, and otherwise the columns
    are taken as they are ([bulk_dist_spec]).  The values, the depths and
    the total thickness may be any numbers, zero, infinite or not-a-number. *)
Theorem bulk_dist_meets_spec (self : GSFile Exact.xreal)
    (h : heap Exact.xreal) (mind maxd lay : list Exact.xreal) (n : nat)
    (columns : list (list Exact.xreal)) :
  h !! min_depth self = Some (Vec mind) →
  h !! max_depth self = Some (Vec maxd) →
  h !! layer self = Some (Vec lay) →
  h !! dists self = Some (Mat n columns) →
  length lay = length columns →
  length maxd = length columns → length mind = length columns →
  length (sample_id self) = length columns →
  Forall (λ b : bool, b = true) (layer_gt 0 lay) →
  ∃ v h', bulk_dist self h = Ok (v, h')
        ∧ Forall2 Exact.equiv v (bulk_dist_spec mind maxd lay n columns).
Proof.
  intros Hmin Hmax Hlay Hd Hl Hmaxl Hminl Hids Hall.
  assert (Hsel : select columns (layer_gt 0 lay) = columns).
  { apply select_all; [|done]. unfold layer_gt. rewrite length_map. done. }
  unfold bulk_dist_spec. cbv zeta. rewrite Hsel.
  fold (rescale (F:=Exact.xreal)).
  destruct (existsb isnan mind) eqn:Hnan;
    [|destruct (decide (1 < length columns)%nat) as [Hn|Hn]].
  - eexists _, _. split.
    + eapply bulk_dist_unweighted_run; eauto.
    + rewrite Hsel. simpl. apply equiv_all.
  - eexists _, _. split.
    + eapply bulk_dist_all_qualify; eauto. lia.
    + rewrite bool_decide_eq_true_2 by done. simpl negb. cbn [andb].
      rewrite select_all;
        [|unfold layer_gt; rewrite length_zip_with, length_map; lia|done].
      apply rescale_congr, nanmean_congr, weighted_orders.
  - eexists _, _. split.
    + eapply bulk_dist_unweighted_run; eauto. right. lia.
    + rewrite Hsel, bool_decide_eq_false_2 by done. rewrite andb_false_r.
      apply equiv_all.
Qed.

Lemma bulk_dist_meets_spec_witness :
  ∃ v h',
    bulk_dist two_record (two_store (Exact.Fin 1) (Exact.Fin 3)) = Ok (v, h')
    ∧ Forall2 Exact.equiv v
        (bulk_dist_spec [of_Z 0; of_Z 1] [Exact.Fin 1; Exact.Fin 3]
           [of_Z 1; of_Z 1] 2
           [[of_Z 1; of_Z 0]; [of_Z 0; of_Z 1]]).
Proof.
  apply (bulk_dist_meets_spec two_record
           (two_store (Exact.Fin 1) (Exact.Fin 3))); try reflexivity.
  repeat constructor.
Defined.

(** ** More on the depth edges *)

Section EdgesClosed.
Context {F : Type} `{Arith F}.
Implicit Types h : heap F.

Lemma depth_edges_run (self : GSFile F) (min_layer : Z) h mind maxd lay :
  h !! min_depth self = Some (Vec mind) →
  h !! max_depth self = Some (Vec maxd) →
  h !! layer self = Some (Vec lay) →
  length mind = length lay → length maxd = length lay →
  let min_d := select mind (layer_gt min_layer lay) in
  let max_d := select maxd (layer_gt min_layer lay) in
  _get_depth_bin_edges self min_layer h
  = lift
      (if array_equal (from1 min_d) (but_last max_d) then
         e ← getlast max_d; mret (min_d ++ [e])
       else
         d0 ← getitem min_d 0;
         depths ← setitem (zeros (length mind + 1)) 0 d0;
         e ← getlast max_d;
         depths ← set_last depths e;
         for_enum edges_body 0%nat (zip (from1 min_d) (but_last max_d)) depths)
      h.
Proof.
  intros Hmin Hmax Hlay Hl1 Hl2 min_d max_d. unfold _get_depth_bin_edges.
  rewrite run_bind, (run_load_vec _ _ _ Hmin).
  rewrite run_bind, (run_load_vec _ _ _ Hmax).
  rewrite run_bind, (run_load_vec _ _ _ Hlay).
  rewrite run_bind, run_lift, mask_index_ok
    by (unfold layer_gt; rewrite length_map; congruence).
  rewrite run_bind, run_lift, mask_index_ok
    by (unfold layer_gt; rewrite length_map; congruence).
  reflexivity.
Qed.

Lemma edge_step (depths : list F) ii n x :
  (S ii < length depths)%nat →
  edges_body depths ii (n, x) = Ok (<[S ii := inner_edge n x]> depths).
Proof.
  intros Hi. unfold edges_body, inner_edge.
  destruct (feqb n x); by rewrite setitem_ok.
Qed.

Lemma edges_loop_run (pairs : list (F * F)) : ∀ ii (depths : list F),
  (ii + length pairs < length depths)%nat →
  ∃ depths', for_enum edges_body ii pairs depths = Ok depths'
    ∧ length depths' = length depths
    ∧ (∀ j, (j ≤ ii ∨ ii + length pairs < j)%nat → depths' !! j = depths !! j)
    ∧ (∀ k n x, pairs !! k = Some (n, x) →
         depths' !! S (ii + k) = Some (inner_edge n x)).
Proof.
  induction pairs as [|[n x] pairs IH]; intros ii depths Hlen; simpl in Hlen.
  - exists depths. repeat split; done.
  - cbn [for_enum]. rewrite edge_step by lia. cbn [mbind res_bind].
    destruct (IH (S ii) (<[S ii := inner_edge n x]> depths))
      as (depths' & Hrun & Hl & Hout & Hin).
    { rewrite length_insert. lia. }
    exists depths'. split; [exact Hrun|]. rewrite length_insert in Hl.
    split; [exact Hl|]. split.
    + intros j Hj. simpl in Hj. rewrite Hout by lia.
      apply list_lookup_insert_ne. lia.
    + intros [|k] n' x' Hk; simpl in Hk.
      * simplify_eq. rewrite Nat.add_0_r, Hout by lia.
        apply list_lookup_insert_eq. lia.
      * replace (S (ii + S k)) with (S (S ii + k)) by lia. by apply Hin.
Qed.

Lemma array_equal_inv (xs ys : list F) :
  array_equal xs ys = true →
  length xs = length ys
  ∧ ∀ i x y, xs !! i = Some x → ys !! i = Some y → feqb x y = true.
Proof.
  unfold array_equal. intros E. apply andb_prop in E as [El Ef].
  apply bool_decide_eq_true in El. split; [done|].
  intros i x y Hx Hy. apply Is_true_true, forallb_True in Ef.
  apply Is_true_true. apply (Forall_lookup_1 _ _ i (x, y) Ef).
  rewrite lookup_zip_with, Hx. simpl. by rewrite Hy.
Qed.

Lemma array_equal_false (xs ys : list F) :
  length xs = length ys → array_equal xs ys = false → xs ≠ [].
Proof.
  intros Hl E ->. destruct ys; [|done]. unfold array_equal in E. done.
Qed.
End EdgesClosed.


(** X7.  When no sample has a layer code above the threshold,
    [_get_depth_bin_edges] raises [IndexError]: both filtered arrays are
    empty, they compare equal, and the last maximum depth is read from an
    empty array. *)
Theorem depth_edges_no_sample {F : Type} `{Arith F} (self : GSFile F)
    (min_layer : Z) (h : heap F) (mind maxd lay : list F) :
  h !! min_depth self = Some (Vec mind) →
  h !! max_depth self = Some (Vec maxd) →
  h !! layer self = Some (Vec lay) →
  length mind = length lay → length maxd = length lay →
  Forall (λ l, fltb (of_Z min_layer) l = false) lay →
  _get_depth_bin_edges self min_layer h = Raise IndexError.
Proof.
  intros Hmin Hmax Hlay Hl1 Hl2 Hnone.
  rewrite (depth_edges_run self min_layer h mind maxd lay) by done.
  assert (Hm : Forall (λ b : bool, b = false) (layer_gt min_layer lay)).
  { unfold layer_gt. rewrite map_fmap. by apply Forall_fmap. }
  rewrite !select_none by done. reflexivity.
Qed.

Lemma depth_edges_no_sample_witness :
  _get_depth_bin_edges Fixture.buried_record 0 Fixture.buried_store
  = Raise IndexError.
Proof.
  apply (depth_edges_no_sample Fixture.buried_record 0 Fixture.buried_store
           [Sample.f 0; Sample.f 1] [Sample.f 1; Sample.f 2]
           [Sample.f 0; Sample.f (-1)]); try reflexivity.
  repeat constructor.
Defined.

(** X8.  When at least one sample qualifies and every inner boundary of
    the qualifying samples matches, [_get_depth_bin_edges] returns K + 1
    edges and leaves the heap as it was; qualifying sample i starts at edge
    i, and edge i + 1 is its maximum depth or compares equal to it. *)
Theorem depth_edges_contiguous {F : Type} `{Arith F} (self : GSFile F)
    (min_layer : Z) (h : heap F) (mind maxd lay : list F) :
  h !! min_depth self = Some (Vec mind) →
  h !! max_depth self = Some (Vec maxd) →
  h !! layer self = Some (Vec lay) →
  length mind = length lay → length maxd = length lay →
  let min_d := select mind (layer_gt min_layer lay) in
  let max_d := select maxd (layer_gt min_layer lay) in
  min_d ≠ [] →
  array_equal (from1 min_d) (but_last max_d) = true →
  ∃ edges, _get_depth_bin_edges self min_layer h = Ok (edges, h)
    ∧ length edges = S (length min_d)
    ∧ ∀ i lo hi, min_d !! i = Some lo → max_d !! i = Some hi →
        edges !! i = Some lo
        ∧ ∃ e, edges !! S i = Some e ∧ (e = hi ∨ feqb e hi = true).
Proof.
  intros Hmin Hmax Hlay Hl1 Hl2 min_d max_d Hne Heq.
  rewrite (depth_edges_run self min_layer h mind maxd lay) by done.
  fold min_d max_d. rewrite Heq.
  assert (Hk : length min_d = length max_d).
  { apply select_same_length. congruence. }
  destruct (last max_d) as [e|] eqn:He; last first.
  { apply last_None in He. rewrite He in Hk. by destruct min_d. }
  unfold getlast. rewrite He. cbn [mbind res_bind mret res_ret].
  exists (min_d ++ [e]). split; [reflexivity|].
  split; [rewrite length_app; simpl; lia|].
  intros i lo hi Hlo Hhi. split; [by apply lookup_app_l_Some|].
  apply array_equal_inv in Heq as [_ Heq].
  destruct (decide (S i < length min_d)%nat) as [Hi|Hi].
  - destruct (lookup_lt_is_Some_2 min_d (S i) Hi) as [n Hn].
    exists n. split; [by apply lookup_app_l_Some|]. right.
    apply (Heq i).
    + unfold from1. by rewrite lookup_drop.
    + rewrite lookup_but_last; [done|lia].
  - exists e. apply lookup_lt_Some in Hlo as Hi'.
    assert (S i = length min_d) as -> by lia.
    split; [by rewrite list_lookup_middle|]. left.
    rewrite last_lookup in He.
    assert (pred (length max_d) = i) as E by lia. rewrite E in He. congruence.
Qed.

Lemma depth_edges_contiguous_witness :
  let mask := layer_gt 0 [Sample.f 1; Sample.f 1; Sample.f 1] in
  let min_d := select [Sample.f 0; Sample.f 1; Sample.f 2] mask in
  let max_d := select [Sample.f 1; Sample.f 2; Sample.f 3] mask in
  ∃ edges,
    _get_depth_bin_edges Sample.even_record 0 Sample.even_store
    = Ok (edges, Sample.even_store)
    ∧ length edges = S (length min_d)
    ∧ ∀ i lo hi, min_d !! i = Some lo → max_d !! i = Some hi →
        edges !! i = Some lo
        ∧ ∃ e, edges !! S i = Some e ∧ (e = hi ∨ feqb e hi = true).
Proof.
  apply (depth_edges_contiguous Sample.even_record 0 Sample.even_store
           [Sample.f 0; Sample.f 1; Sample.f 2]
           [Sample.f 1; Sample.f 2; Sample.f 3]
           [Sample.f 1; Sample.f 1; Sample.f 1]); try reflexivity.
  discriminate.
Defined.

(** X9.  When some inner boundary of the qualifying samples does not
    match, [_get_depth_bin_edges] returns N + 1 edges, N the number of all
    samples: edge 0 is the first qualifying minimum depth, edge i for
    0 < i < K is the inner edge between the qualifying samples i - 1 and i,
    the edges K to N - 1 are left at zero, and edge N is the last qualifying
    maximum depth. *)
Theorem depth_edges_gaps {F : Type} `{Arith F} (self : GSFile F)
    (min_layer : Z) (h : heap F) (mind maxd lay : list F) :
  h !! min_depth self = Some (Vec mind) →
  h !! max_depth self = Some (Vec maxd) →
  h !! layer self = Some (Vec lay) →
  length mind = length lay → length maxd = length lay →
  let min_d := select mind (layer_gt min_layer lay) in
  let max_d := select maxd (layer_gt min_layer lay) in
  array_equal (from1 min_d) (but_last max_d) = false →
  ∃ edges, _get_depth_bin_edges self min_layer h = Ok (edges, h)
    ∧ length edges = S (length mind)
    ∧ edges !! 0%nat = min_d !! 0%nat
    ∧ (∀ i n x, min_d !! S i = Some n → max_d !! i = Some x →
         edges !! S i = Some (inner_edge n x))
    ∧ (∀ i, (length min_d ≤ i < length mind)%nat →
         edges !! i = Some (of_Z 0))
    ∧ edges !! length mind = last max_d.
Proof.
  intros Hmin Hmax Hlay Hl1 Hl2 min_d max_d Hneq.
  rewrite (depth_edges_run self min_layer h mind maxd lay) by done.
  fold min_d max_d. rewrite Hneq.
  assert (Hk : length min_d = length max_d).
  { apply select_same_length. congruence. }
  assert (Hkn : (length min_d ≤ length mind)%nat).
  { unfold min_d. rewrite select_length
      by (unfold layer_gt; rewrite length_map; congruence).
    etrans; [apply List.filter_length_le|].
    unfold layer_gt. rewrite length_map. lia. }
  assert (Hk2 : (2 ≤ length min_d)%nat).
  { apply array_equal_false in Hneq.
    - unfold from1 in Hneq. destruct min_d as [|? [|? ?]]; simpl in *; try done.
      lia.
    - unfold from1. rewrite length_drop, length_but_last. lia. }
  destruct (lookup_lt_is_Some_2 min_d 0%nat) as [d0 Hd0]; [lia|].
  destruct (last max_d) as [e|] eqn:He; last first.
  { apply last_None in He. rewrite He in Hk. simpl in Hk. lia. }
  rewrite (getitem_ok _ _ _ Hd0). cbn [mbind res_bind].
  set (N := length mind) in *.
  assert (Hz : length (zeros (F:=F) (N + 1)) = S N).
  { unfold zeros. rewrite length_replicate. lia. }
  rewrite setitem_ok by lia. cbn [mbind res_bind].
  unfold getlast. rewrite He. cbn [mbind res_bind].
  unfold set_last. rewrite length_insert, Hz. cbn [mbind res_bind].
  set (start := <[N:=e]> (<[0%nat:=d0]> (zeros (N + 1)))).
  assert (Hp : length (zip (from1 min_d) (but_last max_d))
               = (length min_d - 1)%nat).
  { rewrite length_zip_with. unfold from1.
    rewrite length_drop, length_but_last. lia. }
  destruct (edges_loop_run (zip (from1 min_d) (but_last max_d)) 0 start)
    as (edges & Hrun & Hl & Hout & Hin).
  { unfold start. rewrite !length_insert, Hz, Hp. lia. }
  exists edges. rewrite Hrun. split; [reflexivity|].
  assert (Hs : length start = S N).
  { unfold start. by rewrite !length_insert. }
  split; [congruence|]. split; [|split; [|split]].
  - rewrite Hout by lia. unfold start.
    rewrite list_lookup_insert_ne by lia.
    rewrite list_lookup_insert_eq by lia. done.
  - intros i n x Hn Hx. apply (Hin i n x).
    rewrite lookup_zip_with. unfold from1. rewrite lookup_drop. simpl.
    rewrite Hn. simpl. apply lookup_lt_Some in Hn.
    rewrite lookup_but_last by lia. by rewrite Hx.
  - intros i Hi. rewrite Hout by (rewrite Hp; lia). unfold start.
    rewrite list_lookup_insert_ne by lia.
    rewrite list_lookup_insert_ne by lia.
    unfold zeros. apply lookup_replicate_2. lia.
  - rewrite Hout by (rewrite Hp; lia). unfold start.
    rewrite list_lookup_insert_eq by (rewrite length_insert; lia). done.
Qed.

Lemma depth_edges_gaps_witness :
  let mind := [Sample.f 0; Sample.f 1; B64.mk 5 (-1)] in
  let mask := layer_gt 0 [Sample.f 0; Sample.f 1; Sample.f 1] in
  let min_d := select mind mask in
  let max_d := select [Sample.f 1; Sample.f 2; B64.mk 7 (-1)] mask in
  ∃ edges,
    _get_depth_bin_edges Fixture.gapped_record 0 Fixture.gapped_store
    = Ok (edges, Fixture.gapped_store)
    ∧ length edges = S (length mind)
    ∧ edges !! 0%nat = min_d !! 0%nat
    ∧ (∀ i n x, min_d !! S i = Some n → max_d !! i = Some x →
         edges !! S i = Some (inner_edge n x))
    ∧ (∀ i, (length min_d ≤ i < length mind)%nat →
         edges !! i = Some (of_Z 0))
    ∧ edges !! length mind = last max_d.
Proof.
  apply (depth_edges_gaps Fixture.gapped_record 0 Fixture.gapped_store
           [Sample.f 0; Sample.f 1; B64.mk 5 (-1)]
           [Sample.f 1; Sample.f 2; B64.mk 7 (-1)]
           [Sample.f 0; Sample.f 1; Sample.f 1]); reflexivity.
Defined.

(** ** Units and the availability of phi *)

Section Units.
Context {F : Type} `{Arith F}.
Variable np_log2 : F → F.
Implicit Types h : heap F.

Lemma convert_bins_to_phi_some u (k : option F) bins h o h1 :
  _convert_bins_to_phi np_log2 u k bins h = Ok (o, h1) →
  (is_Some o ↔ u = "phi" ∨ u = "mm" ∨ (u = "pixels" ∧ is_Some k))
  ∧ (u = "phi" → o = Some bins).
Proof.
  unfold _convert_bins_to_phi. intros E.
  destruct (decide (u = "phi")) as [->|Hphi].
  { apply ret_inv in E as [-> _]. split; [|done]. split; eauto. }
  split; [|done].
  destruct (decide (u = "phi mid")) as [->|Hmid].
  { apply ret_inv in E as [-> _]. split; [by intros []|].
    intros [?|[?|[? _]]]; done. }
  destruct (decide (u = "psi")) as [->|Hpsi].
  { apply ret_inv in E as [-> _]. split; [by intros []|].
    intros [?|[?|[? _]]]; done. }
  destruct (decide (u = "mm")) as [->|Hmm].
  { repeat minv E. apply ret_inv in E as [-> _]. split; eauto. }
  destruct (decide (u = "pixels")) as [->|Hpix], k as [k|].
  - repeat minv E. apply ret_inv in E as [-> _]. split; eauto.
  - apply ret_inv in E as [-> _]. split; [by intros []|].
    intros [?|[?|[_ []]]]; done.
  - apply ret_inv in E as [-> _]. split; [by intros []|].
    intros [?|[?|[? _]]]; done.
  - apply ret_inv in E as [-> _]. split; [by intros []|].
    intros [?|[?|[? _]]]; done.
Qed.

Lemma convert_bins_to_phi_mid_some u bins (o : option loc) h o' h1 :
  _convert_bins_to_phi_mid u bins o h = Ok (o', h1) →
  (is_Some o' ↔ u = "phi mid" ∨ is_Some o)
  ∧ (u = "phi mid" → o' = Some bins).
Proof.
  unfold _convert_bins_to_phi_mid. intros E.
  destruct (decide (u = "phi mid")) as [->|Hmid].
  { apply ret_inv in E as [-> _]. split; [|done]. split; eauto. }
  split; [|done]. destruct o as [p|].
  - repeat minv E. apply ret_inv in E as [-> _]. split; eauto.
  - apply ret_inv in E as [-> _]. split; [by intros []|].
    intros [?|[]]; done.
Qed.

Lemma phi_mid_of_short (phi : list F) :
  (length phi < 2)%nat → phi_mid_of phi = Raise IndexError.
Proof.
  destruct phi as [|p0 [|p1 phi]]; simpl; intros Hl; try done. lia.
Qed.

(** the phi edges, when the unit converts: an array as long as [bins] *)
Lemma convert_bins_to_phi_edges u (k : option F) bins h (col0 : list F) :
  u = "phi" ∨ u = "mm" ∨ (u = "pixels" ∧ is_Some k) →
  h !! bins = Some (Vec col0) →
  ∃ p h1 phi, _convert_bins_to_phi np_log2 u k bins h = Ok (Some p, h1)
    ∧ h1 !! p = Some (Vec phi) ∧ length phi = length col0
    ∧ u ≠ "phi mid".
Proof.
  intros Hu Hb. unfold _convert_bins_to_phi.
  destruct (decide (u = "phi")) as [->|Hphi].
  { exists bins, h, col0. done. }
  destruct (decide (u = "phi mid")) as [->|Hmid].
  { destruct Hu as [?|[?|[? _]]]; done. }
  destruct (decide (u = "psi")) as [->|Hpsi].
  { destruct Hu as [?|[?|[? _]]]; done. }
  destruct (decide (u = "mm")) as [->|Hmm].
  { rewrite run_bind, (run_load_vec _ _ _ Hb). unfold alloc. rewrite run_bind.
    eexists _, _, _. split; [reflexivity|].
    split; [by rewrite list_lookup_middle|]. by rewrite length_map. }
  destruct Hu as [?|[?|[-> [x ->]]]]; try done.
  rewrite decide_True by done.
  rewrite run_bind, (run_load_vec _ _ _ Hb). unfold alloc. rewrite run_bind.
  eexists _, _, _. split; [reflexivity|].
  split; [by rewrite list_lookup_middle|]. by rewrite length_map.
Qed.

Lemma comprehension_total {A B} (f : A → res B) xs :
  Forall (λ x, ∃ y, f x = Ok y) xs → ∃ ys, comprehension f xs = Ok ys.
Proof.
  induction 1 as [|x xs [y Hy] _ [ys IH]]; simpl; [by eexists|].
  rewrite Hy. cbn [mbind res_bind]. rewrite IH. by eexists.
Qed.

Lemma init_tail_short_bins (a : Header F) n temp col0 h codes :
  h !! h_layer_type a = Some (Vec codes) →
  Forall (λ x, is_Some (label_of (h_layer_type_lookup a) x)) codes →
  temp !! 0%nat = Some col0 → (length col0 < 2)%nat →
  h_bin_units a = "phi" ∨ h_bin_units a = "mm"
  ∨ (h_bin_units a = "pixels" ∧ is_Some (h_mm_pix a)) →
  init_tail np_log2 a n temp h = Raise IndexError.
Proof.
  intros Hc Hlab Ht Hlen Hu. unfold init_tail.
  rewrite run_bind, (run_load_vec _ _ _ Hc), run_bind, run_lift.
  destruct (comprehension_total (lookup_label (h_layer_type_lookup a)) codes)
    as [strings ->].
  { eapply Forall_impl; [exact Hlab|]. intros x [s Hs]. exists s.
    by rewrite lookup_label_eq, Hs. }
  rewrite run_bind, run_lift, (getitem_ok _ _ _ Ht).
  rewrite run_bind. unfold alloc at 1. cbv beta iota. rewrite run_bind.
  destruct (convert_bins_to_phi_edges (h_bin_units a) (h_mm_pix a) (length h)
              (h ++ [Vec col0]) col0 Hu)
    as (p & h1 & phi & -> & Hp & Hl & Hmid);
    [by rewrite list_lookup_middle|].
  cbv beta iota. rewrite !run_bind. unfold _convert_bins_to_phi_mid.
  rewrite decide_False by done.
  rewrite run_bind, (run_load_vec _ _ _ Hp), run_bind, run_lift.
  by rewrite phi_mid_of_short by lia.
Qed.
End Units.

(** X10.  On a constructed record the phi edges are available exactly for
    the units 'phi', 'mm' and 'pixels' with a scale factor, and the phi
    midpoints exactly for these and 'phi mid'.  For 'phi' the edges are the
    very array [bins], for 'phi mid' the midpoints are.  For every other
    unit, and for 'pixels' without a scale factor, [bulk_mean] returns
    not-a-number. *)
Theorem phi_available_units {F : Type} `{Arith F} (np_log2 : F → F)
    (a : Header F) (n : nat) (temp : list (list F)) (h h' : heap F)
    (self : GSFile F) :
  init_tail np_log2 a n temp h = Ok (self, h') →
  let u := h_bin_units a in
  let converts := u = "phi" ∨ u = "mm" ∨ (u = "pixels" ∧ is_Some (h_mm_pix a)) in
  (is_Some (bins_phi self) ↔ converts)
  ∧ (is_Some (bins_phi_mid self) ↔ u = "phi mid" ∨ converts)
  ∧ (u = "phi" → bins_phi self = Some (bins self))
  ∧ (u = "phi mid" → bins_phi_mid self = Some (bins self))
  ∧ (¬ (u = "phi mid" ∨ converts) →
     ∀ rng h'', bulk_mean self rng h'' = Ok (fnan, h'')).
Proof.
  intros E u converts. unfold init_tail in E.
  mstep E as codes h1 E1. mstep E as strings h2 E2.
  mstep E as col0 h3 E3. mstep E as bins h4 E4.
  mstep E as o h5 E5. mstep E as o' h6 E6.
  repeat minv E. apply ret_inv in E as [-> _]. simpl.
  apply convert_bins_to_phi_some in E5 as [Ho Hphi].
  apply convert_bins_to_phi_mid_some in E6 as [Ho' Hmid].
  fold u in Ho, Hphi, Ho', Hmid. fold converts in Ho.
  assert (Hm : is_Some o' ↔ u = "phi mid" ∨ converts) by (rewrite Ho'; tauto).
  repeat split; try tauto.
  intros Hno rng h''. apply bulk_mean_unavailable. simpl.
  destruct o'; [|done]. exfalso. apply Hno, Hm. eauto.
Qed.

Lemma phi_available_units_witness :
  let self := Sample.even_record in
  let u := "phi mid" in
  let converts := u = "phi" ∨ u = "mm" ∨ (u = "pixels" ∧ is_Some (@None B64.float)) in
  (is_Some (bins_phi self) ↔ converts)
  ∧ (is_Some (bins_phi_mid self) ↔ u = "phi mid" ∨ converts)
  ∧ (u = "phi" → bins_phi self = Some (bins self))
  ∧ (u = "phi mid" → bins_phi_mid self = Some (bins self))
  ∧ (¬ (u = "phi mid" ∨ converts) →
     ∀ rng h'', bulk_mean self rng h'' = Ok (fnan, h'')).
Proof.
  exact (phi_available_units (λ x, x) Sample.even_header 3 Sample.even_temp
           Sample.even_heap Sample.even_store Sample.even_record
           even_record_constructed).
Defined.

(** X11.  Construction fails with [IndexError] on a file whose units
    convert to phi edges ('phi', 'mm', or 'pixels' with a scale factor) and
    that has fewer than two bins: the first midpoint reads the second
    edge. *)
Theorem init_single_bin_fails {F : Type} `{Arith F} (np_log2 : F → F)
    (a : Header F) (n : nat) (temp : list (list F)) (col0 : list F)
    (h : heap F) (codes : list F) :
  h !! h_layer_type a = Some (Vec codes) →
  Forall (λ x, is_Some (label_of (h_layer_type_lookup a) x)) codes →
  temp !! 0%nat = Some col0 → (length col0 < 2)%nat →
  h_bin_units a = "phi" ∨ h_bin_units a = "mm"
  ∨ (h_bin_units a = "pixels" ∧ is_Some (h_mm_pix a)) →
  init_tail np_log2 a n temp h = Raise IndexError.
Proof. apply init_tail_short_bins. Qed.

Lemma init_single_bin_fails_witness :
  init_tail (λ x, x) Fixture.single_bin_header 1 Fixture.single_bin_temp
    Fixture.single_bin_heap = Raise IndexError.
Proof.
  apply (init_single_bin_fails (λ x, x) Fixture.single_bin_header 1
           Fixture.single_bin_temp [Sample.f 1] Fixture.single_bin_heap
           [Sample.f 1]).
  - reflexivity.
  - repeat constructor. by eexists.
  - reflexivity.
  - simpl. lia.
  - left. reflexivity.
Defined.

(** ** The spreadsheet reader *)

Section Strings.
Implicit Types s w : string.

Lemma str_split_nonempty sep s : str_split sep s ≠ [].
Proof.
  destruct s as [|c s]; simpl; [done|].
  destruct (Ascii.eqb c sep); [done|]. by destruct (str_split sep s).
Qed.

Lemma str_join_cons sep w (ws : list string) :
  ws ≠ [] → str_join sep (w :: ws) = w +:+ sep +:+ str_join sep ws.
Proof. by destruct ws. Qed.

Lemma str_join_push sep c w (ws : list string) :
  str_join sep (String c w :: ws) = String c (str_join sep (w :: ws)).
Proof. by destruct ws. Qed.

(** joining the pieces of a string with the separator gives it back *)
Lemma join_split (sep : ascii) s :
  str_join (String sep EmptyString) (str_split sep s) = s.
Proof.
  induction s as [|c s IH]; [done|]. simpl.
  destruct (Ascii.eqb c sep) eqn:Ec.
  - apply Ascii.eqb_eq in Ec as ->.
    rewrite str_join_cons by apply str_split_nonempty. simpl. by rewrite IH.
  - destruct (str_split sep s) as [|w ws] eqn:Es.
    { by apply str_split_nonempty in Es. }
    rewrite str_join_push. by rewrite IH.
Qed.

Lemma str_split_plain sep w :
  has_char sep w = false → str_split sep w = [w].
Proof.
  induction w as [|c w IH]; simpl; [done|]. intros Hc.
  apply orb_false_iff in Hc as [Hc Hw]. rewrite Hc, IH; done.
Qed.

Lemma str_split_app sep w s :
  has_char sep w = false →
  str_split sep (w +:+ String sep s) = w :: str_split sep s.
Proof.
  induction w as [|c w IH]; simpl; intros Hc.
  - by rewrite Ascii.eqb_refl.
  - apply orb_false_iff in Hc as [Hc Hw]. rewrite Hc, IH; done.
Qed.

(** splitting what was joined gives the pieces back, when none of them
    holds the separator *)
Lemma split_join (sep : ascii) (ws : list string) :
  ws ≠ [] → Forall (λ w, has_char sep w = false) ws →
  str_split sep (str_join (String sep EmptyString) ws) = ws.
Proof.
  intros Hne Hws. induction Hws as [|w ws Hw Hws IH]; [done|].
  destruct ws as [|w' ws]; [by apply str_split_plain|].
  rewrite str_join_cons by done.
  change (String sep EmptyString +:+ ?x) with (String sep x).
  rewrite str_split_app by done. by rewrite IH.
Qed.
End Strings.

Section Lists.
Context {A : Type} `{EqDecision A}.

Lemma list_index_middle (pre post : list A) x :
  x ∉ pre → list_index (pre ++ x :: post) x = Ok (length pre).
Proof.
  induction pre as [|y pre IH]; simpl; intros Hx.
  - by rewrite decide_True.
  - apply not_elem_of_cons in Hx as [Hy Hx].
    rewrite decide_False by done. by rewrite IH.
Qed.

Lemma list_index_elem (l : list A) x :
  x ∈ l → ∃ k, list_index l x = Ok k ∧ (k < length l)%nat.
Proof.
  induction l as [|y l IH]; intros Hx; [by apply elem_of_nil in Hx|].
  simpl. destruct (decide (y = x)) as [->|Hy].
  - exists 0%nat. split; [done|]. simpl. lia.
  - apply elem_of_cons in Hx as [->|Hx]; [done|].
    destruct (IH Hx) as (k & -> & Hk). exists (S k). split; [done|].
    simpl. lia.
Qed.
End Lists.

Lemma for_enum_app {A St} (body : St → nat → A → res St) (xs ys : list A) :
  ∀ ii s,
  for_enum body ii (xs ++ ys) s
  = s' ← for_enum body ii xs s; for_enum body (ii + length xs) ys s'.
Proof.
  induction xs as [|x xs IH]; intros ii s; simpl.
  - by rewrite Nat.add_0_r.
  - destruct (body s ii x) as [s1|e]; cbn [mbind res_bind]; [|done].
    rewrite IH. by replace (S ii + length xs)%nat with (ii + S (length xs))%nat by lia.
Qed.

Section LayerNumbers.
Variable names : list string.

Lemma numbered_snoc nums v :
  numbered names nums → (length nums < length names)%nat →
  (length nums = 0%nat → v = 1) →
  (∀ i a b k, S i = length nums → names !! i = Some a →
     names !! S i = Some b → nums !! i = Some k →
     v = if decide (b = a) then k + 1 else 1) →
  numbered names (nums ++ [v]).
Proof.
  intros (Hl & H0 & Hrec & Hb) Hlt Hv0 Hv. split; [|split; [|split]].
  - rewrite length_app. simpl. lia.
  - intros k Hk. destruct nums as [|x nums]; simpl in *.
    + simplify_eq. by apply Hv0.
    + by apply H0.
  - intros i a b k k' Ha Hb' Hk Hk'.
    destruct (decide (S i < length nums)%nat) as [Hi|Hi].
    + rewrite lookup_app_l in Hk, Hk' by lia. by eapply Hrec.
    + apply lookup_lt_Some in Hk' as Hi'. rewrite length_app in Hi'.
      simpl in Hi'. assert (S i = length nums) as Hs by lia.
      rewrite lookup_app_l in Hk by lia.
      rewrite Hs, list_lookup_middle in Hk' by done. simplify_eq.
      by eapply Hv.
  - intros i k Hk. destruct (decide (i < length nums)%nat) as [Hi|Hi].
    + rewrite lookup_app_l in Hk by lia. by apply Hb.
    + apply lookup_lt_Some in Hk as Hi'. rewrite length_app in Hi'.
      simpl in Hi'. assert (i = length nums) as -> by lia.
      rewrite list_lookup_middle in Hk by done. simplify_eq.
      destruct (decide (length nums = 0)%nat) as [Hz|Hz].
      * rewrite (Hv0 Hz). lia.
      * destruct (lookup_lt_is_Some_2 names (length nums - 1)) as [a Ha];
          [lia|].
        destruct (lookup_lt_is_Some_2 names (length nums)) as [b Hb'];
          [lia|].
        destruct (lookup_lt_is_Some_2 nums (length nums - 1)) as [p Hp];
          [lia|].
        replace (length nums) with (S (length nums - 1)) in Hb' by lia.
        rewrite (Hv (length nums - 1)%nat a b p) by (done || lia).
        apply Hb in Hp. destruct (decide (b = a)); lia.
Qed.

Lemma layernum_step nums n :
  numbered names nums → names !! length nums = Some n →
  ∃ v, layernum_body names nums (length nums) n = Ok (nums ++ [v])
     ∧ numbered names (nums ++ [v]).
Proof.
  intros Hn Hnn. apply lookup_lt_Some in Hnn as Hlt.
  unfold layernum_body. destruct (decide (length nums = 0)%nat) as [Hz|Hz].
  { exists 1. split; [done|]. apply numbered_snoc; try done.
    intros i a b k Hi. lia. }
  destruct (lookup_lt_is_Some_2 names (length nums - 1)) as [a Ha]; [lia|].
  destruct (lookup_lt_is_Some_2 nums (length nums - 1)) as [k Hk]; [lia|].
  rewrite (getitem_ok _ _ _ Ha). cbn [mbind res_bind].
  exists (if decide (n = a) then k + 1 else 1). split.
  { destruct (decide (n = a)); [|done].
    by rewrite (getitem_ok _ _ _ Hk). }
  apply numbered_snoc; try done.
  intros i a' b k' Hi Ha' Hb' Hk'.
  assert (i = length nums - 1)%nat as -> by lia.
  replace (S (length nums - 1)) with (length nums) in Hb' by lia.
  by simplify_eq.
Qed.

Lemma layernum_loop : ∀ todo nums,
  numbered names nums → drop (length nums) names = todo →
  ∃ nums', for_enum (layernum_body names) (length nums) todo nums = Ok nums'
    ∧ length nums' = length names ∧ numbered names nums'.
Proof.
  induction todo as [|n todo IH]; intros nums Hn Hd.
  - exists nums. split; [done|]. split; [|done].
    destruct Hn as (Hl & _). apply (f_equal length) in Hd.
    rewrite length_drop in Hd. simpl in Hd. lia.
  - assert (Hnn : names !! length nums = Some n).
    { rewrite <- (Nat.add_0_r (length nums)), <- lookup_drop, Hd. done. }
    destruct (layernum_step nums n Hn Hnn) as (v & Hv & Hn').
    cbn [for_enum]. rewrite Hv. cbn [mbind res_bind].
    destruct (IH (nums ++ [v])) as (nums' & Hrun & Hres); [done| |].
    { rewrite length_app. simpl.
      replace (length nums + 1)%nat with (S (length nums)) by lia.
      erewrite drop_S in Hd by done. by simplify_eq. }
    exists nums'. split; [|done].
    rewrite length_app in Hrun. simpl in Hrun.
    by replace (length nums + 1)%nat with (S (length nums)) in Hrun by lia.
Qed.
End LayerNumbers.

(** X12.  The numbering of the layers never fails and gives one number
    per sample: the first sample has number 1, a sample with the trench
    name of the sample before it has the number of that sample plus one,
    any other sample has number 1; every number is at least 1 and at most
    the position of the sample counted from 1. *)
Theorem layer_numbers_total (names : list string) :
  ∃ nums, layer_numbers names = Ok nums
    ∧ length nums = length names
    ∧ (∀ k, nums !! 0%nat = Some k → k = 1)
    ∧ (∀ i a b k, names !! i = Some a → names !! S i = Some b →
         nums !! i = Some k →
         nums !! S i = Some (if decide (b = a) then k + 1 else 1))
    ∧ (∀ i k, nums !! i = Some k → 1 ≤ k ≤ Z.of_nat i + 1).
Proof.
  destruct (layernum_loop names names []) as (nums & Hrun & Hl & Hn).
  { split; [simpl; lia|]. by repeat split. }
  { done. }
  destruct Hn as (_ & H0 & Hrec & Hb).
  exists nums. split; [exact Hrun|]. split; [exact Hl|].
  split; [exact H0|]. split; [|exact Hb].
  intros i a b k Ha Hb' Hk.
  destruct (lookup_lt_is_Some_2 nums (S i)) as [k' Hk'].
  { rewrite Hl. by eapply lookup_lt_Some. }
  rewrite Hk'. f_equal. by eapply Hrec.
Qed.


Section Split.
Implicit Types i : list string.

Lemma find_split_plain (tokens : list string) i : ∀ ii split,
  Forall (λ w, has_char "-" w = false) tokens →
  for_enum (λ split _ s,
              if has_char "-" s then k ← list_index i s; mret (Some k)
              else mret split) ii tokens split
  = Ok split.
Proof.
  induction tokens as [|w ws IH]; intros ii split Hn; [done|].
  apply Forall_cons in Hn as [Hw Hws]. cbn [for_enum]. rewrite Hw.
  cbn [mbind res_bind mret res_ret]. by apply IH.
Qed.

(** in "name a - b" the dash found last is the separate one *)
Lemma find_split_regular (name : list string) a b split :
  Forall (λ w, has_char "-" w = false) name →
  a ≠ "-" → has_char "-" b = false →
  find_split (name ++ [a; "-"; b]) split = Ok (Some (S (length name))).
Proof.
  intros Hn Ha Hb. unfold find_split.
  rewrite for_enum_app, find_split_plain by done. cbn [mbind res_bind].
  cbn [for_enum]. simpl has_char at 2.
  assert (Hdash : list_index (name ++ [a; "-"; b]) "-"
                  = Ok (S (length name))).
  { replace (name ++ [a; "-"; b]) with ((name ++ [a]) ++ "-" :: [b])
      by (by rewrite <- app_assoc).
    rewrite list_index_middle; [by rewrite length_app, Nat.add_1_r|].
    intros Hin. apply elem_of_app in Hin as [Hin|Hin].
    - by apply (Forall_forall _ _) with (x := "-") in Hn.
    - apply list_elem_of_singleton in Hin. done. }
  destruct (has_char "-" a).
  - destruct (list_index _ a) as [k|e] eqn:Ek.
    + cbn [mbind res_bind mret res_ret]. rewrite Hdash.
      cbn [mbind res_bind mret res_ret]. by rewrite Hb.
    + exfalso. destruct (list_index_elem (name ++ [a; "-"; b]) a)
        as (k & Hk & _); [set_solver|congruence].
  - cbn [mbind res_bind mret res_ret]. rewrite Hdash.
    cbn [mbind res_bind mret res_ret]. by rewrite Hb.
Qed.

(** when a token is a dash, [split] is bound after the inner loop *)
Lemma find_split_loop i (todo : list string) : ∀ ii split,
  Forall (λ s, s ∈ i) todo →
  ∃ r, for_enum (λ split _ s,
                   if has_char "-" s then k ← list_index i s; mret (Some k)
                   else mret split) ii todo split = Ok r
     ∧ (is_Some split ∨ "-" ∈ todo → is_Some r).
Proof.
  induction todo as [|s todo IH]; intros ii split Hin.
  - exists split. split; [done|]. intros [?|Hd]; [done|].
    by apply elem_of_nil in Hd.
  - apply Forall_cons in Hin as [Hs Hin]. cbn [for_enum].
    destruct (has_char "-" s) eqn:Hc.
    + destruct (list_index_elem i s Hs) as (k & -> & _).
      cbn [mbind res_bind mret res_ret].
      destruct (IH (S ii) (Some k) Hin) as (r & -> & Hr).
      exists r. split; [done|]. intros _. apply Hr. eauto.
    + cbn [mbind res_bind mret res_ret].
      destruct (IH (S ii) split Hin) as (r & -> & Hr).
      exists r. split; [done|]. intros [?|Hd]; [eauto|].
      apply elem_of_cons in Hd as [<-|Hd]; [done|eauto].
Qed.

Lemma find_split_bound i split :
  "-" ∈ i → ∃ k, find_split i split = Ok (Some k).
Proof.
  intros Hd. destruct (find_split_loop i i 0 split) as (r & Hr & Hs).
  { by apply Forall_forall. }
  destruct Hs as [k ->]; eauto.
Qed.
End Split.

Section Ids.
Context {F : Type} `{Arith F}.
Variable float : string → res F.
Implicit Types st : ids_state F.

Lemma py_getitem_nat {A} (a : list A) (k : nat) :
  py_getitem a (Z.of_nat k) = getitem a k.
Proof.
  unfold py_getitem. rewrite (proj2 (Z.leb_le _ _)) by lia.
  by rewrite Nat2Z.id.
Qed.

Lemma py_slice_to_nat {A} (a : list A) (k : nat) :
  py_slice_to a (Z.of_nat k) = take k a.
Proof.
  unfold py_slice_to. rewrite (proj2 (Z.leb_le _ _)) by lia.
  by rewrite Nat2Z.id.
Qed.

Lemma ids_body_plain split Mi Ma T (i : list string) :
  "-" ∉ i →
  ids_body float (split, Mi, Ma, T) i
  = Return (split, Mi ++ [DepthText "nan"], Ma ++ [DepthText "nan"],
            T ++ [str_join " " i]).
Proof. intros Hn. unfold ids_body. by rewrite bool_decide_eq_false_2. Qed.

Lemma ids_body_regular split Mi Ma T (name : list string) a b x y :
  Forall (λ w, has_char "-" w = false) name →
  a ≠ "-" → has_char "-" b = false →
  float a = Ok x → float b = Ok y →
  ids_body float (split, Mi, Ma, T) (name ++ [a; "-"; b])
  = Return (Some (S (length name)), Mi ++ [Depth x], Ma ++ [Depth y],
            T ++ [str_join " " name]).
Proof.
  intros Hn Ha Hb Hx Hy. unfold ids_body.
  rewrite bool_decide_eq_true_2 by set_solver.
  rewrite find_split_regular by done. cbn [from_res mbind outcome_bind].
  replace (Z.of_nat (S (length name)) - 1) with (Z.of_nat (length name))
    by lia.
  replace (Z.of_nat (S (length name)) + 1)
    with (Z.of_nat (S (S (length name)))) by lia.
  rewrite !py_getitem_nat, py_slice_to_nat.
  rewrite (getitem_ok _ (length name) a) by (by apply list_lookup_middle).
  cbn [mbind res_bind]. rewrite Hx. cbn [from_res mbind outcome_bind].
  rewrite (getitem_ok _ (S (S (length name))) b); last first.
  { replace (name ++ [a; "-"; b]) with ((name ++ [a; "-"]) ++ [b])
      by (by rewrite <- app_assoc).
    apply list_lookup_middle. rewrite length_app. simpl. lia. }
  cbn [mbind res_bind]. rewrite Hy. cbn [from_res mbind outcome_bind].
  by rewrite take_app_length.
Qed.

(** one identifier, as text *)
Lemma ids_body_parsed split Mi Ma T s out :
  parsed float s out →
  ∃ split', ids_body float (split, Mi, Ma, T) (str_split " " s)
            = Return (split', Mi ++ [out.1.2], Ma ++ [out.2], T ++ [out.1.1]).
Proof.
  intros [s' Hn|name a b x y Hname Ha Has Hb Hbs Hx Hy]; cbn [fst snd].
  - exists split. rewrite ids_body_plain by done. by rewrite join_split.
  - eexists. rewrite split_join.
    + apply ids_body_regular; try done.
      eapply Forall_impl; [exact Hname|]. by intros w [? ?].
    + by destruct name.
    + apply Forall_app. split.
      * eapply Forall_impl; [exact Hname|]. by intros w [? ?].
      * repeat constructor; done.
Qed.

Lemma ids_loop_parsed (ss : list string) : ∀ outs split Mi Ma T,
  Forall2 (parsed float) ss outs →
  ∃ split', for_each (ids_body float) (map (str_split " ") ss)
              (split, Mi, Ma, T)
            = Return (split', Mi ++ map (λ o, o.1.2) outs,
                      Ma ++ map (λ o, o.2) outs, T ++ map (λ o, o.1.1) outs).
Proof.
  induction ss as [|s ss IH]; intros outs split Mi Ma T Hp.
  - apply Forall2_nil_inv_l in Hp as ->. exists split. simpl.
    by rewrite !app_nil_r.
  - apply Forall2_cons_inv_l in Hp as (out & outs' & Hout & Hp & ->).
    destruct (ids_body_parsed split Mi Ma T s out Hout) as [split1 Hstep].
    cbn [List.map for_each]. rewrite Hstep. cbn [mbind outcome_bind].
    destruct (IH outs' split1 (Mi ++ [out.1.2]) (Ma ++ [out.2])
                (T ++ [out.1.1]) Hp) as [split' ->].
    exists split'. cbn [List.map]. by rewrite <- !app_assoc.
Qed.

Lemma find_end_texts (ss : list string) r rest : ∀ idx,
  find_end idx (map Text ss ++ Number r :: rest) = Some (idx + length ss)%nat.
Proof.
  induction ss as [|s ss IH]; intros idx; simpl.
  - by rewrite Nat.add_0_r.
  - rewrite IH. f_equal. lia.
Qed.

(** the lists grow together, and [split] is never read unbound *)
Lemma ids_body_shape st (i : list string) :
  match ids_body float st i with
  | Return (_, Mi', Ma', T') =>
      length Mi' = S (length st.1.1.2) ∧ length Ma' = S (length st.1.2)
      ∧ length T' = S (length st.2)
  | Throw _ => True
  | Unbound _ => False
  end.
Proof.
  destruct st as [[[split Mi] Ma] T]. unfold ids_body.
  case_bool_decide as Hd; last first.
  { simpl. rewrite !length_app. simpl. lia. }
  destruct (find_split_bound i split Hd) as [k ->].
  cbn [from_res mbind outcome_bind].
  destruct (py_getitem i (Z.of_nat k - 1)) as [a|e]; [|done].
  cbn [mbind res_bind]. destruct (float a) as [x|e]; [|done].
  cbn [from_res mbind outcome_bind].
  destruct (py_getitem i (Z.of_nat k + 1)) as [b|e]; [|done].
  cbn [mbind res_bind]. destruct (float b) as [y|e]; [|done].
  cbn [from_res mbind outcome_bind]. simpl. rewrite !length_app. simpl. lia.
Qed.

Lemma ids_loop_shape (ids : list (list string)) : ∀ st,
  match for_each (ids_body float) ids st with
  | Return (_, Mi', Ma', T') =>
      length Mi' = (length st.1.1.2 + length ids)%nat
      ∧ length Ma' = (length st.1.2 + length ids)%nat
      ∧ length T' = (length st.2 + length ids)%nat
  | Throw _ => True
  | Unbound _ => False
  end.
Proof.
  induction ids as [|i ids IH]; intros st.
  - destruct st as [[[split Mi] Ma] T]. simpl. lia.
  - cbn [for_each]. pose proof (ids_body_shape st i) as Hs.
    destruct (ids_body float st i) as [[[[split1 Mi1] Ma1] T1]|e|name];
      cbn [mbind outcome_bind]; [|done..].
    specialize (IH (split1, Mi1, Ma1, T1)).
    destruct (for_each _ _ _) as [[[[split2 Mi2] Ma2] T2]|e|name];
      [|done..].
    simpl in *. lia.
Qed.

Lemma find_end_none (cells : list cell) : ∀ idx,
  find_end idx cells = None ↔ Forall (λ c, ∃ s, c = Text s) cells.
Proof.
  induction cells as [|[s|s] cells IH]; intros idx; simpl.
  - split; [constructor|done].
  - rewrite IH. split.
    + intros Hc. constructor; eauto.
    + by inversion 1.
  - split; [done|]. inversion 1 as [|? ? [s' ?]]. done.
Qed.

Lemma find_end_some (cells : list cell) : ∀ idx e,
  find_end idx cells = Some e →
  (idx ≤ e)%nat ∧ (e - idx < length cells)%nat
  ∧ (∃ s, cells !! (e - idx)%nat = Some (Number s))
  ∧ length (take (e - idx) cells) = (e - idx)%nat.
Proof.
  induction cells as [|[s|s] cells IH]; intros idx e He; simpl in He.
  - done.
  - apply IH in He as (Hle & Hlt & [s' Hs] & Ht).
    replace (e - idx)%nat with (S (e - S idx)) by lia.
    simpl. repeat split; try lia; eauto.
  - simplify_eq. rewrite Nat.sub_diag. simpl. repeat split; try lia. eauto.
Qed.
End Ids.

(** X13.  The scan of the sample identifiers raises [NameError] (for the
    name [end], never for [split]) exactly when no cell of the first column
    is a float; and when it returns, the trench names and the two lists of
    depths have one entry for each cell before the first float cell. *)
Theorem sample_ids_shape {F : Type} `{Arith F} (float : string → res F)
    (cells : list cell) :
  (∀ name, sample_ids float cells = Unbound name
           ↔ name = "end" ∧ Forall (λ c, ∃ s, c = Text s) cells)
  ∧ (∀ T Mi Ma, sample_ids float cells = Return (T, Mi, Ma) →
       ∃ e s, find_end 0 cells = Some e ∧ cells !! e = Some (Number s)
            ∧ length T = e ∧ length Mi = e ∧ length Ma = e).
Proof.
  unfold sample_ids. destruct (find_end 0 cells) as [e|] eqn:He.
  - apply find_end_some in He as (_ & Hlt & [s Hs] & Ht).
    rewrite Nat.sub_0_r in *.
    pose proof (ids_loop_shape float
                  (map (λ c, str_split " " (cell_str c)) (take e cells))
                  (None, [], [], [])) as Hshape.
    destruct (for_each _ _ _) as [[[[split Mi] Ma] T]|err|name];
      cbn [mbind outcome_bind]; [| |done].
    + rewrite length_map, Ht in Hshape. simpl in Hshape. split.
      * intros name. split; [done|]. intros [_ Hall].
        apply (Forall_lookup_1 _ _ _ _ Hall) in Hs as [s' ?]. done.
      * intros T' Mi' Ma' E. simplify_eq. exists e, s.
        repeat split; try done; lia.
    + split; [|done]. intros name. split; [done|]. intros [_ Hall].
      apply (Forall_lookup_1 _ _ _ _ Hall) in Hs as [s' ?]. done.
  - apply find_end_none in He. split; [|done].
    intros name. split; [intros ?; by simplify_eq|]. by intros [-> _].
Qed.

(** X14.  When each identifier before the first float cell either has no
    token that is a dash, or is "NAME a - b" with tokens free of spaces, a
    name free of dashes, b free of dashes, and a and b accepted by [float]:
    the scan returns, for the first kind, the whole identifier as trench
    name and the string 'nan' for both depths (also for a text such as
    "T1 10-12"), and for the second kind the name, [float(a)] and
    [float(b)]. *)
Theorem sample_ids_parsed {F : Type} `{Arith F} (float : string → res F)
    (ss : list string) (outs : list (string * depth F * depth F))
    (r : string) (rest : list cell) :
  Forall2 (parsed float) ss outs →
  sample_ids float (map Text ss ++ Number r :: rest)
  = Return (map (λ o, o.1.1) outs, map (λ o, o.1.2) outs,
            map (λ o, o.2) outs).
Proof.
  intros Hp. unfold sample_ids.
  pose proof (find_end_texts ss r rest 0) as He. simpl in He. rewrite He.
  rewrite take_app_length' by (by rewrite length_map).
  rewrite map_map, (map_ext _ (str_split " "%char)) by done.
  destruct (ids_loop_parsed float ss outs None [] [] [] Hp) as [split' Hrun].
  simpl in Hrun. rewrite Hrun. reflexivity.
Qed.

Lemma sample_ids_parsed_witness :
  sample_ids Text.float
    (map Text ["T1 10 - 12"; "T1 10-12"] ++ Number "nan" :: [])
  = Return (["T1"; "T1 10-12"],
            [Depth (Sample.f 10); DepthText "nan"],
            [Depth (Sample.f 12); DepthText "nan"]).
Proof.
  apply (sample_ids_parsed Text.float ["T1 10 - 12"; "T1 10-12"]
           [("T1", Depth (Sample.f 10), Depth (Sample.f 12));
            ("T1 10-12", DepthText "nan", DepthText "nan")]).
  constructor; [|constructor; [|constructor]].
  - apply (parsed_regular Text.float ["T1"] "10" "12").
    + repeat constructor.
    + discriminate.
    + reflexivity.
    + reflexivity.
    + reflexivity.
    + reflexivity.
    + reflexivity.
  - apply parsed_plain. change (str_split " " "T1 10-12") with ["T1"; "10-12"].
    intros Hin. apply elem_of_cons in Hin as [Hin|Hin]; [discriminate|].
    apply elem_of_cons in Hin as [Hin|Hin]; [discriminate|].
    by apply elem_of_nil in Hin.
Defined.

Section NoDepths.
Context {F : Type} `{Arith F}.
Variable float np_float64 : string → res F.

Lemma asarray_nan (k : nat) :
  np_float64 "nan" = Ok fnan →
  asarray np_float64 (replicate k (DepthText "nan")) = Ok (replicate k fnan).
Proof.
  intros Hnan. unfold asarray. induction k as [|k IH]; [done|].
  simpl. rewrite Hnan. cbn [mbind res_bind]. by rewrite IH.
Qed.

Lemma plain_parsed (ss : list string) :
  Forall (λ s, "-" ∉ str_split " " s) ss →
  Forall2 (parsed float) ss
    (map (λ s, (s, DepthText "nan", DepthText "nan")) ss).
Proof.
  induction 1 as [|s ss Hs _ IH]; simpl; constructor; [|done].
  by apply parsed_plain.
Qed.
End NoDepths.

(** X20.  When no identifier before the first float cell has a token that
    is a dash, the trench names are the identifiers themselves and, once
    the lists of depths are made arrays, every minimum and maximum depth is
    not-a-number (given that the conversion reads 'nan' as such). *)
Theorem sample_ids_no_depths {F : Type} `{Arith F}
    (float np_float64 : string → res F) (ss : list string) (r : string)
    (rest : list cell) :
  Forall (λ s, "-" ∉ str_split " " s) ss →
  np_float64 "nan" = Ok fnan →
  ∃ MinDepth MaxDepth,
    sample_ids float (map Text ss ++ Number r :: rest)
    = Return (ss, MinDepth, MaxDepth)
    ∧ asarray np_float64 MinDepth = Ok (replicate (length ss) fnan)
    ∧ asarray np_float64 MaxDepth = Ok (replicate (length ss) fnan).
Proof.
  intros Hss Hnan.
  exists (replicate (length ss) (DepthText "nan")),
         (replicate (length ss) (DepthText "nan")).
  split; [|split; by apply asarray_nan].
  unfold sample_ids.
  pose proof (find_end_texts ss r rest 0) as He. simpl in He. rewrite He.
  rewrite take_app_length' by (by rewrite length_map).
  rewrite map_map, (map_ext _ (str_split " "%char)) by done.
  destruct (ids_loop_parsed float ss _ None [] [] [] (plain_parsed float ss Hss))
    as [split' Hrun].
  rewrite Hrun. cbn [mbind outcome_bind app]. rewrite !map_map. simpl.
  f_equal. f_equal; [f_equal|].
  - by rewrite map_id.
  - clear. induction ss as [|s ss IH]; simpl; [done|]. by rewrite IH.
  - clear. induction ss as [|s ss IH]; simpl; [done|]. by rewrite IH.
Qed.

Lemma sample_ids_no_depths_witness :
  ∃ MinDepth MaxDepth,
    sample_ids Text.float (map Text ["T1 10-12"; "T2"] ++ Number "nan" :: [])
    = Return (["T1 10-12"; "T2"], MinDepth, MaxDepth)
    ∧ asarray Text.float MinDepth = Ok (replicate 2 S754_nan)
    ∧ asarray Text.float MaxDepth = Ok (replicate 2 S754_nan).
Proof.
  refine (sample_ids_no_depths Text.float Text.float ["T1 10-12"; "T2"]
            "nan" [] _ _).
  - constructor; [|constructor; [|constructor]].
    + change (str_split " " "T1 10-12") with ["T1"; "10-12"].
      intros Hin. apply elem_of_cons in Hin as [Hin|Hin]; [discriminate|].
      apply elem_of_cons in Hin as [Hin|Hin]; [discriminate|].
      by apply elem_of_nil in Hin.
    + change (str_split " " "T2") with ["T2"].
      intros Hin. apply elem_of_cons in Hin as [Hin|Hin]; [discriminate|].
      by apply elem_of_nil in Hin.
  - reflexivity.
Defined.

(** ** Layer numbers and the bulk distribution *)

Lemma layer_numbers_run (names : list string) :
  ∃ nums, layer_numbers names = Ok nums
        ∧ length nums = length names ∧ numbered names nums.
Proof.
  apply (layernum_loop names names []); [|done].
  split; [simpl; lia|]. by repeat split.
Qed.

Lemma exact_positive (k : Z) :
  1 ≤ k → fltb (of_Z 0) (of_Z k : Exact.xreal) = true.
Proof.
  intros Hk. cbn [fltb of_Z exact_arith]. unfold Exact.ltb, Exact.compare.
  destruct k as [|p|p]; try lia. reflexivity.
Qed.

(** the layer numbers of a spreadsheet all pass the filter [layer > 0] *)
Lemma layer_numbers_qualify (names : list string) (nums : list Z) :
  layer_numbers names = Ok nums →
  Forall (λ b : bool, b = true)
    (layer_gt (F:=Exact.xreal) 0 (map of_Z nums)).
Proof.
  intros E. destruct (layer_numbers_run names) as (nums' & E' & _ & Hn).
  assert (nums' = nums) as -> by congruence.
  destruct Hn as (_ & _ & _ & Hb).
  unfold layer_gt. rewrite map_map, map_fmap. apply Forall_fmap.
  apply Forall_forall. intros k Hk. apply list_elem_of_lookup in Hk as [i Hi].
  apply exact_positive. apply Hb in Hi. lia.
Qed.

(** X15.  The layer numbers that the spreadsheet reader gives are all
    above 0, so on a record whose [layer] holds them every sample passes
    the filter of [bulk_dist]: in exact arithmetic, with complete minimum
    depths and more than one sample, column j is weighted by the thickness
    of sample j itself over the total thickness. *)
Theorem sedlab_weights_aligned (self : GSFile Exact.xreal)
    (h : heap Exact.xreal) (names : list string) (nums : list Z)
    (mind maxd : list Exact.xreal) (n : nat)
    (columns : list (list Exact.xreal)) :
  layer_numbers names = Ok nums →
  h !! layer self = Some (Vec (map of_Z nums)) →
  h !! min_depth self = Some (Vec mind) →
  h !! max_depth self = Some (Vec maxd) →
  h !! dists self = Some (Mat n columns) →
  length names = length columns →
  length maxd = length columns → length mind = length columns →
  existsb isnan mind = false → (1 < length (sample_id self))%nat →
  let diffs := zip_with fsub maxd mind in
  let total := fold_left fadd diffs (of_Z 0) in
  let weighted := zip_with (scale total) columns diffs in
  bulk_dist self h = Ok (rescale (nanmean n weighted), h ++ [Mat n weighted]).
Proof.
  intros E Hlay Hmin Hmax Hd Hl Hmaxl Hminl Hnan Hids.
  destruct (layer_numbers_run names) as (nums' & E' & Hlen & _).
  assert (nums' = nums) as -> by congruence.
  eapply bulk_dist_all_qualify; eauto.
  - rewrite length_map. congruence.
  - by eapply layer_numbers_qualify.
Qed.

Lemma sedlab_weights_aligned_witness :
  let h := two_store (Exact.Fin 1) (Exact.Fin 3) in
  let diffs := zip_with fsub [Exact.Fin 1; Exact.Fin 3]
                 [Exact.Fin 0; Exact.Fin 1] in
  let total := fold_left fadd diffs (of_Z 0) in
  let weighted :=
    zip_with (scale total)
      [[Exact.Fin 1; Exact.Fin 0]; [Exact.Fin 0; Exact.Fin 1]] diffs in
  bulk_dist two_record h
  = Ok (rescale (nanmean 2 weighted), h ++ [Mat 2 weighted]).
Proof.
  apply (sedlab_weights_aligned two_record
           (two_store (Exact.Fin 1) (Exact.Fin 3)) ["T1"; "T2"] [1; 1]);
    try reflexivity.
  simpl. lia.
Defined.

(** ** The header rows of the csv file *)

Section Names.
Lemma lower_char_idemp c : lower_char (lower_char c) = lower_char c.
Proof. destruct c as [[] [] [] [] [] [] [] []]; reflexivity. Qed.

Lemma lower_char_space c : Ascii.eqb (lower_char (underscore c)) " " = false.
Proof. destruct c as [[] [] [] [] [] [] [] []]; reflexivity. Qed.

Lemma attribute_name_no_space s : has_char " " (attribute_name s) = false.
Proof.
  unfold attribute_name. induction s as [|c s IH]; [done|]. simpl.
  fold (underscore c). by rewrite lower_char_space, IH.
Qed.

Lemma attribute_name_lower s :
  map_string lower_char (attribute_name s) = attribute_name s.
Proof.
  unfold attribute_name. induction s as [|c s IH]; [done|]. simpl.
  by rewrite lower_char_idemp, IH.
Qed.
End Names.

Section Loop.
Context {F : Type} `{Arith F}.
Variable np_float64 : string → res F.
Variable numeric_fields : list string.
Variable metadata_rows col_header_rows : Z.
Implicit Types h : heap F.
Implicit Types attrs : gmap string (attr F).

Local Abbreviation row := (header_row np_float64 numeric_fields metadata_rows
                         col_header_rows).
Local Abbreviation scalar := (file_scalar metadata_rows col_header_rows).

(** One row: what it sets, and what it needs. *)
Lemma header_row_inv attrs ii m h attrs' h' :
  row attrs ii m h = Ok (attrs', h') →
  ∃ m0, m !! 0%nat = Some m0
    ∧ ((m0 = "" ∧ attrs' = attrs ∧ h' = h)
       ∨ (m0 ≠ "" ∧ ∃ v, attrs' = <[attribute_name m0:=v]> attrs
          ∧ if bool_decide (m0 ∈ numeric_fields) then
              ∃ att, comprehension (cell_float np_float64) (from1 m) = Ok att
                ∧ if scalar ii then
                    h' = h ∧ ∃ x, att !! 0%nat = Some x ∧ v = Num x
                  else if bool_decide (0 < length att)%nat then
                    h' = h ++ [Vec att] ∧ v = Arr (length h)
                  else h' = h ∧ v = PyNone
            else
              h' = h
              ∧ if scalar ii then
                  ∃ x, from1 m !! 0%nat = Some x ∧ v = Str x
                else if bool_decide (0 < length (from1 m))%nat then
                  v = Strs (from1 m)
                else v = PyNone)).
Proof.
  unfold header_row. intros E.
  mstep E as m0 h1 E1. apply lift_inv in E1 as [-> E1].
  unfold getitem in E1. destruct (m !! 0%nat) as [m0'|] eqn:Hm0; [|done].
  simplify_eq. exists m0. split; [done|].
  case_bool_decide as Hempty.
  { apply ret_inv in E as [-> ->]. by left. }
  right. split; [done|]. case_bool_decide as Hnum.
  - mstep E as att h1 E1. apply lift_inv in E1 as [-> E1].
    destruct (scalar ii).
    + mstep E as x h1 E2. apply lift_inv in E2 as [-> E2].
      apply ret_inv in E as [-> ->]. unfold getitem in E2.
      destruct (att !! 0%nat) as [x'|] eqn:Hx; [|done]. simplify_eq.
      eexists. split; [done|]. exists att. split; [done|]. eauto.
    + case_bool_decide as Hlen.
      * mstep E as l h1 E2. apply alloc_inv in E2 as [-> ->].
        apply ret_inv in E as [-> ->]. eexists. split; [done|].
        exists att. split; [done|]. by rewrite bool_decide_eq_true_2.
      * apply ret_inv in E as [-> ->]. eexists. split; [done|].
        exists att. split; [done|]. by rewrite bool_decide_eq_false_2.
  - destruct (scalar ii).
    + mstep E as x h1 E2. apply lift_inv in E2 as [-> E2].
      apply ret_inv in E as [-> ->]. unfold getitem in E2.
      destruct (from1 m !! 0%nat) as [x'|] eqn:Hx; [|done]. simplify_eq.
      eexists. split; [done|]. eauto.
    + case_bool_decide as Hlen.
      * apply ret_inv in E as [-> ->]. eauto.
      * apply ret_inv in E as [-> ->]. eauto.
Qed.

(** a row only adds to the heap *)
Lemma header_row_heap attrs ii m h attrs' h' :
  row attrs ii m h = Ok (attrs', h') → ∃ new, h' = h ++ new.
Proof.
  intros E. apply header_row_inv in E as (m0 & Hm0 & Hcase).
  destruct Hcase as [(_ & _ & ->)|(_ & v & _ & Hv)].
  { exists []. by rewrite app_nil_r. }
  case_bool_decide.
  - destruct Hv as (att & _ & Hv). destruct (scalar ii).
    + destruct Hv as [-> _]. exists []. by rewrite app_nil_r.
    + case_bool_decide; destruct Hv as [-> _]; eauto.
      exists []. by rewrite app_nil_r.
  - destruct Hv as [-> _]. exists []. by rewrite app_nil_r.
Qed.

Lemma for_enum_heap_app_inv {A St} (body : St → nat → A → M F St)
    (xs ys : list A) : ∀ ii s h s' h',
  for_enum_heap body ii (xs ++ ys) s h = Ok (s', h') →
  ∃ s1 h1, for_enum_heap body ii xs s h = Ok (s1, h1)
         ∧ for_enum_heap body (ii + length xs) ys s1 h1 = Ok (s', h').
Proof.
  induction xs as [|x xs IH]; intros ii s h s' h' E; simpl in E.
  - exists s, h. split; [done|]. simpl. by rewrite Nat.add_0_r.
  - mstep E as s1 h1 E1. apply IH in E as (s2 & h2 & E2 & E3).
    exists s2, h2. split.
    + cbn [for_enum_heap]. by rewrite run_bind, E1.
    + simpl. by replace (ii + S (length xs))%nat with (S ii + length xs)%nat
        by lia.
Qed.

(** The loop only adds buffers, leaves alone the attributes that no row
    names, and needs a first cell in each row and a value in each named
    row that holds one value for the file. *)
Lemma header_loop_frame (rows : list (list string)) : ∀ ii attrs h attrs' h',
  for_enum_heap row ii rows attrs h = Ok (attrs', h') →
  (∃ new, h' = h ++ new)
  ∧ (∀ key, Forall (silent key) rows → attrs' !! key = attrs !! key)
  ∧ (∀ k m, rows !! k = Some m →
       ∃ m0, m !! 0%nat = Some m0
           ∧ (m0 ≠ "" → scalar (ii + k) = true → (2 ≤ length m)%nat)).
Proof.
  induction rows as [|m rows IH]; intros ii attrs h attrs' h' E; simpl in E.
  - apply ret_inv in E as [-> ->]. split; [exists []; by rewrite app_nil_r|].
    split; [done|]. intros k m Hk. done.
  - mstep E as attrs1 h1 E1. apply IH in E as ([new ->] & Hkeys & Hrows).
    destruct (header_row_heap _ _ _ _ _ _ E1) as [new1 ->].
    apply header_row_inv in E1 as (m0 & Hm0 & Hcase).
    split; [|split].
    + exists (new1 ++ new). by rewrite app_assoc.
    + intros key Hs. apply Forall_cons in Hs as [Hm Hs].
      rewrite (Hkeys key Hs). unfold silent in Hm. rewrite Hm0 in Hm.
      destruct Hcase as [(_ & -> & _)|(Hn & v & -> & _)]; [done|].
      apply lookup_insert_ne. destruct Hm; done.
    + intros [|k] m' Hk; simpl in Hk.
      * simplify_eq. exists m0. split; [done|]. intros Hne Hsc.
        rewrite Nat.add_0_r in Hsc.
        destruct Hcase as [(? & _)|(_ & v & _ & Hv)]; [done|].
        rewrite Hsc in Hv. case_bool_decide.
        -- destruct Hv as (att & Hatt & _ & x & Hx & _).
           apply comprehension_ok, Forall2_length in Hatt.
           apply lookup_lt_Some in Hx. unfold from1 in Hatt.
           rewrite length_drop in Hatt. lia.
        -- destruct Hv as (_ & x & Hx & _). apply lookup_lt_Some in Hx.
           unfold from1 in Hx. rewrite length_drop in Hx. lia.
      * destruct (Hrows k m' Hk) as (m0' & Hm0' & Hlen). exists m0'.
        split; [done|]. by replace (ii + S k)%nat with (S ii + k)%nat by lia.
Qed.

Lemma silent_dec key (rows : list (list string)) :
  Forall (silent key) rows
  ∨ ∃ m m0, m ∈ rows ∧ m !! 0%nat = Some m0 ∧ m0 ≠ ""
          ∧ key = attribute_name m0.
Proof.
  induction rows as [|m rows [IH|(m' & m0 & Hin & ?)]].
  - left. constructor.
  - unfold silent at 1. destruct (m !! 0%nat) as [m0|] eqn:Hm0.
    + destruct (decide (m0 = "")) as [->|Hne].
      { left. constructor; [|done]. unfold silent. rewrite Hm0. by left. }
      destruct (decide (attribute_name m0 = key)) as [<-|Hk].
      * right. exists m, m0. split; [by left|done].
      * left. constructor; [|done]. unfold silent. rewrite Hm0. by right.
    + left. constructor; [|done]. unfold silent. by rewrite Hm0.
  - right. exists m', m0. split; [by right|done].
Qed.
End Loop.

(** X16.  The loop over the header rows only adds buffers to the heap,
    and changes an attribute only if some row among the first
    [metadata_rows] has a non-empty first cell that names it; the name of
    every attribute it sets has no space and no upper-case ASCII letter. *)
Theorem header_rows_frame {F : Type} `{Arith F} (np_float64 : string → res F)
    (numeric_fields : list string) (metadata_rows col_header_rows : Z)
    (lines : list (list string)) (attrs attrs' : gmap string (attr F))
    (h h' : heap F) :
  header_rows np_float64 numeric_fields metadata_rows col_header_rows lines
    attrs h = Ok (attrs', h') →
  (∃ new, h' = h ++ new)
  ∧ ∀ key, attrs' !! key ≠ attrs !! key →
      has_char " " key = false ∧ map_string lower_char key = key
      ∧ ∃ m m0, m ∈ py_slice_to lines metadata_rows
              ∧ m !! 0%nat = Some m0 ∧ m0 ≠ "" ∧ key = attribute_name m0.
Proof.
  unfold header_rows. intros E.
  apply header_loop_frame in E as (Hheap & Hkeys & _).
  split; [exact Hheap|]. intros key Hkey.
  destruct (silent_dec key (py_slice_to lines metadata_rows))
    as [Hs|(m & m0 & Hin & Hm0 & Hne & ->)].
  { by apply Hkeys in Hs. }
  split; [apply attribute_name_no_space|].
  split; [apply attribute_name_lower|]. by exists m, m0.
Qed.

Lemma header_rows_frame_witness :
  ∃ attrs' h',
    header_rows Text.float Text.numeric_fields 3 1 Text.lines ∅ []
    = Ok (attrs', h')
    ∧ (∃ new, h' = [] ++ new)
    ∧ ∀ key, attrs' !! key ≠ (∅ : gmap string (attr B64.float)) !! key →
        has_char " " key = false ∧ map_string lower_char key = key
        ∧ ∃ m m0, m ∈ py_slice_to Text.lines 3
                ∧ m !! 0%nat = Some m0 ∧ m0 ≠ "" ∧ key = attribute_name m0.
Proof.
  eexists _, _. split; [reflexivity|].
  apply (header_rows_frame Text.float Text.numeric_fields 3 1 Text.lines).
  reflexivity.
Defined.

(** X17.  Whenever the loop over the header rows returns, each of the
    first [metadata_rows] rows has a first cell (a blank line makes it
    fail), and each row with a name that lies before position
    [metadata_rows - col_header_rows - 1] has at least one value cell. *)
Theorem header_rows_need_cells {F : Type} `{Arith F}
    (np_float64 : string → res F) (numeric_fields : list string)
    (metadata_rows col_header_rows : Z) (lines : list (list string))
    (attrs attrs' : gmap string (attr F)) (h h' : heap F) :
  header_rows np_float64 numeric_fields metadata_rows col_header_rows lines
    attrs h = Ok (attrs', h') →
  ∀ k m, py_slice_to lines metadata_rows !! k = Some m →
    ∃ m0, m !! 0%nat = Some m0
        ∧ (m0 ≠ "" → file_scalar metadata_rows col_header_rows k = true →
           (2 ≤ length m)%nat).
Proof.
  unfold header_rows. intros E.
  apply header_loop_frame in E as (_ & _ & Hrows). exact Hrows.
Qed.

Lemma header_rows_need_cells_witness :
  ∃ attrs' h',
    header_rows Text.float Text.numeric_fields 3 1 Text.lines ∅ []
    = Ok (attrs', h')
    ∧ ∀ k m, py_slice_to Text.lines 3 !! k = Some m →
        ∃ m0, m !! 0%nat = Some m0
            ∧ (m0 ≠ "" → file_scalar 3 1 k = true → (2 ≤ length m)%nat).
Proof.
  eexists _, _. split; [reflexivity|].
  eapply (header_rows_need_cells Text.float Text.numeric_fields 3 1
            Text.lines ∅ _ []).
  reflexivity.
Defined.

(** X18.  After the loop, the attribute named by a row with a non-empty
    first cell, when no later row names it, is what that row sets, by its
    position: before position [metadata_rows - col_header_rows - 1] the
    first value cell (as a float for a numeric field), from there on all
    the value cells (for a numeric field a new array of floats, an empty
    cell being read as 'nan'), or [None] when the row has no value cell. *)
Theorem header_rows_value {F : Type} `{Arith F} (np_float64 : string → res F)
    (numeric_fields : list string) (metadata_rows col_header_rows : Z)
    (lines : list (list string)) (attrs attrs' : gmap string (attr F))
    (h h' : heap F) (pre post : list (list string)) (m0 : string)
    (cells : list string) :
  py_slice_to lines metadata_rows = pre ++ (m0 :: cells) :: post →
  m0 ≠ "" → Forall (silent (attribute_name m0)) post →
  header_rows np_float64 numeric_fields metadata_rows col_header_rows lines
    attrs h = Ok (attrs', h') →
  ∃ v, attrs' !! attribute_name m0 = Some v
    ∧ if bool_decide (m0 ∈ numeric_fields) then
        ∃ att, Forall2 (λ c x, cell_float np_float64 c = Ok x) cells att
          ∧ if file_scalar metadata_rows col_header_rows (length pre) then
              ∃ x, att !! 0%nat = Some x ∧ v = Num x
            else if bool_decide (0 < length cells)%nat then
              ∃ l, v = Arr l ∧ h' !! l = Some (Vec att)
            else v = PyNone
      else
        if file_scalar metadata_rows col_header_rows (length pre) then
          ∃ x, cells !! 0%nat = Some x ∧ v = Str x
        else if bool_decide (0 < length cells)%nat then v = Strs cells
        else v = PyNone.
Proof.
  unfold header_rows. intros -> Hne Hpost E.
  apply for_enum_heap_app_inv in E as (attrs1 & h1 & _ & E).
  cbn [for_enum_heap Nat.add] in E. mstep E as attrs2 h2 E2.
  apply header_loop_frame in E as ([new ->] & Hkeys & _).
  rewrite (Hkeys _ Hpost).
  apply header_row_inv in E2 as (m0' & Hm0 & Hcase).
  assert (m0' = m0) as -> by (simpl in Hm0; congruence).
  destruct Hcase as [(? & _)|(_ & v & -> & Hv)]; [done|].
  exists v. split; [by rewrite lookup_insert_eq|].
  change (from1 (m0 :: cells)) with cells in Hv.
  case_bool_decide.
  - destruct Hv as (att & Hatt & Hv). apply comprehension_ok in Hatt.
    exists att. split; [done|].
    destruct (file_scalar _ _ _); [by destruct Hv|].
    rewrite <- (Forall2_length _ _ _ Hatt) in Hv.
    case_bool_decide; [|by destruct Hv].
    destruct Hv as [-> ->]. eexists. split; [done|].
    rewrite <- app_assoc. by apply list_lookup_middle.
  - by destruct Hv as [_ Hv].
Qed.

Lemma header_rows_value_witness :
  ∃ attrs' h',
    header_rows Text.float Text.numeric_fields 3 1 Text.lines ∅ []
    = Ok (attrs', h')
    ∧ ∃ v, attrs' !! "min_depth" = Some v
      ∧ ∃ att, Forall2 (λ c x, cell_float Text.float c = Ok x) ["0"; ""] att
          ∧ ∃ l, v = Arr l ∧ h' !! l = Some (Vec att).
Proof.
  eexists _, _. split; [reflexivity|].
  exact (header_rows_value Text.float Text.numeric_fields 3 1 Text.lines ∅ _
           [] _ [["Bin Units"; "phi"]; ["Sample ID"; "a"; "b"]] []
           "Min Depth" ["0"; ""] eq_refl ltac:(discriminate)
           ltac:(constructor) eq_refl).
Defined.

Section Count.
Variable metadata_rows col_header_rows : Z.

Lemma filter_all {A} (f : A → bool) (l : list A) :
  Forall (λ x, f x = true) l → List.filter f l = l.
Proof. induction 1 as [|x l Hx _ IH]; simpl; [done|]. by rewrite Hx, IH. Qed.

Lemma filter_none {A} (f : A → bool) (l : list A) :
  Forall (λ x, f x = false) l → List.filter f l = [].
Proof. induction 1 as [|x l Hx _ IH]; simpl; [done|]. by rewrite Hx. Qed.
End Count.

(** X19.  Of the first [metadata_rows] rows of a file, those that hold a
    value for each sample are the last [col_header_rows + 1]: one more than
    the number the argument is named for (7 with the default
    arguments 17 and 6). *)
Theorem per_sample_rows (metadata_rows col_header_rows : Z) :
  0 ≤ col_header_rows < metadata_rows →
  length (List.filter
            (λ ii, negb (file_scalar metadata_rows col_header_rows ii))
            (seq 0 (Z.to_nat metadata_rows)))
  = Z.to_nat (col_header_rows + 1).
Proof.
  intros Hr. set (a := Z.to_nat (metadata_rows - col_header_rows - 1)).
  set (b := Z.to_nat (col_header_rows + 1)).
  replace (Z.to_nat metadata_rows) with (a + b)%nat by lia.
  rewrite seq_app, List.filter_app, length_app.
  rewrite filter_none, filter_all; simpl.
  - by rewrite length_seq.
  - apply Forall_forall. intros ii Hii. apply elem_of_seq in Hii.
    unfold file_scalar. apply negb_true_iff, Z.ltb_ge. lia.
  - apply Forall_forall. intros ii Hii. apply elem_of_seq in Hii.
    unfold file_scalar. apply negb_false_iff, Z.ltb_lt. lia.
Qed.

Lemma per_sample_rows_witness :
  length (List.filter (λ ii, negb (file_scalar 17 6 ii)) (seq 0 17)) = 7%nat.
Proof. apply (per_sample_rows 17 6). lia. Defined.
